(** * The live-connection hub of the chat server

    A shallow embedding of [server/internal/websocket]: the event model
    (events.go), the per-connection [Client] (client.go) and the [Hub]
    (hub.go).  Go's runtime is modelled as far as the code relies on it:
    buffered channels with [close] and non-blocking [select] sends, the
    hub's [sync.RWMutex], the hub's two unbuffered intake channels, the
    wall clock, the log and the three tables of the relational store the
    hub reads or writes.  [WritePump] is left out: nothing stated below
    depends on how a buffer is drained. *)

From stdpp Require Import gmap strings list fin_maps.
From Stdlib Require Import ZArith.

Open Scope string_scope.
Open Scope list_scope.

(** ** Event model (events.go) *)

Abbreviation EventType := string (only parsing).

Definition EventConnect : EventType := "connect".
Definition EventDisconnect : EventType := "disconnect".
Definition EventMessageSent : EventType := "message_sent".
Definition EventMessageDelivered : EventType := "message_delivered".
Definition EventMessageRead : EventType := "message_read".
Definition EventMessageReceived : EventType := "message_received".
Definition EventGroupMessageSent : EventType := "group_message_sent".
Definition EventGroupMessageReceived : EventType := "group_message_received".
Definition EventTypingStart : EventType := "typing_start".
Definition EventTypingStop : EventType := "typing_stop".
Definition EventUserOnline : EventType := "user_online".
Definition EventUserOffline : EventType := "user_offline".

(** [time.Time], as a count of clock units. *)
Abbreviation Time := Z (only parsing).

(** [[]byte] *)
Abbreviation bytes := (list Byte.byte) (only parsing).

Record TypingPayload := mkTypingPayload {
  typ_UserID : string;
  typ_ChatID : string;
  typ_GroupID : string;
  typ_UserName : string
}.

Record PresencePayload := mkPresencePayload {
  pres_UserID : string;
  pres_IsOnline : bool;
  pres_LastSeen : Time
}.

Record MessagePayload := mkMessagePayload {
  msg_ID : string;
  msg_ChatID : string;
  msg_SenderID : string;
  msg_ReceiverID : string;
  msg_Content : string;
  msg_Type : string;
  msg_Status : string;
  msg_CreatedAt : Time
}.

Record GroupMessagePayload := mkGroupMessagePayload {
  gmsg_ID : string;
  gmsg_GroupID : string;
  gmsg_SenderID : string;
  gmsg_Content : string;
  gmsg_Type : string;
  gmsg_CreatedAt : Time
}.

Record MessageStatusPayload := mkMessageStatusPayload {
  st_MessageID : string;
  st_Status : string;
  st_UpdatedAt : Time
}.

Record ErrorPayload := mkErrorPayload {
  err_Code : string;
  err_Message : string
}.

(** The [interface{}] in [WSMessage.Payload]: one of the payload structs
    of events.go, or any other Go value ([POther], opaque). *)
Inductive Payload :=
| PMessage (p : MessagePayload)
| PGroupMessage (p : GroupMessagePayload)
| PTyping (p : TypingPayload)
| PPresence (p : PresencePayload)
| PMessageStatus (p : MessageStatusPayload)
| PError (p : ErrorPayload)
| POther (tag : string).

Record WSMessage := mkWSMessage {
  Type_ : EventType;
  Payload_ : Payload;
  Timestamp : Time
}.

(** A decoded JSON value as [map[string]interface{}] holds it; only the
    string case is ever inspected (by the [.(string)] assertions). *)
Inductive jvalue :=
| JString (s : string)
| JNumber (z : Z)
| JBool (b : bool)
| JNull
| JComposite.

Record IncomingMessage := mkIncomingMessage {
  in_Type : EventType;
  in_Payload : gmap string jvalue
}.

(** [v, _ := payload[key].(string)]: the string stored under [key], and
    the zero value when the key is absent or holds something else. *)
Definition string_field (payload : gmap string jvalue) (key : string) : string :=
  match payload !! key with
  | Some (JString s) => s
  | _ => ""
  end.

(** ** Clients, channels and the world the hub runs in *)

(** A [*Client].  [Conn] and [Send] name the connection and the channel
    the client owns in the stores below; [NewClient] makes both fresh, so
    two clients made by it never share one.  The [Hub] back-pointer is the
    one hub of the world. *)
Record Client := mkClient {
  ID : string;
  UniqueID : string;
  Conn : positive;
  Send : positive
}.

#[global] Instance Client_eq_dec : EqDecision Client.
Proof. solve_decision. Defined.

(** A buffered [chan []byte]. *)
Record Chan := mkChan {
  buf : list bytes;
  cap : nat;
  closed : bool
}.

Record ConnState := mkConnState {
  readDeadline : Time;
  connClosed : bool
}.

(** [sync.RWMutex]: one writer or any number of readers. *)
Record RWMutex := mkRWMutex {
  writer : bool;
  readers : nat
}.

#[global] Instance RWMutex_eq_dec : EqDecision RWMutex.
Proof. solve_decision. Defined.

(** A row of [users], as far as the hub writes it. *)
Record UserRow := mkUserRow {
  is_online : bool;
  last_seen : Time
}.

(** The [log.Printf] call sites of hub.go and client.go. *)
Inductive LogLine :=
| LogOnlineStatusFailed
| LogOfflineStatusFailed
| LogClientConnected (uniqueID userID : string)
| LogClientDisconnected (uniqueID userID : string)
| LogGetContactsFailed
| LogMarshalPresenceFailed
| LogPresenceSendFailed (contactID : string)
| LogMarshalFailed
| LogSendFailed (userID : string)
| LogGetGroupMembersFailed
| LogWebSocketError
| LogParseFailed
| LogUnknownType (t : EventType).

(** Everything the package reads or writes.  [Clients], [Register] and
    [Unregister] and [mu] are the fields of [Hub]; [Register] and
    [Unregister] hold the clients whose goroutines are parked on a send
    to the unbuffered intake channel, oldest first.  [chans] and [conns]
    are the heap of channels and connections.  [users], [contacts]
    (rows [(user_id, contact_id)]) and [group_members] (rows
    [(group_id, user_id)]) are the tables of the store; [db_up] tells
    whether a statement sent to the pool succeeds. *)
Record World := mkWorld {
  Clients : gmap string Client;
  Register : list Client;
  Unregister : list Client;
  mu : RWMutex;
  chans : gmap positive Chan;
  conns : gmap positive ConnState;
  users : gmap string UserRow;
  contacts : list (string * string);
  group_members : list (string * string);
  db_up : bool;
  clock : Time;
  logs : list LogLine
}.

Definition set_Clients (f : gmap string Client → gmap string Client) (w : World) : World :=
  mkWorld (f (Clients w)) (Register w) (Unregister w) (mu w) (chans w) (conns w)
          (users w) (contacts w) (group_members w) (db_up w) (clock w) (logs w).
Definition set_Register (f : list Client → list Client) (w : World) : World :=
  mkWorld (Clients w) (f (Register w)) (Unregister w) (mu w) (chans w) (conns w)
          (users w) (contacts w) (group_members w) (db_up w) (clock w) (logs w).
Definition set_Unregister (f : list Client → list Client) (w : World) : World :=
  mkWorld (Clients w) (Register w) (f (Unregister w)) (mu w) (chans w) (conns w)
          (users w) (contacts w) (group_members w) (db_up w) (clock w) (logs w).
Definition set_mu (f : RWMutex → RWMutex) (w : World) : World :=
  mkWorld (Clients w) (Register w) (Unregister w) (f (mu w)) (chans w) (conns w)
          (users w) (contacts w) (group_members w) (db_up w) (clock w) (logs w).
Definition set_chans (f : gmap positive Chan → gmap positive Chan) (w : World) : World :=
  mkWorld (Clients w) (Register w) (Unregister w) (mu w) (f (chans w)) (conns w)
          (users w) (contacts w) (group_members w) (db_up w) (clock w) (logs w).
Definition set_conns (f : gmap positive ConnState → gmap positive ConnState) (w : World) : World :=
  mkWorld (Clients w) (Register w) (Unregister w) (mu w) (chans w) (f (conns w))
          (users w) (contacts w) (group_members w) (db_up w) (clock w) (logs w).
Definition set_users (f : gmap string UserRow → gmap string UserRow) (w : World) : World :=
  mkWorld (Clients w) (Register w) (Unregister w) (mu w) (chans w) (conns w)
          (f (users w)) (contacts w) (group_members w) (db_up w) (clock w) (logs w).
Definition set_clock (f : Time → Time) (w : World) : World :=
  mkWorld (Clients w) (Register w) (Unregister w) (mu w) (chans w) (conns w)
          (users w) (contacts w) (group_members w) (db_up w) (f (clock w)) (logs w).
Definition set_logs (f : list LogLine → list LogLine) (w : World) : World :=
  mkWorld (Clients w) (Register w) (Unregister w) (mu w) (chans w) (conns w)
          (users w) (contacts w) (group_members w) (db_up w) (clock w) (f (logs w)).

(** ** Runs of a goroutine *)

Inductive PanicKind :=
| CloseOfNilChannel
| CloseOfClosedChannel
| SendOnClosedChannel.

(** How a call ends, with the world it leaves: it returns, it panics, or
    its goroutine parks and nothing in the run wakes it (on the hub's
    mutex while that is held, by the caller itself in the case that
    matters below; in [ReadMessage] once the socket has no more to give).
    Or it has come to a send on one of the hub's two intake channels.
    These are unbuffered, so the send does not complete by itself: in [w]
    the sender waits on the channel, and it stays there until [Run]
    receives from it; [resume] is the rest of the call, which runs from
    the world the receive has happened in, and not at all when [Run]
    never gets there. *)
Inductive outcome (A : Type) :=
| Ok (a : A) (w : World)
| Panic (k : PanicKind) (w : World)
| Blocked (w : World)
| Sending (resume : World → outcome A) (w : World).
Arguments Ok {A} a w.
Arguments Panic {A} k w.
Arguments Blocked {A} w.
Arguments Sending {A} resume w.

Definition M (A : Type) : Type := World → outcome A.

Definition ret {A} (a : A) : M A := fun w => Ok a w.

(** What follows a run: [ok] when it returned, [panic] when it panicked,
    nothing while it is parked; what follows a run that waits in a send
    follows the rest of it. *)
Fixpoint extend {A B} (ok : A → World → outcome B) (panic : PanicKind → World → outcome B)
    (o : outcome A) : outcome B :=
  match o with
  | Ok a w' => ok a w'
  | Panic p w' => panic p w'
  | Blocked w' => Blocked w'
  | Sending resume w' => Sending (fun w'' => extend ok panic (resume w'')) w'
  end.

Definition bind {A B} (m : M A) (k : A → M B) : M B := fun w =>
  extend k (fun p w' => Panic p w') (m w).

Declare Scope hub_scope.
Delimit Scope hub_scope with hub.
Notation "x <- m ;; k" := (bind m (fun x => k))
  (at level 100, m at next level, right associativity) : hub_scope.
Notation "m ;; k" := (bind m (fun _ => k))
  (at level 100, right associativity) : hub_scope.
Open Scope hub_scope.

(** [defer cleanup(); body]: the deferred call runs when the body returns
    and when it panics, not while it is parked; after a body that waits
    in a send it runs when the rest of the body is over. *)
Definition defer {A} (cleanup : M unit) (body : M A) : M A := fun w =>
  extend (fun a w' =>
            extend (fun _ w'' => Ok a w'') (fun p w'' => Panic p w'') (cleanup w'))
         (fun p w' =>
            extend (fun _ w'' => Panic p w'') (fun p' w'' => Panic p' w'') (cleanup w'))
         (body w).

(** The world a run ends in, however it ends; for a run that waits in a
    send, the world it waits in. *)
Definition final {A} (o : outcome A) : World :=
  match o with
  | Ok _ w => w
  | Panic _ w => w
  | Blocked w => w
  | Sending _ w => w
  end.

Definition get {A} (f : World → A) : M A := fun w => Ok (f w) w.
Definition modify (f : World → World) : M unit := fun w => Ok tt (f w).

Definition log_Printf (l : LogLine) : M unit := modify (set_logs (fun ls => ls ++ [l])).

(** *** Channels *)

(** [make(chan []byte, n)] *)
Definition make_chan (n : nat) : Chan := mkChan [] n false.

(** The channel after one more element went into its buffer. *)
Definition enqueue (c : Chan) (data : bytes) : Chan :=
  mkChan (buf c ++ [data]) (cap c) (closed c).

(** [close(ch)] *)
Definition close (ch : positive) : M unit := fun w =>
  match chans w !! ch with
  | None => Panic CloseOfNilChannel w
  | Some c =>
      if closed c then Panic CloseOfClosedChannel w
      else Ok tt (set_chans (insert ch (mkChan (buf c) (cap c) true)) w)
  end.

(** [select { case ch <- data: ...; default: ... }]: [true] when the send
    case ran, [false] when the default case did.  A send to a closed
    channel is ready and panics; a full or nil channel is not ready. *)
Definition select_send (ch : positive) (data : bytes) : M bool := fun w =>
  match chans w !! ch with
  | None => Ok false w
  | Some c =>
      if closed c then Panic SendOnClosedChannel w
      else if decide (length (buf c) < cap c)
      then Ok true (set_chans (insert ch (enqueue c data)) w)
      else Ok false w
  end.

(** *** The hub's mutex *)

(** The mutex with no holder. *)
Definition mu_free : RWMutex := mkRWMutex false 0.

(** [Lock] waits for the writer and for every reader to be gone, [RLock]
    for the writer; the mutex is not reentrant, so a goroutine that holds
    the write lock and asks for either parks on itself.  [Unlock] and
    [RUnlock] are only ever called by the holder. *)
Definition mu_Lock : M unit := fun w =>
  if writer (mu w) then Blocked w
  else match readers (mu w) with
       | O => Ok tt (set_mu (fun m => mkRWMutex true 0) w)
       | S _ => Blocked w
       end.
Definition mu_Unlock : M unit :=
  modify (set_mu (fun m => mkRWMutex false (readers m))).
Definition mu_RLock : M unit := fun w =>
  if writer (mu w) then Blocked w
  else Ok tt (set_mu (fun m => mkRWMutex false (S (readers m))) w).
Definition mu_RUnlock : M unit :=
  modify (set_mu (fun m => mkRWMutex (writer m) (Nat.pred (readers m)))).

(** ** What the package takes from outside *)

(** [encoding/json] and the wall clock.  [json_Marshal] and
    [json_Unmarshal] return the value or the error; [tick] gives the
    clock's reading after the current one. *)
Class Runtime := {
  json_Marshal : WSMessage → bytes + string;
  json_Unmarshal : bytes → IncomingMessage + string;
  tick : Time → Time
}.

(** The rows of [SELECT user_id FROM contacts WHERE contact_id = $1 UNION
    SELECT contact_id FROM contacts WHERE user_id = $1]: [UNION] keeps one
    copy of each.  Every row scans into a string, so the [continue] after
    a failed [rows.Scan] has no counterpart here. *)
Definition contacts_of (userID : string) (tbl : list (string * string)) : list string :=
  remove_dups ((fst <$> filter (λ r, r.2 = userID) tbl) ++
               (snd <$> filter (λ r, r.1 = userID) tbl)).

(** The rows of [SELECT user_id FROM group_members WHERE group_id = $1]. *)
Definition members_of (groupID : string) (tbl : list (string * string)) : list string :=
  snd <$> filter (λ r, r.1 = groupID) tbl.

Section Hub.
Context `{RT : Runtime}.

(** [time.Now()] *)
Definition time_Now : M Time := fun w => Ok (clock w) (set_clock tick w).

(** [database.Pool.Exec] of [UPDATE users SET is_online = b, last_seen = $1
    WHERE id = $2]; [true] when [err == nil]. *)
Definition db_update_online (b : bool) (at_ : Time) (id : string) : M bool := fun w =>
  if db_up w then Ok true (set_users (alter (fun _ => mkUserRow b at_) id) w)
  else Ok false w.

(** [database.Pool.Query] of the two SELECTs; [None] when [err != nil]. *)
Definition db_query_contacts (userID : string) : M (option (list string)) := fun w =>
  if db_up w then Ok (Some (contacts_of userID (contacts w))) w else Ok None w.
Definition db_query_members (groupID : string) : M (option (list string)) := fun w =>
  if db_up w then Ok (Some (members_of groupID (group_members w))) w else Ok None w.

(** ** hub.go *)

(** [NewHub] *)
Definition NewHub : M unit :=
  modify (fun w => set_Clients (fun _ => ∅)
            (set_Register (fun _ => [])
              (set_Unregister (fun _ => [])
                (set_mu (fun _ => mu_free) w)))).

(** The [for rows.Next()] loop of [broadcastPresence]. *)
Fixpoint presence_loop (rows : list string) (data : bytes) : M unit :=
  match rows with
  | [] => ret tt
  | contactID :: rest =>
      mu_RLock ;;
      c <- get (fun w => Clients w !! contactID) ;;
      match c with
      | Some client =>
          sent <- select_send (Send client) data ;;
          if sent : bool then ret tt else log_Printf (LogPresenceSendFailed contactID)
      | None => ret tt
      end ;;
      mu_RUnlock ;;
      presence_loop rest data
  end.

Definition broadcastPresence (userID : string) (isOnline : bool) : M unit :=
  rows <- db_query_contacts userID ;;
  match rows with
  | None => log_Printf LogGetContactsFailed
  | Some rows =>
      lastSeen <- time_Now ;;
      ts <- time_Now ;;
      let message :=
        mkWSMessage EventUserOnline (PPresence (mkPresencePayload userID isOnline lastSeen)) ts in
      let message :=
        if isOnline then message
        else mkWSMessage EventUserOffline (Payload_ message) (Timestamp message) in
      match json_Marshal message with
      | inr _ => log_Printf LogMarshalPresenceFailed
      | inl data => presence_loop rows data
      end
  end.

Definition registerClient (client : Client) : M unit :=
  mu_Lock ;;
  defer mu_Unlock (
    existing <- get (fun w => Clients w !! ID client) ;;
    match existing with
    | Some existingClient => close (Send existingClient)
    | None => ret tt
    end ;;
    modify (set_Clients (insert (ID client) client)) ;;
    now <- time_Now ;;
    ok <- db_update_online true now (ID client) ;;
    (if ok : bool then ret tt else log_Printf LogOnlineStatusFailed) ;;
    broadcastPresence (ID client) true ;;
    log_Printf (LogClientConnected (UniqueID client) (ID client))).

Definition unregisterClient (client : Client) : M unit :=
  mu_Lock ;;
  defer mu_Unlock (
    existing <- get (fun w => Clients w !! ID client) ;;
    match existing with
    | Some _ =>
        modify (set_Clients (delete (ID client))) ;;
        close (Send client) ;;
        now <- time_Now ;;
        ok <- db_update_online false now (ID client) ;;
        (if ok : bool then ret tt else log_Printf LogOfflineStatusFailed) ;;
        broadcastPresence (ID client) false ;;
        log_Printf (LogClientDisconnected (UniqueID client) (ID client))
    | None => ret tt
    end).

(** Which ready case the [select] of [Run] takes. *)
Inductive RunCase := RecvRegister | RecvUnregister.

(** One turn of the [for { select { ... } }] of [Run]: it receives from
    the intake channel [pick] names when a sender is parked there, from
    the other one when only that has a sender, and parks when neither has. *)
Definition Run_iter (pick : RunCase) : M unit := fun w =>
  match pick, Register w, Unregister w with
  | RecvRegister, client :: q, _ => registerClient client (set_Register (fun _ => q) w)
  | RecvUnregister, _, client :: q => unregisterClient client (set_Unregister (fun _ => q) w)
  | RecvRegister, [], client :: q => unregisterClient client (set_Unregister (fun _ => q) w)
  | RecvUnregister, client :: q, [] => registerClient client (set_Register (fun _ => q) w)
  | _, [], [] => Blocked w
  end.

Definition BroadcastToUser (userID : string) (message : WSMessage) : M unit :=
  mu_RLock ;;
  defer mu_RUnlock (
    c <- get (fun w => Clients w !! userID) ;;
    match c with
    | Some client =>
        match json_Marshal message with
        | inr _ => log_Printf LogMarshalFailed
        | inl data =>
            sent <- select_send (Send client) data ;;
            if sent : bool then ret tt else log_Printf (LogSendFailed userID)
        end
    | None => ret tt
    end).

(** The [for _, userID := range userIDs] loop of [BroadcastToUsers]. *)
Fixpoint users_loop (userIDs : list string) (data : bytes) : M unit :=
  match userIDs with
  | [] => ret tt
  | userID :: rest =>
      c <- get (fun w => Clients w !! userID) ;;
      match c with
      | Some client =>
          sent <- select_send (Send client) data ;;
          if sent : bool then ret tt else log_Printf (LogSendFailed userID)
      | None => ret tt
      end ;;
      users_loop rest data
  end.

Definition BroadcastToUsers (userIDs : list string) (message : WSMessage) : M unit :=
  match json_Marshal message with
  | inr _ => log_Printf LogMarshalFailed
  | inl data => mu_RLock ;; defer mu_RUnlock (users_loop userIDs data)
  end.

(** The [for rows.Next()] loop of [BroadcastToGroup]. *)
Fixpoint group_loop (rows : list string) (data : bytes) (excludeUserID : string) : M unit :=
  match rows with
  | [] => ret tt
  | userID :: rest =>
      if decide (userID = excludeUserID) then group_loop rest data excludeUserID
      else
        c <- get (fun w => Clients w !! userID) ;;
        match c with
        | Some client =>
            sent <- select_send (Send client) data ;;
            if sent : bool then ret tt else log_Printf (LogSendFailed userID)
        | None => ret tt
        end ;;
        group_loop rest data excludeUserID
  end.

Definition BroadcastToGroup (groupID : string) (message : WSMessage) (excludeUserID : string)
  : M unit :=
  rows <- db_query_members groupID ;;
  match rows with
  | None => log_Printf LogGetGroupMembersFailed
  | Some rows =>
      match json_Marshal message with
      | inr _ => log_Printf LogMarshalFailed
      | inl data => mu_RLock ;; defer mu_RUnlock (group_loop rows data excludeUserID)
      end
  end.

Definition IsUserOnline (userID : string) : M bool :=
  mu_RLock ;;
  defer mu_RUnlock (get (fun w => bool_decide (is_Some (Clients w !! userID)))).

Definition GetOnlineUsers : M (list string) :=
  mu_RLock ;;
  defer mu_RUnlock (get (fun w => (map_to_list (Clients w)).*1)).

Definition GetOnlineCount : M nat :=
  mu_RLock ;;
  defer mu_RUnlock (get (fun w => size (Clients w))).

(** ** client.go *)

(** [NewClient]: the client owns a fresh channel of capacity 256. *)
Definition NewClient (userID uniqueID : string) (conn : positive) : M Client := fun w =>
  let ch := fresh (dom (chans w)) in
  Ok (mkClient userID uniqueID conn ch) (set_chans (insert ch (make_chan 256)) w).

(** [c.Hub.Unregister <- c]: the channel is unbuffered, so the sender
    joins the senders waiting on it and goes on only once [Run] has
    received the client. *)
Definition send_Unregister (c : Client) : M unit := fun w =>
  Sending (fun w' => Ok tt w') (set_Unregister (fun q => q ++ [c]) w).

Definition conn_SetReadDeadline (conn : positive) (t : Time) : M unit :=
  modify (set_conns (alter (fun s => mkConnState t (connClosed s)) conn)).
Definition conn_Close (conn : positive) : M unit :=
  modify (set_conns (alter (fun s => mkConnState (readDeadline s) true) conn)).

Definition handleTypingStart (c : Client) (payload : gmap string jvalue) : M unit :=
  let chatID := string_field payload "chatId" in
  let groupID := string_field payload "groupId" in
  let typingPayload := mkTypingPayload (ID c) chatID groupID "" in
  now <- time_Now ;;
  let message := mkWSMessage EventTypingStart (PTyping typingPayload) now in
  if decide (groupID ≠ "") then BroadcastToGroup groupID message (ID c)
  else if decide (chatID ≠ "") then BroadcastToUsers [chatID] message
  else ret tt.

Definition handleTypingStop (c : Client) (payload : gmap string jvalue) : M unit :=
  let chatID := string_field payload "chatId" in
  let groupID := string_field payload "groupId" in
  let typingPayload := mkTypingPayload (ID c) chatID groupID "" in
  now <- time_Now ;;
  let message := mkWSMessage EventTypingStop (PTyping typingPayload) now in
  if decide (groupID ≠ "") then BroadcastToGroup groupID message (ID c)
  else if decide (chatID ≠ "") then BroadcastToUsers [chatID] message
  else ret tt.

Definition handleIncomingMessage (c : Client) (msg : IncomingMessage) : M unit :=
  if decide (in_Type msg = EventTypingStart) then handleTypingStart c (in_Payload msg)
  else if decide (in_Type msg = EventTypingStop) then handleTypingStop c (in_Payload msg)
  else log_Printf (LogUnknownType (in_Type msg)).

(** What [c.Conn.ReadMessage()] meets next: a pong control frame (handled
    inside the call by the pong handler), an error (with what
    [IsUnexpectedCloseError] says of it), or a data frame. *)
Inductive ReadEvent :=
| Pong
| ReadError (unexpectedClose : bool)
| ReadFrame (message : bytes).

(** The body of the [for] loop of [ReadPump] once [ReadMessage] has
    returned: [true] to go round again, [false] after [break]. *)
Definition ReadPump_body (c : Client) (message : bytes + bool) : M bool :=
  match message with
  | inr unexpectedClose =>
      (if unexpectedClose : bool then log_Printf LogWebSocketError else ret tt) ;;
      ret false
  | inl message =>
      match json_Unmarshal message with
      | inr _ => log_Printf LogParseFailed ;; ret true
      | inl incoming => handleIncomingMessage c incoming ;; ret true
      end
  end.

(** The loop over a script of what the socket delivers; with the script
    used up the goroutine stays parked in [ReadMessage]. *)
Fixpoint ReadPump_loop (c : Client) (script : list ReadEvent) : M unit :=
  match script with
  | [] => fun w => Blocked w
  | Pong :: rest =>
      now <- time_Now ;;
      conn_SetReadDeadline (Conn c) (now + 60)%Z ;;
      ReadPump_loop c rest
  | ReadError unexpectedClose :: _ =>
      _ <- ReadPump_body c (inr unexpectedClose) ;; ret tt
  | ReadFrame message :: rest =>
      again <- ReadPump_body c (inl message) ;;
      if again : bool then ReadPump_loop c rest else ret tt
  end.

Definition ReadPump (c : Client) (script : list ReadEvent) : M unit :=
  defer (send_Unregister c ;; conn_Close (Conn c)) (
    now <- time_Now ;;
    conn_SetReadDeadline (Conn c) (now + 60)%Z ;;
    ReadPump_loop c script).

(** [SendMessage]: the returned error, [None] for [nil]. *)
Definition SendMessage (c : Client) (msg : WSMessage) : M (option string) :=
  match json_Marshal msg with
  | inr err => ret (Some err)
  | inl data =>
      sent <- select_send (Send c) data ;;
      (if sent : bool then ret tt
       else close (Send c) ;; send_Unregister c) ;;
      ret None
  end.

End Hub.

(** ** The rest of client.go, and the callers *)

(** The frame types [WritePump] writes. *)
Inductive MessageType := TextMessage | PingMessage | CloseMessage.

(** What [WritePump] does to its connection and to the log, call by call. *)
Inductive WriteEffect :=
| SetWriteDeadline (t : Time)
| WriteMessage (messageType : MessageType) (data : bytes)
| LogWriteError.

(** Which case the [select] of [WritePump] takes, and whether the socket
    write that follows succeeds. *)
Inductive WriteEvent :=
| SendReady (writeOk : bool)
| TickerFires (writeOk : bool).

(** [case message, ok := <-ch] of a [select]: [None] while the case is not
    ready (nothing buffered in an open channel, or a nil channel); a
    buffered element with [ok = true], also after [close]; the zero value
    with [ok = false] once the channel is closed and drained. *)
Definition select_recv (ch : positive) : M (option (bytes * bool)) := fun w =>
  match chans w !! ch with
  | None => Ok None w
  | Some c =>
      match buf c with
      | message :: rest =>
          Ok (Some (message, true)) (set_chans (insert ch (mkChan rest (cap c) (closed c))) w)
      | [] => if closed c then Ok (Some ([], false)) w else Ok None w
      end
  end.

(** How a run ended, its result dropped. *)
Definition discard {A} (o : outcome A) : outcome unit :=
  extend (fun _ w => Ok tt w) (fun p w => Panic p w) o.

Section Callers.
Context `{RT : Runtime}.

(** The [for { select { ... } }] of [WritePump] over a script of what the
    [select] takes; [out] collects what was done to the connection.  With
    the script used up, or the case it names not ready, the goroutine
    stays parked in the [select]. *)
Fixpoint WritePump_loop (c : Client) (script : list WriteEvent) (out : list WriteEffect)
    (w : World) : list WriteEffect * outcome unit :=
  match script with
  | [] => (out, Blocked w)
  | SendReady writeOk :: rest =>
      match select_recv (Send c) w with
      | Ok (Some (message, ok)) w1 =>
          match time_Now w1 with
          | Ok now w2 =>
              let out := out ++ [SetWriteDeadline (now + 10)%Z] in
              if ok : bool then
                let out := out ++ [WriteMessage TextMessage message] in
                if writeOk : bool then WritePump_loop c rest out w2
                else (out ++ [LogWriteError], Ok tt w2)
              else (out ++ [WriteMessage CloseMessage []], Ok tt w2)
          | Panic p w2 => (out, Panic p w2)
          | Blocked w2 => (out, Blocked w2)
          | Sending resume w2 => (out, Sending (fun w' => discard (resume w')) w2)
          end
      | Ok None w1 => (out, Blocked w1)
      | Panic p w1 => (out, Panic p w1)
      | Blocked w1 => (out, Blocked w1)
      | Sending resume w1 => (out, Sending (fun w' => discard (resume w')) w1)
      end
  | TickerFires writeOk :: rest =>
      match time_Now w with
      | Ok now w2 =>
          let out := out ++ [SetWriteDeadline (now + 10)%Z; WriteMessage PingMessage []] in
          if writeOk : bool then WritePump_loop c rest out w2 else (out, Ok tt w2)
      | Panic p w2 => (out, Panic p w2)
      | Blocked w2 => (out, Blocked w2)
      | Sending resume w2 => (out, Sending (fun w' => discard (resume w')) w2)
      end
  end.

(** [WritePump]: the loop, and the deferred [c.Conn.Close()] when the
    loop returns. *)
Definition WritePump (c : Client) (script : list WriteEvent) (w : World)
  : list WriteEffect * outcome unit :=
  let '(out, o) := WritePump_loop c script [] w in
  (out, match o with
        | Ok _ w' => conn_Close (Conn c) w'
        | _ => o
        end).

(** [WSHub.Register <- client] of [WebSocketHandler] (handlers/chat.go):
    the sender joins the senders waiting on the unbuffered intake channel
    and goes on only once [Run] has received the client. *)
Definition send_Register (c : Client) : M unit := fun w =>
  Sending (fun w' => Ok tt w') (set_Register (fun q => q ++ [c]) w).

(** The hub part of [SendGroupMessage] (handlers/group.go), reached once
    the message row is stored: the members but the sender get a
    [group_message_received] envelope, the sender a [group_message_sent]
    one with the same payload. *)
Definition SendGroupMessage_broadcast (groupID userID : string) (payload : GroupMessagePayload)
  : M unit :=
  now <- time_Now ;;
  let wsMessage := mkWSMessage EventGroupMessageReceived (PGroupMessage payload) now in
  BroadcastToGroup groupID wsMessage userID ;;
  now <- time_Now ;;
  let confirmMessage := mkWSMessage EventGroupMessageSent (PGroupMessage payload) now in
  BroadcastToUser userID confirmMessage.

End Callers.

(** ** Vocabulary of the statements *)

(** The two worlds agree on everything but the clock and the log. *)
Definition same_hub (w w' : World) : Prop :=
  Clients w' = Clients w ∧ Register w' = Register w ∧ Unregister w' = Unregister w ∧
  mu w' = mu w ∧ chans w' = chans w ∧ conns w' = conns w ∧ users w' = users w ∧
  contacts w' = contacts w ∧ group_members w' = group_members w ∧ db_up w' = db_up w.

(** Every registered client has its channel, open, and no two users'
    clients share a channel (what [NewClient] and [registerClient]
    establish between them). *)
Definition registry_wf (w : World) : Prop :=
  (∀ u c, Clients w !! u = Some c → ∃ ch, chans w !! Send c = Some ch ∧ closed ch = false) ∧
  (∀ u1 u2 c1 c2, Clients w !! u1 = Some c1 → Clients w !! u2 = Some c2 →
                  Send c1 = Send c2 → u1 = u2).

(** From [w] to [w'] every buffer only grew, and only by copies of [data]. *)
Definition only_pushes (data : bytes) (w w' : World) : Prop :=
  ∀ k, ∃ n, buf <$> chans w' !! k = (λ b, b ++ replicate n data) <$> (buf <$> chans w !! k).

(** One turn of the loops of [BroadcastToUsers] and [BroadcastToGroup]:
    the non-blocking send to [userID]'s client, if there is one. *)
Definition push_one (userID : string) (data : bytes) : M unit :=
  c <- get (fun w => Clients w !! userID) ;;
  match c with
  | Some client =>
      sent <- select_send (Send client) data ;;
      if sent : bool then ret tt else log_Printf (LogSendFailed userID)
  | None => ret tt
  end.

(** From [w] to [w'] the registry and the mutex are as they were, the
    channel of every registered user among [targets] took [data] if it
    had room and is as it was if not, and every other channel is as it
    was. *)
Definition pushed_to (targets : list string) (data : bytes) (w w' : World) : Prop :=
  Clients w' = Clients w ∧ mu w' = mu w ∧
  (∀ u c ch, u ∈ targets → Clients w !! u = Some c → chans w !! Send c = Some ch →
     chans w' !! Send c =
       Some (if decide (length (buf ch) < cap ch) then enqueue ch data else ch)) ∧
  (∀ k, (∀ u c, u ∈ targets → Clients w !! u = Some c → Send c ≠ k) →
        chans w' !! k = chans w !! k).

(** No buffer holds anything in [w'] that it did not hold in [w]. *)
Definition buffers_untouched (w w' : World) : Prop :=
  ∀ k, buf <$> chans w' !! k = buf <$> chans w !! k.

(** The envelope [broadcastPresence] builds for [userID] going online or
    offline, with the two clock readings it takes. *)
Definition presence_event (userID : string) (isOnline : bool) (lastSeen ts : Time) : WSMessage :=
  mkWSMessage (if isOnline then EventUserOnline else EventUserOffline)
              (PPresence (mkPresencePayload userID isOnline lastSeen)) ts.

(** Why a presence broadcast under the write lock came back: the contact
    query failed, it had no rows, or the envelope did not serialize. *)
Definition presence_skipped `{Runtime} (userID : string) (isOnline : bool) (w : World) : Prop :=
  db_up w = false ∨ contacts_of userID (contacts w) = [] ∨
  ∃ t ts e, json_Marshal (presence_event userID isOnline t ts) = inr e.

(** From [w] to [w'] nothing went into any buffer but serializations of
    [message]. *)
Definition sends_only `{Runtime} (message : WSMessage) (w w' : World) : Prop :=
  match json_Marshal message with
  | inl data => only_pushes data w w'
  | inr _ => buffers_untouched w w'
  end.

(** The channel is at capacity. *)
Definition full (ch : Chan) : Prop := (cap ch ≤ length (buf ch))%nat.

(** The non-blocking send to [userID]'s client would take the [default]
    branch in [w]: the user is registered and the client's buffer has no
    room (or its channel is nil). *)
Definition not_ready (w : World) (userID : string) : bool :=
  match Clients w !! userID with
  | Some client =>
      match chans w !! Send client with
      | Some ch => bool_decide (¬ length (buf ch) < cap ch)
      | None => true
      end
  | None => false
  end.

(** The log lines the loop of [BroadcastToUsers] and [BroadcastToGroup]
    writes on its way over [targets]: one for each whose send was not
    ready, in the order of the list. *)
Definition skipped_lines (w : World) (targets : list string) : list LogLine :=
  LogSendFailed <$> filter (λ u, not_ready w u = true) targets.

(** From [w] to [w'] nothing changed but channels and the log. *)
Definition only_chans_and_logs (w w' : World) : Prop :=
  w' = set_logs (λ _, logs w') (set_chans (λ _, chans w') w).

(** [BroadcastToUser userID message], run in [w], returns and has put the
    serialized [message] at the end of the buffer of [userID]'s client. *)
Definition user_receives `{Runtime} (userID : string) (message : WSMessage) (w : World) : Prop :=
  ∃ client ch data w',
    Clients w !! userID = Some client ∧ chans w !! Send client = Some ch ∧
    json_Marshal message = inl data ∧
    BroadcastToUser userID message w = Ok tt w' ∧
    buf <$> chans w' !! Send client = Some (buf ch ++ [data]).

(** [BroadcastToGroup groupID message excludeUserID], run in [w], returns
    and has put the serialized [message] at the end of the buffer of every
    registered member of the group but [excludeUserID], and in no other
    registered client's buffer. *)
Definition group_receives `{Runtime} (groupID : string) (message : WSMessage)
    (excludeUserID : string) (w : World) : Prop :=
  ∃ data w',
    json_Marshal message = inl data ∧
    BroadcastToGroup groupID message excludeUserID w = Ok tt w' ∧
    ∀ u client ch, Clients w !! u = Some client → chans w !! Send client = Some ch →
      buf <$> chans w' !! Send client =
        Some (if decide (u ∈ members_of groupID (group_members w) ∧ u ≠ excludeUserID)
              then buf ch ++ [data] else buf ch).

(** *** Vocabulary for what a call keeps *)

(** The call does not end waiting in a send on an intake channel. *)
Definition sendless {A} (m : M A) : Prop := ∀ w resume w', m w ≠ Sending resume w'.

(** [P] holds in the world the run ends in; and for a run that waits in
    a send, also at the end of the rest of it, if [P] holds (still, or
    again) in the world that goes on in. *)
Fixpoint ends_in {A} (P : World → Prop) (o : outcome A) : Prop :=
  match o with
  | Ok _ w => P w
  | Panic _ w => P w
  | Blocked w => P w
  | Sending resume w => P w ∧ ∀ w', P w' → ends_in P (resume w')
  end.

(** Whatever way the call ends, it ends in a world where [P] holds, if it
    started in one. *)
Definition preserves {A} (P : World → Prop) (m : M A) : Prop :=
  ∀ w, P w → ends_in P (m w).

(** [P] survives the update [f] of the world. *)
Definition stable (P : World → Prop) (f : World → World) : Prop := ∀ w, P w → P (f w).

(** [P] survives one more element in an open channel that has room, and
    any change to the lock, the clock and the log. *)
Definition push_stable (P : World → Prop) : Prop :=
  (∀ w k c data, P w → chans w !! k = Some c → closed c = false →
                 length (buf c) < cap c → P (set_chans (insert k (enqueue c data)) w)) ∧
  (∀ f, stable P (set_mu f)) ∧ (∀ f, stable P (set_clock f)) ∧ (∀ f, stable P (set_logs f)).

(** [P] survives, besides, the closing of an open channel, a client put
    into the registry under its own id, an entry taken out of it, and any
    change to the store's user rows, the intake queues and the
    connections. *)
Definition hub_stable (P : World → Prop) : Prop :=
  push_stable P ∧
  (∀ w k c, P w → chans w !! k = Some c → closed c = false →
            P (set_chans (insert k (mkChan (buf c) (cap c) true)) w)) ∧
  (∀ c, stable P (set_Clients (insert (ID c) c))) ∧
  (∀ u, stable P (set_Clients (delete u))) ∧
  (∀ f, stable P (set_users f)) ∧ (∀ f, stable P (set_Register f)) ∧
  (∀ f, stable P (set_Unregister f)) ∧ (∀ f, stable P (set_conns f)).

(** A run that returns has the lock as [m0]; one that waits in a send
    is held to that for the rest of it, when the lock is, as it goes on,
    what it was as it began to wait. *)
Fixpoint lock_kept {A} (m0 : RWMutex) (o : outcome A) : Prop :=
  match o with
  | Ok _ w => mu w = m0
  | Panic _ _ => True
  | Blocked _ => True
  | Sending resume w => ∀ w', mu w' = mu w → lock_kept m0 (resume w')
  end.

(** A call that returns hands the lock back as it found it. *)
Definition returns_lock {A} (m : M A) : Prop :=
  ∀ w, lock_kept (mu w) (m w).

(** The data of the text frames among what [WritePump] wrote, in order. *)
Definition text_frames (out : list WriteEffect) : list bytes :=
  omap (λ e, match e with WriteMessage TextMessage data => Some data | _ => None end) out.

(** No buffer holds more than its channel's capacity. *)
Definition buffers_bounded (w : World) : Prop :=
  ∀ k ch, chans w !! k = Some ch → (length (buf ch) ≤ cap ch)%nat.

(** Every client sits in the registry under its own user id. *)
Definition keyed_by_id (w : World) : Prop :=
  ∀ u c, Clients w !! u = Some c → ID c = u.


(** ** A small concrete world *)

Module Demo.

(** A stand-in encoder: the event type and the user the payload names;
    a payload that is no struct of events.go does not encode. *)
Definition payload_user (p : Payload) : option string :=
  match p with
  | PMessage m => Some (msg_SenderID m)
  | PGroupMessage m => Some (gmsg_SenderID m)
  | PTyping t => Some (typ_UserID t)
  | PPresence q => Some (pres_UserID q)
  | PMessageStatus m => Some (st_MessageID m)
  | PError e => Some (err_Code e)
  | POther _ => None
  end.

Definition runtime : Runtime := {|
  json_Marshal m :=
    match payload_user (Payload_ m) with
    | Some u => inl (String.list_byte_of_string (Type_ m +:+ ":" +:+ u))
    | None => inr "json: unsupported type"
    end;
  json_Unmarshal b :=
    match b with
    | [] => inr "unexpected end of JSON input"
    | _ => inl (mkIncomingMessage (String.string_of_list_byte b) ∅)
    end;
  tick t := (t + 1)%Z
|}.

Definition alice1 : Client := mkClient "alice" "#ALICE-1" 1 1.
Definition alice2 : Client := mkClient "alice" "#ALICE-1" 2 2.
Definition bob : Client := mkClient "bob" "#BOB-2" 3 3.

Definition hello : WSMessage :=
  mkWSMessage EventMessageReceived
    (PMessage (mkMessagePayload "m1" "alice" "alice" "bob" "hi" "text" "sent" 0)) 0.

Definition frame : bytes := String.list_byte_of_string "x".

(** A channel of capacity 256 holding 256 frames nobody took out. *)
Definition full_chan : Chan := mkChan (replicate 256 frame) 256 false.

(** A world with the given registry, channels and tables, the mutex free
    and the store up. *)
Definition world (cs : list (string * Client)) (chs : list (positive * Chan))
    (ct gm : list (string * string)) : World :=
  mkWorld (list_to_map cs) [] [] mu_free (list_to_map chs) ∅ ∅ ct gm true 0 [].

(** Alice connected once; nobody has contacts. *)
Definition w_alice : World :=
  world [("alice", alice1)] [(1%positive, make_chan 256); (2%positive, make_chan 256)] [] [].

(** Alice connected twice: the world the second registration leaves. *)
Definition w_alice_twice : World := final (@registerClient runtime alice2 w_alice).

(** Alice came and went: the world her unregistration leaves. *)
Definition w_alice_gone : World := final (@unregisterClient runtime alice1 w_alice).

(** Bob connected and his buffer full; Alice and Bob in group "g". *)
Definition w_bob_full : World :=
  world [("bob", bob)] [(3%positive, full_chan)] [] [("g", "alice"); ("g", "bob")].

(** Bob connected with an empty buffer; Alice and Bob are contacts and
    both in group "g"; Alice's client made but not yet registered. *)
Definition w_bob : World :=
  world [("bob", bob)] [(1%positive, make_chan 256); (3%positive, make_chan 256)]
        [("alice", "bob")] [("g", "alice"); ("g", "bob")].

(** Alice and Bob both connected, both in group "g". *)
Definition w_both : World :=
  world [("alice", alice1); ("bob", bob)]
        [(1%positive, make_chan 256); (3%positive, make_chan 256)]
        [] [("g", "alice"); ("g", "bob")].

(** A frame the stand-in decoder reads as an event of type "x". *)
Definition frame_x : bytes := String.list_byte_of_string "x".

End Demo.

(** ** A few more concrete worlds *)

Module Scenes.
Import Demo.

(** Bob connected, his connection open; nobody has contacts. *)
Definition w_lobby : World :=
  mkWorld (list_to_map [("bob", bob)]) [] [] mu_free
          (list_to_map [(3%positive, make_chan 256)])
          (list_to_map [(1%positive, mkConnState 0 false); (3%positive, mkConnState 0 false)])
          (list_to_map [("alice", mkUserRow false 0); ("bob", mkUserRow true 0)])
          [] [("g", "alice"); ("g", "bob")] true 0 [].

(** Alice's client as [NewClient] makes it in [w_lobby], and the worlds
    her connection goes through: client made, registered, read loop
    over. *)
Definition newcomer : Client := mkClient "alice" "#ALICE-1" 1 4.
Definition w_made : World := final (@NewClient "alice" "#ALICE-1" 1 w_lobby).
Definition w_joined : World :=
  final (@Run_iter runtime RecvRegister (final (send_Register newcomer w_made))).
Definition visit : list ReadEvent := [Pong; ReadFrame frame_x; ReadError true].
Definition w_left : World := final (@ReadPump runtime newcomer visit w_joined).

(** The world after the hub has taken Alice's unregister request and her
    read loop's goroutine has gone on to close the connection. *)
Definition w_after : World :=
  final (conn_Close (Conn newcomer) (final (@Run_iter runtime RecvUnregister w_left))).


(** Bob connected, Alice his contact: the world her registration parks in. *)
Definition w_parked : World := final (@registerClient runtime alice1 w_bob).

(** Bob connected with a full buffer and the store down. *)
Definition w_offline_store : World :=
  mkWorld (list_to_map [("bob", bob)]) [] [] mu_free
          (list_to_map [(3%positive, full_chan)]) ∅
          (list_to_map [("bob", mkUserRow true 0)])
          [("alice", "bob")] [("g", "alice"); ("g", "bob")] false 7 [].

Definition frame_y : bytes := String.list_byte_of_string "y".

(** Alice's channel holds two frames; her connection is open. *)
Definition w_outbox (closed : bool) : World :=
  mkWorld (list_to_map [("alice", alice1)]) [] [] mu_free
          (list_to_map [(1%positive, mkChan [frame_x; frame_y] 256 closed);
                        (3%positive, make_chan 256)])
          (list_to_map [(1%positive, mkConnState 0 false)])
          ∅ [] [] true 0 [].

Definition group_hello : GroupMessagePayload :=
  mkGroupMessagePayload "m2" "g" "alice" "hi all" "text" 0.

End Scenes.

(** ** Running the model by hand *)

Ltac hub_cbn :=
  cbn [mu_free mu Clients chans conns users contacts group_members db_up clock logs
       Register Unregister set_mu set_Clients set_chans set_conns set_users set_clock
       set_logs set_Register set_Unregister writer readers final extend Nat.pred] in *.

Ltac hub_unfold :=
  unfold log_Printf, send_Unregister, conn_SetReadDeadline, conn_Close, mu_Lock, mu_Unlock,
    mu_RLock, mu_RUnlock, close, select_send, db_update_online, db_query_contacts,
    db_query_members, time_Now, bind, defer, get, modify, ret in *;
  cbn [extend] in *.

(** Opens a world into its fields and computes the setters away. *)
Ltac open_world w := destruct w; hub_cbn; subst; hub_cbn.

(** After the lock, the registry update and the store update, what is
    left of [registerClient] and [unregisterClient] is the presence
    broadcast under the write lock.  [locked] is the fact that tells how
    that ends (it returns, or it parks); the outcome is read off it. *)
Ltac presence_locked locked w' Hsame Hrun :=
  match goal with
  | |- context [broadcastPresence ?u ?b ?w1] =>
      let Hw := fresh in
      assert (Hw : writer (mu w1) = true) by reflexivity;
      destruct (locked u b w1 Hw) as (w' & Hsame & Hrun);
      clear Hw; destruct Hsame as (?&?&?&?&?&?&?&?&?&?); hub_cbn
  end.

Ltac presence_tail locked :=
  let w' := fresh "w'" in
  let Hsame := fresh "Hsame" in
  let Hrun := fresh "Hrun" in
  presence_locked locked w' Hsame Hrun;
  destruct Hrun as [(Hrun&?)|(Hrun&?&?)]; try discriminate; rewrite Hrun; hub_cbn;
  first
    [ solve [ eexists; repeat split; [..|left; split; [reflexivity|split]]; hub_cbn;
              try eassumption;
              match goal with Hm : mu _ = _ |- _ => rewrite Hm end; reflexivity ]
    | solve [ eexists; repeat split; [..|right; split; [reflexivity|]]; hub_cbn; eauto ] ].

(** ** Which calls send on an intake channel *)

(** Only [SendMessage], [ReadPump] and [WebSocketHandler] do; every other
    call ends without waiting in such a send. *)

Create HintDb sendless.

Section Shape.
Context `{RT : Runtime}.

Lemma sendless_ret {A} (a : A) : sendless (ret a).
Proof. intros w r w' H. discriminate. Qed.

Lemma sendless_get {A} (f : World → A) : sendless (get f).
Proof. intros w r w' H. discriminate. Qed.

Lemma sendless_modify f : sendless (modify f).
Proof. intros w r w' H. discriminate. Qed.

Lemma sendless_bind {A B} (m : M A) (k : A → M B) :
  sendless m → (∀ a, sendless (k a)) → sendless (bind m k).
Proof.
  intros Hm Hk w r w' H. unfold bind in H.
  destruct (m w) as [a w1|p w1|w1|r1 w1] eqn:E; cbn [extend] in H;
    [exact (Hk a w1 r w' H)|discriminate|discriminate|exact (Hm w r1 w1 E)].
Qed.

Lemma sendless_defer {A} (cleanup : M unit) (body : M A) :
  sendless cleanup → sendless body → sendless (defer cleanup body).
Proof.
  intros Hc Hb w r w' H. unfold defer in H.
  destruct (body w) as [a w1|p w1|w1|r1 w1] eqn:E; cbn [extend] in H;
    [| |discriminate|exact (Hb w r1 w1 E)];
    (destruct (cleanup w1) as [[] w2|p2 w2|w2|r2 w2] eqn:E2; cbn [extend] in H;
     [discriminate|discriminate|discriminate|exact (Hc w1 r2 w2 E2)]).
Qed.

Lemma sendless_ext {A} (m m' : M A) : (∀ w, m w = m' w) → sendless m' → sendless m.
Proof. intros Heq Hm w r w' H. rewrite Heq in H. exact (Hm w r w' H). Qed.

Lemma sendless_log l : sendless (log_Printf l).
Proof. apply sendless_modify. Qed.

Lemma sendless_time_Now : sendless time_Now.
Proof. intros w r w' H. discriminate. Qed.

Lemma sendless_mu_Lock : sendless mu_Lock.
Proof. intros w r w' H. unfold mu_Lock in H. repeat case_match; discriminate. Qed.

Lemma sendless_mu_RLock : sendless mu_RLock.
Proof. intros w r w' H. unfold mu_RLock in H. repeat case_match; discriminate. Qed.

Lemma sendless_mu_Unlock : sendless mu_Unlock.
Proof. apply sendless_modify. Qed.

Lemma sendless_mu_RUnlock : sendless mu_RUnlock.
Proof. apply sendless_modify. Qed.

Lemma sendless_select_send ch data : sendless (select_send ch data).
Proof. intros w r w' H. unfold select_send in H. repeat case_match; discriminate. Qed.

Lemma sendless_close ch : sendless (close ch).
Proof. intros w r w' H. unfold close in H. repeat case_match; discriminate. Qed.

Lemma sendless_db_update_online b t id : sendless (db_update_online b t id).
Proof. intros w r w' H. unfold db_update_online in H. repeat case_match; discriminate. Qed.

Lemma sendless_db_query_contacts u : sendless (db_query_contacts u).
Proof. intros w r w' H. unfold db_query_contacts in H. repeat case_match; discriminate. Qed.

Lemma sendless_db_query_members g : sendless (db_query_members g).
Proof. intros w r w' H. unfold db_query_members in H. repeat case_match; discriminate. Qed.

Lemma sendless_conn_SetReadDeadline conn t : sendless (conn_SetReadDeadline conn t).
Proof. apply sendless_modify. Qed.

Lemma sendless_conn_Close conn : sendless (conn_Close conn).
Proof. apply sendless_modify. Qed.

#[local] Hint Resolve sendless_ret sendless_get sendless_modify sendless_log sendless_time_Now
  sendless_mu_Lock sendless_mu_RLock sendless_mu_Unlock sendless_mu_RUnlock
  sendless_select_send sendless_close sendless_db_update_online sendless_db_query_contacts
  sendless_db_query_members sendless_conn_SetReadDeadline sendless_conn_Close : sendless.

(** Takes a call apart along its binds, defers and branches. *)
Ltac sendless_steps :=
  repeat first
    [ apply sendless_bind; [|intros ?]
    | apply sendless_defer
    | progress auto with sendless
    | case_match ].

Lemma sendless_push_one u data : sendless (push_one u data).
Proof. unfold push_one. sendless_steps. Qed.

Lemma sendless_users_loop l data : sendless (users_loop l data).
Proof.
  induction l as [|u l IH]; [apply sendless_ret|].
  change (sendless (bind (push_one u data) (fun _ => users_loop l data))).
  apply sendless_bind; [apply sendless_push_one|intros _; exact IH].
Qed.

Lemma sendless_group_loop rows data exclude : sendless (group_loop rows data exclude).
Proof.
  induction rows as [|u rows IH]; [apply sendless_ret|]. cbn [group_loop].
  case_decide; [exact IH|].
  apply sendless_bind; [apply sendless_get|]. intros c.
  apply sendless_bind; [|intros _; exact IH]. sendless_steps.
Qed.

Lemma sendless_presence_loop l data : sendless (presence_loop l data).
Proof.
  induction l as [|u l IH]; [apply sendless_ret|]. cbn [presence_loop].
  apply sendless_bind; [apply sendless_mu_RLock|]. intros _.
  apply sendless_bind; [apply sendless_get|]. intros c.
  apply sendless_bind; [sendless_steps|]. intros _.
  apply sendless_bind; [apply sendless_mu_RUnlock|]. intros _. exact IH.
Qed.

Lemma sendless_broadcastPresence u b : sendless (broadcastPresence u b).
Proof.
  unfold broadcastPresence. apply sendless_bind; [apply sendless_db_query_contacts|].
  intros [rows|]; [|apply sendless_log].
  apply sendless_bind; [apply sendless_time_Now|]. intros t.
  apply sendless_bind; [apply sendless_time_Now|]. intros ts.
  cbv zeta. case_match; [apply sendless_presence_loop|apply sendless_log].
Qed.

Lemma sendless_registerClient client : sendless (registerClient client).
Proof.
  unfold registerClient. apply sendless_bind; [apply sendless_mu_Lock|]. intros _.
  apply sendless_defer; [apply sendless_mu_Unlock|].
  apply sendless_bind; [apply sendless_get|]. intros existing.
  apply sendless_bind; [destruct existing; [apply sendless_close|apply sendless_ret]|].
  intros _. apply sendless_bind; [apply sendless_modify|]. intros _.
  apply sendless_bind; [apply sendless_time_Now|]. intros t.
  apply sendless_bind; [apply sendless_db_update_online|]. intros ok.
  apply sendless_bind; [destruct ok; [apply sendless_ret|apply sendless_log]|].
  intros _. apply sendless_bind; [apply sendless_broadcastPresence|].
  intros _. apply sendless_log.
Qed.

Lemma sendless_unregisterClient client : sendless (unregisterClient client).
Proof.
  unfold unregisterClient. apply sendless_bind; [apply sendless_mu_Lock|]. intros _.
  apply sendless_defer; [apply sendless_mu_Unlock|].
  apply sendless_bind; [apply sendless_get|]. intros [e|]; [|apply sendless_ret].
  apply sendless_bind; [apply sendless_modify|]. intros _.
  apply sendless_bind; [apply sendless_close|]. intros _.
  apply sendless_bind; [apply sendless_time_Now|]. intros t.
  apply sendless_bind; [apply sendless_db_update_online|]. intros ok.
  apply sendless_bind; [destruct ok; [apply sendless_ret|apply sendless_log]|].
  intros _. apply sendless_bind; [apply sendless_broadcastPresence|].
  intros _. apply sendless_log.
Qed.

Lemma sendless_BroadcastToUsers l m : sendless (BroadcastToUsers l m).
Proof.
  unfold BroadcastToUsers. case_match; [|apply sendless_log].
  apply sendless_bind; [apply sendless_mu_RLock|]. intros _.
  apply sendless_defer; [apply sendless_mu_RUnlock|apply sendless_users_loop].
Qed.

Lemma sendless_BroadcastToGroup g m x : sendless (BroadcastToGroup g m x).
Proof.
  unfold BroadcastToGroup. apply sendless_bind; [apply sendless_db_query_members|].
  intros [rows|]; [|apply sendless_log].
  case_match; [|apply sendless_log].
  apply sendless_bind; [apply sendless_mu_RLock|]. intros _.
  apply sendless_defer; [apply sendless_mu_RUnlock|apply sendless_group_loop].
Qed.

Lemma sendless_handleIncomingMessage c msg : sendless (handleIncomingMessage c msg).
Proof.
  unfold handleIncomingMessage, handleTypingStart, handleTypingStop. cbv zeta.
  repeat case_decide; try apply sendless_log;
    (apply sendless_bind; [apply sendless_time_Now|]; intros t;
     repeat case_decide;
     first [apply sendless_BroadcastToGroup|apply sendless_BroadcastToUsers|apply sendless_ret]).
Qed.

Lemma sendless_ReadPump_body c message : sendless (ReadPump_body c message).
Proof.
  unfold ReadPump_body. destruct message as [message|unexpected].
  - case_match.
    + apply sendless_bind; [apply sendless_handleIncomingMessage|].
      intros _. apply sendless_ret.
    + apply sendless_bind; [apply sendless_log|]. intros _. apply sendless_ret.
  - apply sendless_bind; [|intros _; apply sendless_ret].
    destruct unexpected; [apply sendless_log|apply sendless_ret].
Qed.

Lemma sendless_ReadPump_loop c script : sendless (ReadPump_loop c script).
Proof.
  induction script as [|ev script IH]; [intros w r w' H; discriminate|].
  destruct ev as [|unexpected|message]; cbn [ReadPump_loop].
  - apply sendless_bind; [apply sendless_time_Now|]. intros t.
    apply sendless_bind; [apply sendless_conn_SetReadDeadline|]. intros _. exact IH.
  - apply sendless_bind; [apply sendless_ReadPump_body|]. intros _. apply sendless_ret.
  - apply sendless_bind; [apply sendless_ReadPump_body|].
    intros []; [exact IH|apply sendless_ret].
Qed.

End Shape.

#[global] Hint Resolve sendless_ret sendless_get sendless_modify sendless_log
  sendless_time_Now sendless_mu_Lock sendless_mu_RLock sendless_mu_Unlock
  sendless_mu_RUnlock sendless_select_send sendless_close sendless_db_update_online
  sendless_db_query_contacts sendless_db_query_members sendless_conn_SetReadDeadline
  sendless_conn_Close sendless_registerClient sendless_unregisterClient : sendless.

Section Facts.
Context `{RT : Runtime}.

(** *** The presence broadcast under the write lock *)

Lemma presence_loop_locked rows data w :
  writer (mu w) = true →
  presence_loop rows data w = match rows with [] => Ok tt w | _ => Blocked w end.
Proof.
  intros Hw. destruct rows as [|r rows]; [reflexivity|].
  simpl. unfold bind, mu_RLock. rewrite Hw. reflexivity.
Qed.

Lemma broadcastPresence_locked userID isOnline w :
  writer (mu w) = true →
  ∃ w', same_hub w w' ∧
    (broadcastPresence userID isOnline w = Ok tt w' ∧ presence_skipped userID isOnline w ∨
     broadcastPresence userID isOnline w = Blocked w' ∧
       db_up w = true ∧ contacts_of userID (contacts w) ≠ []).
Proof.
  intros Hw. unfold broadcastPresence, presence_skipped, bind, db_query_contacts.
  destruct (db_up w) eqn:Hdb; cbn [extend].
  - unfold time_Now. cbn [extend set_clock clock].
    match goal with
    | |- context [json_Marshal ?m] => destruct (json_Marshal m) as [data|e] eqn:Hm
    end.
    + rewrite presence_loop_locked by exact Hw.
      destruct (contacts_of userID (contacts w)) eqn:Hc.
      * eexists. split; [|left; split; [reflexivity|auto]]. repeat split.
      * eexists. split; [|right; split; [reflexivity|split; [reflexivity|congruence]]].
        repeat split.
    + eexists. split; [|left; split; [reflexivity|]]. { repeat split. }
      right; right. unfold presence_event. destruct isOnline; eauto.
  - eexists. split; [|left; split; [reflexivity|auto]]. repeat split.
Qed.

End Facts.

Section Registry.
Context `{RT : Runtime}.

(** *** [unregisterClient], case by case *)

Lemma unregisterClient_busy c w : mu w ≠ mu_free → unregisterClient c w = Blocked w.
Proof.
  intros Hmu. unfold unregisterClient. hub_unfold.
  destruct (mu w) as [[] [|n]] eqn:E; try reflexivity. exfalso. apply Hmu. reflexivity.
Qed.

Lemma unregisterClient_absent c w :
  mu w = mu_free → Clients w !! ID c = None → unregisterClient c w = Ok tt w.
Proof.
  intros Hmu Hc. unfold unregisterClient. hub_unfold.
  open_world w. rewrite Hc. reflexivity.
Qed.

Lemma unregisterClient_closed c e ch w :
  mu w = mu_free → Clients w !! ID c = Some e →
  chans w !! Send c = Some ch → closed ch = true →
  unregisterClient c w = Panic CloseOfClosedChannel (set_Clients (delete (ID c)) w).
Proof.
  intros Hmu Hc Hch Hcl. unfold unregisterClient. hub_unfold.
  open_world w. rewrite Hc; hub_cbn. rewrite Hch, Hcl. reflexivity.
Qed.

Lemma unregisterClient_nil c e w :
  mu w = mu_free → Clients w !! ID c = Some e → chans w !! Send c = None →
  unregisterClient c w = Panic CloseOfNilChannel (set_Clients (delete (ID c)) w).
Proof.
  intros Hmu Hc Hch. unfold unregisterClient. hub_unfold.
  open_world w. rewrite Hc; hub_cbn. rewrite Hch. reflexivity.
Qed.

Lemma unregisterClient_present c e ch w :
  mu w = mu_free → Clients w !! ID c = Some e →
  chans w !! Send c = Some ch → closed ch = false →
  ∃ w', Clients w' = delete (ID c) (Clients w) ∧
        chans w' = <[Send c := mkChan (buf ch) (cap ch) true]> (chans w) ∧
        Register w' = Register w ∧ Unregister w' = Unregister w ∧
        (unregisterClient c w = Ok tt w' ∧ mu w' = mu_free ∧
           presence_skipped (ID c) false w ∨
         unregisterClient c w = Blocked w' ∧ db_up w = true ∧
           contacts_of (ID c) (contacts w) ≠ []).
Proof.
  intros Hmu Hc Hch Hopen. unfold unregisterClient. hub_unfold.
  open_world w. rewrite Hc; hub_cbn. rewrite Hch, Hopen; hub_cbn.
  destruct db_up0; hub_cbn; presence_tail broadcastPresence_locked.
Qed.

(** *** [registerClient], case by case *)

Lemma registerClient_fresh client w :
  mu w = mu_free → Clients w !! ID client = None →
  ∃ w', Clients w' = <[ID client := client]> (Clients w) ∧ chans w' = chans w ∧
        (registerClient client w = Ok tt w' ∧ mu w' = mu_free ∧
           presence_skipped (ID client) true w ∨
         registerClient client w = Blocked w' ∧ db_up w = true ∧
           contacts_of (ID client) (contacts w) ≠ []).
Proof.
  intros Hmu Hc. unfold registerClient. hub_unfold.
  open_world w. rewrite Hc; hub_cbn.
  destruct db_up0; hub_cbn; presence_tail broadcastPresence_locked.
Qed.

Lemma registerClient_replace client e ch w :
  mu w = mu_free → Clients w !! ID client = Some e →
  chans w !! Send e = Some ch → closed ch = false →
  ∃ w', Clients w' = <[ID client := client]> (Clients w) ∧
        chans w' = <[Send e := mkChan (buf ch) (cap ch) true]> (chans w) ∧
        (registerClient client w = Ok tt w' ∧ mu w' = mu_free ∧
           presence_skipped (ID client) true w ∨
         registerClient client w = Blocked w' ∧ db_up w = true ∧
           contacts_of (ID client) (contacts w) ≠ []).
Proof.
  intros Hmu Hc Hch Hopen. unfold registerClient. hub_unfold.
  open_world w. rewrite Hc; hub_cbn. rewrite Hch, Hopen; hub_cbn.
  destruct db_up0; hub_cbn; presence_tail broadcastPresence_locked.
Qed.

Lemma Run_iter_unregister c q w :
  Unregister w = c :: q →
  Run_iter RecvUnregister w = unregisterClient c (set_Unregister (λ _, q) w).
Proof. intros Hq. unfold Run_iter. rewrite Hq. destruct (Register w); reflexivity. Qed.

(** *** [SendMessage], case by case *)



Lemma SendMessage_full c msg data ch w :
  json_Marshal msg = inl data → chans w !! Send c = Some ch → closed ch = false →
  full ch →
  SendMessage c msg w =
    Sending (λ w', Ok None w')
            (set_Unregister (λ q, q ++ [c])
               (set_chans (insert (Send c) (mkChan (buf ch) (cap ch) true)) w)).
Proof.
  intros Hm Hch Hopen Hfull. unfold SendMessage. rewrite Hm. hub_unfold.
  rewrite Hch, Hopen. rewrite decide_False by (unfold full in Hfull; lia).
  cbn [extend]. rewrite Hch, Hopen. reflexivity.
Qed.



Lemma buffers_untouched_close k ch w w' :
  chans w !! k = Some ch → chans w' = <[k := mkChan (buf ch) (cap ch) true]> (chans w) →
  buffers_untouched w w'.
Proof.
  intros Hch Hw' k'. rewrite Hw'. destruct (decide (k = k')) as [<-|Hne].
  - rewrite lookup_insert_eq, Hch. reflexivity.
  - rewrite lookup_insert_ne by exact Hne. reflexivity.
Qed.

(** *** [BroadcastToUser], case by case *)

Lemma BroadcastToUser_absent userID message w :
  writer (mu w) = false → Clients w !! userID = None →
  BroadcastToUser userID message w = Ok tt w.
Proof.
  intros Hmu Hc. unfold BroadcastToUser. hub_unfold.
  destruct w as [? ? ? [wr rd] ? ? ? ? ? ? ? ?]; hub_cbn; subst; hub_cbn.
  rewrite Hc. reflexivity.
Qed.

(** The world [BroadcastToUser] leaves when the user's client has its
    channel open. *)
Lemma BroadcastToUser_present userID message client ch w :
  writer (mu w) = false → Clients w !! userID = Some client →
  chans w !! Send client = Some ch → closed ch = false →
  BroadcastToUser userID message w =
    Ok tt match json_Marshal message with
          | inr _ => set_logs (λ ls, ls ++ [LogMarshalFailed]) w
          | inl data =>
              if decide (length (buf ch) < cap ch)
              then set_chans (insert (Send client) (enqueue ch data)) w
              else set_logs (λ ls, ls ++ [LogSendFailed userID]) w
          end.
Proof.
  intros Hmu Hc Hch Hopen. unfold BroadcastToUser. hub_unfold.
  destruct w as [? ? ? [wr rd] ? ? ? ? ? ? ? ?]; hub_cbn; subst; hub_cbn.
  rewrite Hc. destruct (json_Marshal message) as [data|e]; hub_cbn; [|reflexivity].
  rewrite Hch, Hopen. case_decide; reflexivity.
Qed.

End Registry.

(** ** The fan-out loops *)

Section Fanout.
Context `{RT : Runtime}.

Lemma users_loop_cons u rest data w :
  users_loop (u :: rest) data w = bind (push_one u data) (fun _ => users_loop rest data) w.
Proof. reflexivity. Qed.

Lemma group_loop_filter rows data exclude w :
  group_loop rows data exclude w = users_loop (filter (λ u, u ≠ exclude) rows) data w.
Proof.
  revert w. induction rows as [|u rows IH]; intros w; [reflexivity|].
  cbn [group_loop]. rewrite filter_cons. destruct (decide (u = exclude)) as [->|Hne].
  - rewrite decide_False by auto. apply IH.
  - rewrite decide_True by auto. rewrite users_loop_cons.
    change (bind (push_one u data) (fun _ => group_loop rows data exclude) w =
            bind (push_one u data) (fun _ => users_loop (filter (λ u, u ≠ exclude) rows) data) w).
    unfold bind. destruct (push_one u data w) as [a w1|p w1|w1|r w1] eqn:E; cbn [extend];
      [apply IH|reflexivity|reflexivity|destruct (sendless_push_one u data w r w1 E)].
Qed.

Lemma registry_wf_frame w w' :
  Clients w' = Clients w → chans w' = chans w → registry_wf w → registry_wf w'.
Proof. unfold registry_wf. intros -> ->. auto. Qed.

Lemma registry_wf_enqueue u c ch data w :
  registry_wf w → Clients w !! u = Some c → chans w !! Send c = Some ch →
  closed ch = false →
  registry_wf (set_chans (insert (Send c) (enqueue ch data)) w).
Proof.
  intros [Hopen Hinj] Hc Hch Hcl. split; hub_cbn; [|exact Hinj].
  intros u' c' Hc'. destruct (decide (Send c = Send c')) as [Heq|Hne].
  - rewrite <- Heq, lookup_insert_eq. eauto.
  - rewrite lookup_insert_ne by exact Hne. eauto.
Qed.

(** One turn, in a well-formed world. *)
Lemma push_one_wf u data w :
  registry_wf w →
  ∃ w1, push_one u data w = Ok tt w1 ∧ pushed_to [u] data w w1 ∧ registry_wf w1.
Proof.
  intros Hwf. unfold push_one. hub_unfold.
  destruct (Clients w !! u) as [c|] eqn:Hc.
  - destruct (proj1 Hwf u c Hc) as (ch & Hch & Hcl). rewrite Hch, Hcl.
    case_decide as Hroom.
    + eexists; split; [reflexivity|]. split; [|eapply registry_wf_enqueue; eassumption].
      repeat split; hub_cbn.
      * intros u' c' ch' Hu' Hc' Hch'. apply list_elem_of_singleton in Hu' as ->.
        assert (c' = c) as -> by congruence. assert (ch' = ch) as -> by congruence.
        rewrite decide_True by exact Hroom. apply lookup_insert_eq.
      * intros k Hk. apply lookup_insert_ne. apply (Hk u c); [|exact Hc].
        apply list_elem_of_singleton. reflexivity.
    + eexists; split; [reflexivity|].
      split; [|apply (registry_wf_frame w); [reflexivity|reflexivity|exact Hwf]].
      repeat split; hub_cbn.
      intros u' c' ch' Hu' Hc' Hch'. apply list_elem_of_singleton in Hu' as ->.
      assert (c' = c) as -> by congruence. assert (ch' = ch) as -> by congruence.
      rewrite decide_False by exact Hroom. exact Hch.
  - exists w. split; [reflexivity|]. split; [|exact Hwf].
    repeat split. intros u' c' ch' Hu' Hc' Hch'.
    apply list_elem_of_singleton in Hu' as ->. congruence.
Qed.

(** A turn for [u] followed by the turns for [rest]. *)
Lemma pushed_to_cons u rest data w w1 w' :
  registry_wf w → u ∉ rest →
  pushed_to [u] data w w1 → pushed_to rest data w1 w' →
  pushed_to (u :: rest) data w w'.
Proof.
  intros [Hopen Hinj] Hu (HC1 & Hmu1 & Hin1 & Hout1) (HC & Hmu & Hin & Hout).
  rewrite HC1 in *. repeat split; [congruence|congruence|..].
  - intros u' c' ch' Hu' Hc' Hch'. apply elem_of_cons in Hu' as [->|Hu'].
    + rewrite Hout.
      * apply (Hin1 u c' ch'); [apply list_elem_of_singleton; reflexivity|assumption..].
      * intros u2 c2 Hu2 Hc2 Heq. apply Hu.
        rewrite <- (Hinj u2 u c2 c' Hc2 Hc' Heq). exact Hu2.
    + assert (Hne : u' ≠ u) by (intros ->; contradiction).
      apply (Hin u' c' ch'); [assumption..|]. rewrite Hout1; [exact Hch'|].
      intros u2 c2 Hu2 Hc2 Heq. apply list_elem_of_singleton in Hu2 as ->.
      apply Hne. exact (Hinj u' u c' c2 Hc' Hc2 (eq_sym Heq)).
  - intros k Hk. rewrite Hout, Hout1; [reflexivity|..].
    + intros u2 c2 Hu2 Hc2. apply list_elem_of_singleton in Hu2 as ->.
      apply (Hk u c2); [left|exact Hc2].
    + intros u2 c2 Hu2 Hc2. apply (Hk u2 c2); [right; exact Hu2|exact Hc2].
Qed.

Lemma users_loop_wf data targets :
  NoDup targets → ∀ w, registry_wf w →
  ∃ w', users_loop targets data w = Ok tt w' ∧ pushed_to targets data w w' ∧ registry_wf w'.
Proof.
  induction 1 as [|u rest Hu Hnd IH]; intros w Hwf.
  - exists w. split; [reflexivity|]. split; [|exact Hwf]. repeat split.
    intros u c ch Hin. apply elem_of_nil in Hin as [].
  - destruct (push_one_wf u data w Hwf) as (w1 & Hrun1 & Hp1 & Hwf1).
    destruct (IH w1 Hwf1) as (w' & Hrun & Hp & Hwf').
    exists w'. rewrite users_loop_cons. unfold bind. rewrite Hrun1. cbn [extend].
    split; [exact Hrun|]. split; [|exact Hwf']. eapply pushed_to_cons; eassumption.
Qed.

(** *** The log the loops write *)

Lemma filter_ext_in {A} (P Q : A → Prop) `{∀ x, Decision (P x)} `{∀ x, Decision (Q x)}
    (l : list A) :
  (∀ x, x ∈ l → P x ↔ Q x) → filter P l = filter Q l.
Proof.
  induction l as [|a l IH]; intros Hl; [reflexivity|].
  rewrite !filter_cons.
  assert (Ha : P a ↔ Q a) by (apply Hl; left).
  rewrite IH by (intros x Hx; apply Hl; right; exact Hx).
  destruct (decide (P a)), (decide (Q a)); tauto.
Qed.

Lemma only_chans_and_logs_refl w : only_chans_and_logs w w.
Proof. unfold only_chans_and_logs. destruct w; reflexivity. Qed.

Lemma only_chans_and_logs_trans w1 w2 w3 :
  only_chans_and_logs w1 w2 → only_chans_and_logs w2 w3 → only_chans_and_logs w1 w3.
Proof.
  unfold only_chans_and_logs. intros H12 H23. rewrite H23 at 1. rewrite H12 at 1.
  destruct w1; reflexivity.
Qed.

Lemma not_ready_frame u w w' :
  Clients w' = Clients w →
  (∀ c, Clients w !! u = Some c → chans w' !! Send c = chans w !! Send c) →
  not_ready w' u = not_ready w u.
Proof.
  intros HC Hch. unfold not_ready. rewrite HC.
  destruct (Clients w !! u) as [c|] eqn:Hc; [|reflexivity]. rewrite (Hch c eq_refl). reflexivity.
Qed.

(** One turn, with the line it writes. *)
Lemma push_one_trace u data w :
  registry_wf w →
  ∃ w1, push_one u data w = Ok tt w1 ∧ pushed_to [u] data w w1 ∧ registry_wf w1 ∧
        only_chans_and_logs w w1 ∧
        logs w1 = logs w ++ (if not_ready w u then [LogSendFailed u] else []).
Proof.
  intros Hwf. destruct (push_one_wf u data w Hwf) as (w1 & Hrun & Hp & Hwf1).
  exists w1. split; [exact Hrun|]. split; [exact Hp|]. split; [exact Hwf1|].
  revert Hrun. unfold push_one, not_ready. hub_unfold.
  destruct (Clients w !! u) as [c|] eqn:Hc; cbn [extend].
  - destruct (proj1 Hwf u c Hc) as (ch & Hch & Hcl). rewrite Hch, Hcl.
    case_decide as Hroom; cbn [extend]; intros [= <-]; hub_cbn.
    + rewrite bool_decide_eq_false_2 by tauto. rewrite app_nil_r.
      split; [|reflexivity]. unfold only_chans_and_logs. destruct w; reflexivity.
    + rewrite bool_decide_eq_true_2 by exact Hroom.
      split; [|reflexivity]. unfold only_chans_and_logs. destruct w; reflexivity.
  - intros [= <-]. rewrite app_nil_r. split; [apply only_chans_and_logs_refl|reflexivity].
Qed.

Lemma users_loop_trace data targets :
  NoDup targets → ∀ w, registry_wf w →
  ∃ w', users_loop targets data w = Ok tt w' ∧ pushed_to targets data w w' ∧
        only_chans_and_logs w w' ∧ logs w' = logs w ++ skipped_lines w targets.
Proof.
  unfold skipped_lines.
  induction 1 as [|u rest Hu Hnd IH]; intros w Hwf.
  - exists w. split; [reflexivity|]. split; [|split].
    + repeat split. intros u c ch Hin. apply elem_of_nil in Hin as [].
    + apply only_chans_and_logs_refl.
    + cbn. rewrite app_nil_r. reflexivity.
  - destruct (push_one_trace u data w Hwf) as (w1 & Hrun1 & Hp1 & Hwf1 & Hf1 & Hl1).
    destruct (IH w1 Hwf1) as (w' & Hrun & Hp & Hf & Hl).
    exists w'. rewrite users_loop_cons. unfold bind. rewrite Hrun1. cbn [extend].
    split; [exact Hrun|]. split; [eapply pushed_to_cons; eassumption|].
    split; [eapply only_chans_and_logs_trans; eassumption|].
    rewrite Hl, Hl1, <- app_assoc. f_equal.
    assert (Hsame : filter (λ u0, not_ready w1 u0 = true) rest =
                    filter (λ u0, not_ready w u0 = true) rest).
    { apply filter_ext_in. intros u' Hu'.
      rewrite (not_ready_frame u' w w1); [reflexivity|exact (proj1 Hp1)|].
      intros c' Hc'. apply (proj2 (proj2 (proj2 Hp1))).
      intros u2 c2 Hu2 Hc2 Heq. apply list_elem_of_singleton in Hu2 as ->.
      apply Hu. rewrite (proj2 Hwf u u' c2 c' Hc2 Hc' Heq). exact Hu'. }
    rewrite Hsame, filter_cons.
    destruct (not_ready w u); [rewrite decide_True by reflexivity|
                               rewrite decide_False by discriminate]; reflexivity.
Qed.

(** The loop between [RLock] and the deferred [RUnlock], with its log. *)
Lemma users_loop_under_RLock_trace (body : M unit) data targets w :
  (∀ w0, body w0 = users_loop targets data w0) →
  writer (mu w) = false → NoDup targets → registry_wf w →
  ∃ w', bind mu_RLock (fun _ => defer mu_RUnlock body) w = Ok tt w' ∧
        pushed_to targets data w w' ∧
        only_chans_and_logs w w' ∧ logs w' = logs w ++ skipped_lines w targets.
Proof.
  intros Hbody Hmu Hnd Hwf. unfold bind, mu_RLock. rewrite Hmu. cbn [extend].
  set (w0 := set_mu _ w).
  assert (Hwf0 : registry_wf w0) by (apply (registry_wf_frame w); [reflexivity..|exact Hwf]).
  destruct (users_loop_trace data targets Hnd w0 Hwf0)
    as (w' & Hrun & (HC & Hm & Hin & Hout) & Hf & Hl).
  unfold defer. rewrite Hbody, Hrun. unfold mu_RUnlock, modify. cbn [extend].
  eexists; split; [reflexivity|]. subst w0. hub_cbn.
  split; [|split].
  - repeat split; hub_cbn; try assumption.
    rewrite Hm. destruct (mu w) as [wr rd]. hub_cbn. subst wr. reflexivity.
  - unfold only_chans_and_logs in *. hub_cbn. rewrite Hf at 1.
    destruct w as [? ? ? [wr rd] ? ? ? ? ? ? ? ?]. hub_cbn. subst wr. reflexivity.
  - exact Hl.
Qed.

(** The loop between [RLock] and the deferred [RUnlock]. *)
Lemma users_loop_under_RLock (body : M unit) data targets w :
  (∀ w0, body w0 = users_loop targets data w0) →
  writer (mu w) = false → NoDup targets → registry_wf w →
  ∃ w', bind mu_RLock (fun _ => defer mu_RUnlock body) w = Ok tt w' ∧
        pushed_to targets data w w'.
Proof.
  intros Hbody Hmu Hnd Hwf. unfold bind, mu_RLock. rewrite Hmu. cbn [extend].
  set (w0 := set_mu _ w).
  assert (Hwf0 : registry_wf w0) by (apply (registry_wf_frame w); [reflexivity..|exact Hwf]).
  destruct (users_loop_wf data targets Hnd w0 Hwf0) as (w' & Hrun & (HC & Hm & Hin & Hout) & _).
  unfold defer. rewrite Hbody, Hrun. unfold mu_RUnlock, modify. cbn [extend].
  eexists; split; [reflexivity|]. subst w0. hub_cbn.
  repeat split; hub_cbn; try assumption.
  rewrite Hm. destruct (mu w) as [wr rd]. hub_cbn. subst wr. reflexivity.
Qed.

(** *** What the loops can put into a buffer *)

Lemma only_pushes_same data w w' : chans w' = chans w → only_pushes data w w'.
Proof.
  intros Heq k. exists 0. rewrite Heq. destruct (chans w !! k) as [ch|]; cbn; [|reflexivity].
  rewrite app_nil_r. reflexivity.
Qed.

Lemma only_pushes_trans data w1 w2 w3 :
  only_pushes data w1 w2 → only_pushes data w2 w3 → only_pushes data w1 w3.
Proof.
  intros H12 H23 k. destruct (H12 k) as (n & Hn). destruct (H23 k) as (m & Hm).
  exists (n + m). rewrite Hm, Hn. destruct (chans w1 !! k) as [ch|]; cbn; [|reflexivity].
  rewrite replicate_add, app_assoc. reflexivity.
Qed.

Lemma only_pushes_enqueue data k ch w :
  chans w !! k = Some ch → only_pushes data w (set_chans (insert k (enqueue ch data)) w).
Proof.
  intros Hch k'. hub_cbn. destruct (decide (k = k')) as [<-|Hne].
  - exists 1. rewrite lookup_insert_eq, Hch. reflexivity.
  - exists 0. rewrite lookup_insert_ne by exact Hne.
    destruct (chans w !! k') as [ch'|]; cbn; [|reflexivity]. rewrite app_nil_r. reflexivity.
Qed.

Lemma push_one_only_pushes u data w : only_pushes data w (final (push_one u data w)).
Proof.
  unfold push_one. hub_unfold. destruct (Clients w !! u) as [c|]; hub_cbn.
  - destruct (chans w !! Send c) as [ch|] eqn:Hch; hub_cbn.
    + destruct (closed ch); hub_cbn; [apply only_pushes_same; reflexivity|].
      case_decide; hub_cbn; [apply only_pushes_enqueue; exact Hch|].
      apply only_pushes_same; reflexivity.
    + apply only_pushes_same; reflexivity.
  - apply only_pushes_same; reflexivity.
Qed.

Lemma users_loop_only_pushes data targets w :
  only_pushes data w (final (users_loop targets data w)).
Proof.
  revert w. induction targets as [|u rest IH]; intros w.
  - apply only_pushes_same; reflexivity.
  - rewrite users_loop_cons. unfold bind.
    pose proof (push_one_only_pushes u data w) as H1.
    destruct (push_one u data w) as [[] w1|k w1|w1|r w1]; hub_cbn; [|exact H1..].
    eapply only_pushes_trans; [exact H1|apply IH].
Qed.

Lemma under_RLock_only_pushes (body : M unit) data w :
  (∀ w0, only_pushes data w0 (final (body w0))) →
  only_pushes data w (final (bind mu_RLock (fun _ => defer mu_RUnlock body) w)).
Proof.
  intros Hbody. unfold bind, mu_RLock.
  destruct (writer (mu w)); cbn [extend]; [apply only_pushes_same; reflexivity|].
  set (w0 := set_mu _ w). pose proof (Hbody w0) as H0.
  assert (H00 : only_pushes data w w0) by (apply only_pushes_same; reflexivity).
  unfold defer, mu_RUnlock, modify.
  destruct (body w0) as [a w1|k w1|w1|r w1]; hub_cbn;
    eapply only_pushes_trans; try exact H00;
    (eapply only_pushes_trans; [exact H0|apply only_pushes_same; reflexivity]).
Qed.

Lemma BroadcastToUsers_sends_only userIDs message w :
  sends_only message w (final (BroadcastToUsers userIDs message w)).
Proof.
  unfold sends_only, BroadcastToUsers. destruct (json_Marshal message) as [data|e].
  - apply under_RLock_only_pushes. intros w0. apply users_loop_only_pushes.
  - intros k. reflexivity.
Qed.

Lemma BroadcastToGroup_sends_only groupID message exclude w :
  sends_only message w (final (BroadcastToGroup groupID message exclude w)).
Proof.
  unfold sends_only, BroadcastToGroup.
  destruct (json_Marshal message) as [data|e]; unfold bind at 1; unfold db_query_members;
    destruct (db_up w); cbn [extend];
    try (intros k; reflexivity); try (apply only_pushes_same; reflexivity).
  apply under_RLock_only_pushes. intros w0. rewrite group_loop_filter.
  apply users_loop_only_pushes.
Qed.

Lemma sends_only_after_tick message w w' :
  sends_only message (set_clock tick w) w' → sends_only message w w'.
Proof. unfold sends_only. destruct (json_Marshal message); auto. Qed.

(** *** The typing relay *)

Lemma handleTypingStart_sends_only c payload w :
  sends_only
    (mkWSMessage EventTypingStart
       (PTyping (mkTypingPayload (ID c) (string_field payload "chatId")
                                 (string_field payload "groupId") "")) (clock w))
    w (final (handleTypingStart c payload w)).
Proof.
  unfold handleTypingStart, bind, time_Now. cbn [extend]. apply sends_only_after_tick.
  case_decide; [apply BroadcastToGroup_sends_only|].
  case_decide; [apply BroadcastToUsers_sends_only|].
  unfold sends_only. case_match; [apply only_pushes_same|intros k]; reflexivity.
Qed.

Lemma handleTypingStop_sends_only c payload w :
  sends_only
    (mkWSMessage EventTypingStop
       (PTyping (mkTypingPayload (ID c) (string_field payload "chatId")
                                 (string_field payload "groupId") "")) (clock w))
    w (final (handleTypingStop c payload w)).
Proof.
  unfold handleTypingStop, bind, time_Now. cbn [extend]. apply sends_only_after_tick.
  case_decide; [apply BroadcastToGroup_sends_only|].
  case_decide; [apply BroadcastToUsers_sends_only|].
  unfold sends_only. case_match; [apply only_pushes_same|intros k]; reflexivity.
Qed.

Lemma typing_reads_two_keys (p1 p2 : gmap string jvalue) :
  p1 !! "chatId" = p2 !! "chatId" → p1 !! "groupId" = p2 !! "groupId" →
  string_field p1 "chatId" = string_field p2 "chatId" ∧
  string_field p1 "groupId" = string_field p2 "groupId".
Proof. unfold string_field. intros -> ->. split; reflexivity. Qed.

(** A direct typing-start to a peer whose buffer has room. *)
Lemma handleTypingStart_direct c peer cP chP data w :
  writer (mu w) = false → peer ≠ "" →
  Clients w !! peer = Some cP → chans w !! Send cP = Some chP →
  closed chP = false → length (buf chP) < cap chP →
  json_Marshal (mkWSMessage EventTypingStart
                  (PTyping (mkTypingPayload (ID c) peer "" "")) (clock w)) = inl data →
  ∃ w', handleTypingStart c {["chatId" := JString peer]} w = Ok tt w' ∧
        Clients w' = Clients w ∧
        chans w' = <[Send cP := enqueue chP data]> (chans w).
Proof.
  intros Hmu Hpeer Hc Hch Hcl Hroom Hm. unfold handleTypingStart, string_field.
  rewrite lookup_singleton_eq, lookup_singleton_ne by discriminate.
  unfold bind at 1. unfold time_Now. cbn [extend].
  rewrite decide_False by auto. rewrite decide_True by exact Hpeer.
  unfold BroadcastToUsers. rewrite Hm.
  cbn [users_loop]. hub_unfold.
  destruct w as [? ? ? [wr rd] ? ? ? ? ? ? ? ?]; hub_cbn; subst; hub_cbn.
  rewrite Hc; hub_cbn. rewrite Hch, Hcl. rewrite decide_True by exact Hroom. hub_cbn.
  eexists; split; [reflexivity|]. split; reflexivity.
Qed.

End Fanout.

(** ** The claims *)

Section Claims.
Context `{RT : Runtime}.

(** C1 (as the code has it).  [unregisterClient] looks the user id up and
    never compares the entry with the client it was given: called for a
    client [c1] whose slot already holds a newer client [c2], it deletes
    the newer client's entry all the same, and then closes [c1]'s channel
    a second time (the registration of [c2] closed it), which panics. *)
Theorem unregister_stale_removes_newer (c1 c2 : Client) (ch1 : Chan) (w : World) :
  mu w = mu_free → Clients w !! ID c1 = Some c2 → c2 ≠ c1 →
  chans w !! Send c1 = Some ch1 → closed ch1 = true →
  ∃ w', unregisterClient c1 w = Panic CloseOfClosedChannel w' ∧
        Clients w' !! ID c1 = None.
Proof.
  intros Hmu Hc _ Hch Hcl.
  rewrite (unregisterClient_closed c1 c2 ch1 w Hmu Hc Hch Hcl).
  eexists; split; [reflexivity|]. cbn. apply lookup_delete_eq.
Qed.

(** C2 (as the code has it).  With its buffer full, [SendMessage] closes
    the client's channel and sends the client to the hub, where it waits
    with [return nil] left to do; the hub's [Run] receives the client and
    its [unregisterClient] closes the same channel again: the hub's run
    ends in the panic "close of closed channel". *)
Theorem overflow_then_unregister_closes_twice
    (c : Client) (ch : Chan) (msg : WSMessage) (data : bytes) (w : World) :
  mu w = mu_free → Clients w !! ID c = Some c → Unregister w = [] →
  chans w !! Send c = Some ch → closed ch = false → full ch →
  json_Marshal msg = inl data →
  ∃ w1 w2, SendMessage c msg w = Sending (λ w', Ok None w') w1 ∧
           Unregister w1 = [c] ∧
           chans w1 !! Send c = Some (mkChan (buf ch) (cap ch) true) ∧
           Run_iter RecvUnregister w1 = Panic CloseOfClosedChannel w2.
Proof.
  intros Hmu Hc Hq Hch Hopen Hfull Hm.
  rewrite (SendMessage_full c msg data ch w Hm Hch Hopen Hfull).
  eexists; eexists; split; [reflexivity|]. hub_cbn. rewrite Hq.
  split; [reflexivity|]. split; [apply lookup_insert_eq|].
  erewrite Run_iter_unregister by (hub_cbn; rewrite Hq; reflexivity).
  erewrite unregisterClient_closed; [reflexivity| | |apply lookup_insert_eq|reflexivity];
    hub_cbn; eassumption.
Qed.

(** C3.  Registering [c2] for a user id whose slot holds an active client
    [c1] (its channel open) leaves the registry as it was but for that one
    slot, which now holds [c2], so still one entry for the user; and
    [c1]'s channel is closed, its buffer as it was.  The call itself
    returns, or is parked inside the presence broadcast when the user has
    contact rows. *)
Theorem register_second_replaces_first (c1 c2 : Client) (ch1 : Chan) (w : World) :
  mu w = mu_free → Clients w !! ID c2 = Some c1 →
  chans w !! Send c1 = Some ch1 → closed ch1 = false →
  ∃ w', (registerClient c2 w = Ok tt w' ∨ registerClient c2 w = Blocked w') ∧
        Clients w' !! ID c2 = Some c2 ∧
        (∀ u, u ≠ ID c2 → Clients w' !! u = Clients w !! u) ∧
        size (Clients w') = size (Clients w) ∧
        chans w' !! Send c1 = Some (mkChan (buf ch1) (cap ch1) true).
Proof.
  intros Hmu Hc Hch Hopen.
  destruct (registerClient_replace c2 c1 ch1 w Hmu Hc Hch Hopen) as (w' & HC & Hchs & Hrun).
  exists w'. split; [destruct Hrun as [(?&_)|(?&_)]; auto|].
  rewrite HC, Hchs. split; [apply lookup_insert_eq|].
  split; [intros u Hu; apply lookup_insert_ne; congruence|].
  split; [apply map_size_insert_Some; eauto|apply lookup_insert_eq].
Qed.

(** C5.  Once [unregisterClient c] has returned, a second call for the
    same client returns with the world exactly as the first call left it:
    registry, channels, store and all. *)
Theorem unregister_twice_noop (c : Client) (w w' : World) :
  unregisterClient c w = Ok tt w' → unregisterClient c w' = Ok tt w'.
Proof.
  intros Hrun. destruct (decide (mu w = mu_free)) as [Hmu|Hmu].
  - destruct (Clients w !! ID c) as [e|] eqn:Hc.
    + destruct (chans w !! Send c) as [ch|] eqn:Hch.
      * destruct (closed ch) eqn:Hcl.
        -- rewrite (unregisterClient_closed c e ch w) in Hrun by assumption. discriminate.
        -- destruct (unregisterClient_present c e ch w Hmu Hc Hch Hcl)
             as (w'' & HC & _ & _ & _ & [(Hr & Hmu' & _)|(Hr & _)]);
             rewrite Hr in Hrun; [|discriminate].
           injection Hrun as <-. apply unregisterClient_absent; [exact Hmu'|].
           rewrite HC. apply lookup_delete_eq.
      * rewrite (unregisterClient_nil c e w) in Hrun by assumption. discriminate.
    + rewrite (unregisterClient_absent c w Hmu Hc) in Hrun. injection Hrun as <-.
      apply unregisterClient_absent; assumption.
  - rewrite (unregisterClient_busy c w Hmu) in Hrun. discriminate.
Qed.

(** C8 (as the code has it).  [registerClient] and [unregisterClient] call
    [broadcastPresence] while they hold the hub's write lock, and
    [broadcastPresence] takes the read lock of the same mutex for each
    contact row: with the store up, the envelope serializable and at
    least one contact row, the call parks on that lock with no buffer
    touched, so no contact receives the presence event. *)
Theorem presence_parks_on_own_lock (client : Client) (w : World) :
  mu w = mu_free → db_up w = true →
  contacts_of (ID client) (contacts w) ≠ [] →
  (∀ b t ts, ∃ data, json_Marshal (presence_event (ID client) b t ts) = inl data) →
  (∀ e, Clients w !! ID client = Some e →
        ∃ ch, chans w !! Send e = Some ch ∧ closed ch = false) →
  (∃ w', registerClient client w = Blocked w' ∧ buffers_untouched w w') ∧
  (Clients w !! ID client = Some client →
   ∃ w', unregisterClient client w = Blocked w' ∧ buffers_untouched w w').
Proof.
  intros Hmu Hdb Hrows Hm Hreg.
  assert (Hns : ∀ b, ¬ presence_skipped (ID client) b w).
  { intros b [Hd|[Hr|(t & ts & e & He)]]; [congruence|contradiction|].
    destruct (Hm b t ts) as (d & Hd). congruence. }
  split.
  - destruct (Clients w !! ID client) as [e|] eqn:Hc.
    + destruct (Hreg e eq_refl) as (ch & Hch & Hopen).
      destruct (registerClient_replace client e ch w Hmu Hc Hch Hopen)
        as (w' & _ & Hchs & [(_ & _ & Hs)|(Hr & _)]); [destruct (Hns _ Hs)|].
      exists w'. split; [exact Hr|]. eapply buffers_untouched_close; eassumption.
    + destruct (registerClient_fresh client w Hmu Hc)
        as (w' & _ & Hchs & [(_ & _ & Hs)|(Hr & _)]); [destruct (Hns _ Hs)|].
      exists w'. split; [exact Hr|]. intros k. rewrite Hchs. reflexivity.
  - intros Hc. destruct (Hreg client Hc) as (ch & Hch & Hopen).
    destruct (unregisterClient_present client client ch w Hmu Hc Hch Hopen)
      as (w' & _ & Hchs & _ & _ & [(_ & _ & Hs)|(Hr & _)]); [destruct (Hns _ Hs)|].
    exists w'. split; [exact Hr|]. eapply buffers_untouched_close; eassumption.
Qed.

(** C4 (amended).  With the read lock to be had and the user's client,
    if there is one, holding an open channel, [BroadcastToUser] returns;
    it puts the serialized event at the end of the user's buffer exactly
    when the user is registered, the event serializes and the buffer has
    room; with the buffer full, or the event not serializing, the event
    is dropped and the world is as it was but for one line in the log; no
    other channel changes; and with the user absent the world is left as
    it was. *)
Theorem BroadcastToUser_delivers_iff_room (userID : string) (message : WSMessage) (w : World) :
  writer (mu w) = false →
  (∀ client, Clients w !! userID = Some client →
             ∃ ch, chans w !! Send client = Some ch ∧ closed ch = false) →
  (∀ client ch, Clients w !! userID = Some client → chans w !! Send client = Some ch →
     BroadcastToUser userID message w =
       Ok tt match json_Marshal message with
             | inl data =>
                 if decide (length (buf ch) < cap ch)
                 then set_chans (insert (Send client) (enqueue ch data)) w
                 else set_logs (λ ls, ls ++ [LogSendFailed userID]) w
             | inr _ => set_logs (λ ls, ls ++ [LogMarshalFailed]) w
             end) ∧
  (∃ w', BroadcastToUser userID message w = Ok tt w' ∧ Clients w' = Clients w ∧
         ∀ client k, Clients w !! userID = Some client → k ≠ Send client →
                     chans w' !! k = chans w !! k) ∧
  (user_receives userID message w ↔
   ∃ client ch data, Clients w !! userID = Some client ∧
                     chans w !! Send client = Some ch ∧
                     json_Marshal message = inl data ∧ length (buf ch) < cap ch) ∧
  (Clients w !! userID = None → BroadcastToUser userID message w = Ok tt w).
Proof.
  intros Hmu Hopen.
  split; [|split; [|split; [|intros Hc; apply BroadcastToUser_absent; assumption]]].
  - intros client ch Hc Hch. destruct (Hopen client Hc) as (ch' & Hch' & Hcl).
    assert (ch' = ch) as -> by congruence.
    apply BroadcastToUser_present; assumption.
  - destruct (Clients w !! userID) as [client|] eqn:Hc.
    + destruct (Hopen client eq_refl) as (ch & Hch & Hcl).
      rewrite (BroadcastToUser_present userID message client ch w Hmu Hc Hch Hcl).
      eexists; split; [reflexivity|].
      destruct (json_Marshal message) as [data|e]; [case_decide|]; hub_cbn;
        (split; [reflexivity|]); intros c' k Hc' Hk; try reflexivity.
      injection Hc' as <-. apply lookup_insert_ne. congruence.
    + rewrite (BroadcastToUser_absent userID message w Hmu Hc).
      eexists; split; [reflexivity|]. split; [reflexivity|]. discriminate.
  - split.
    + intros (client & ch & data & w' & Hc & Hch & Hm & Hrun & Hbuf).
      exists client, ch, data. repeat split; try assumption.
      destruct (Hopen client Hc) as (ch' & Hch' & Hcl).
      assert (ch' = ch) as -> by congruence.
      rewrite (BroadcastToUser_present userID message client ch w Hmu Hc Hch Hcl), Hm in Hrun.
      case_decide; [assumption|]. injection Hrun as <-. hub_cbn.
      rewrite Hch in Hbuf. cbn in Hbuf. injection Hbuf as Hbuf.
      apply (f_equal length) in Hbuf. rewrite length_app in Hbuf. cbn in Hbuf. lia.
    + intros (client & ch & data & Hc & Hch & Hm & Hroom).
      destruct (Hopen client Hc) as (ch' & Hch' & Hcl).
      assert (ch' = ch) as -> by congruence.
      exists client, ch, data. eexists. repeat split; try eassumption.
      * rewrite (BroadcastToUser_present userID message client ch w Hmu Hc Hch Hcl), Hm.
        rewrite decide_True by assumption. reflexivity.
      * hub_cbn. rewrite lookup_insert_eq. reflexivity.
Qed.

(** C6 (amended).  With the store up, the read lock to be had, the
    event serializable, the registry well-formed (every registered client
    has an open channel that no other user's client shares) and the
    group's member rows distinct, [BroadcastToGroup] returns; the channel
    of a registered client took the serialized event exactly when its
    user is a member of the group, is not the excluded id and the buffer
    had room; every other channel, registered or not, is as it was; the
    log got one line for each member but the excluded id whose buffer was
    full, in the order of the rows; and nothing else changed. *)
Theorem BroadcastToGroup_delivers_where_room
    (groupID : string) (message : WSMessage) (excludeUserID : string)
    (data : bytes) (w : World) :
  db_up w = true → writer (mu w) = false → json_Marshal message = inl data →
  registry_wf w → NoDup (members_of groupID (group_members w)) →
  ∃ w', BroadcastToGroup groupID message excludeUserID w = Ok tt w' ∧
        Clients w' = Clients w ∧
        (∀ u client ch, Clients w !! u = Some client → chans w !! Send client = Some ch →
           chans w' !! Send client =
             Some (if decide (u ∈ members_of groupID (group_members w) ∧
                              u ≠ excludeUserID ∧ length (buf ch) < cap ch)
                   then enqueue ch data else ch)) ∧
        (∀ k, (∀ u client, Clients w !! u = Some client → Send client ≠ k) →
              chans w' !! k = chans w !! k) ∧
        logs w' = logs w ++
                  skipped_lines w (filter (λ u, u ≠ excludeUserID)
                                          (members_of groupID (group_members w))) ∧
        only_chans_and_logs w w'.
Proof.
  intros Hdb Hmu Hm Hwf Hnd.
  unfold BroadcastToGroup. unfold bind at 1. unfold db_query_members. rewrite Hdb, Hm.
  cbn [extend].
  set (rows := members_of groupID (group_members w)) in *.
  destruct (users_loop_under_RLock_trace (group_loop rows data excludeUserID) data
              (filter (λ u, u ≠ excludeUserID) rows) w)
    as (w' & Hrun & (HC & _ & Hin & Hout) & Hf & Hl);
    [intros w0; apply group_loop_filter|exact Hmu|apply NoDup_filter; exact Hnd|exact Hwf|].
  exists w'. split; [exact Hrun|]. split; [exact HC|].
  split; [|split; [|split; [exact Hl|exact Hf]]].
  - intros u client ch Hc Hch.
    destruct (decide (u ∈ rows ∧ u ≠ excludeUserID)) as [[Hin' Hne]|Hnot].
    + rewrite (Hin u client ch); [|apply list_elem_of_filter; auto|exact Hc|exact Hch].
      f_equal. repeat case_decide; tauto.
    + rewrite Hout.
      * rewrite decide_False by tauto. exact Hch.
      * intros u2 c2 Hu2 Hc2 Heq. apply list_elem_of_filter in Hu2 as [Hne2 Hin2].
        apply Hnot. rewrite <- (proj2 Hwf u2 u c2 client Hc2 Hc Heq). auto.
  - intros k Hk. apply Hout. intros u2 c2 _ Hc2. exact (Hk u2 c2 Hc2).
Qed.

(** C7.  A data frame that does not decode, and a frame whose type is
    neither [typing_start] nor [typing_stop], costs one log line and
    nothing else: no hub call, no channel written, nothing queued for the
    hub, the connection as it was; and the loop goes on to the next
    frame. *)
Theorem unknown_or_malformed_frame_ignored (c : Client) (message : bytes) (w : World) :
  ((∃ e, json_Unmarshal message = inr e) ∨
   (∃ incoming, json_Unmarshal message = inl incoming ∧
                in_Type incoming ≠ EventTypingStart ∧ in_Type incoming ≠ EventTypingStop)) →
  ∃ l, ReadPump_body c (inl message) w = Ok true (set_logs (λ ls, ls ++ [l]) w) ∧
       ∀ rest, ReadPump_loop c (ReadFrame message :: rest) w =
               ReadPump_loop c rest (set_logs (λ ls, ls ++ [l]) w).
Proof.
  intros [(e & He)|(incoming & Hi & Hstart & Hstop)].
  - exists LogParseFailed.
    assert (Hb : ReadPump_body c (inl message) w =
                 Ok true (set_logs (λ ls, ls ++ [LogParseFailed]) w)).
    { unfold ReadPump_body. rewrite He. reflexivity. }
    split; [exact Hb|]. intros rest. cbn [ReadPump_loop]. unfold bind at 1.
    rewrite Hb. reflexivity.
  - exists (LogUnknownType (in_Type incoming)).
    assert (Hb : ReadPump_body c (inl message) w =
                 Ok true (set_logs (λ ls, ls ++ [LogUnknownType (in_Type incoming)]) w)).
    { unfold ReadPump_body, handleIncomingMessage. rewrite Hi.
      rewrite !decide_False by assumption. reflexivity. }
    split; [exact Hb|]. intros rest. cbn [ReadPump_loop]. unfold bind at 1.
    rewrite Hb. reflexivity.
Qed.

(** C9.  The typing relay reads the frame's payload at ["chatId"] and
    ["groupId"] and nowhere else, so two payloads that agree there (they
    may differ in any user id the wire supplies) are relayed alike; what
    it puts into buffers is nothing but the serialization of a typing
    envelope whose user id is the client's own; and a typing-start that
    names a registered peer whose buffer has room puts exactly that one
    envelope at the end of the peer's buffer and touches no other. *)
Theorem typing_user_id_is_own (c : Client) :
  (∀ (p1 p2 : gmap string jvalue) w,
     p1 !! "chatId" = p2 !! "chatId" → p1 !! "groupId" = p2 !! "groupId" →
     handleTypingStart c p1 w = handleTypingStart c p2 w ∧
     handleTypingStop c p1 w = handleTypingStop c p2 w) ∧
  (∀ payload w, ∃ chatID groupID ts,
     sends_only (mkWSMessage EventTypingStart
                   (PTyping (mkTypingPayload (ID c) chatID groupID "")) ts)
                w (final (handleTypingStart c payload w)) ∧
     sends_only (mkWSMessage EventTypingStop
                   (PTyping (mkTypingPayload (ID c) chatID groupID "")) ts)
                w (final (handleTypingStop c payload w))) ∧
  (∀ peer cP chP data w,
     writer (mu w) = false → peer ≠ "" →
     Clients w !! peer = Some cP → chans w !! Send cP = Some chP →
     closed chP = false → length (buf chP) < cap chP →
     json_Marshal (mkWSMessage EventTypingStart
                     (PTyping (mkTypingPayload (ID c) peer "" "")) (clock w)) = inl data →
     ∃ w', handleTypingStart c {["chatId" := JString peer]} w = Ok tt w' ∧
           Clients w' = Clients w ∧
           chans w' = <[Send cP := enqueue chP data]> (chans w)).
Proof.
  split; [|split].
  - intros p1 p2 w Hchat Hgroup.
    destruct (typing_reads_two_keys p1 p2 Hchat Hgroup) as [E1 E2].
    unfold handleTypingStart, handleTypingStop. rewrite E1, E2. split; reflexivity.
  - intros payload w. eexists _, _, _. split.
    + apply handleTypingStart_sends_only.
    + apply handleTypingStop_sends_only.
  - intros peer cP chP data w. apply handleTypingStart_direct.
Qed.


End Claims.

(** ** Beyond the claims: the rest of hub.go *)

Section Queries.
Context `{RT : Runtime}.

(** *** The read-only queries *)

Lemma IsUserOnline_run userID w :
  writer (mu w) = false →
  IsUserOnline userID w = Ok (bool_decide (is_Some (Clients w !! userID))) w.
Proof.
  intros Hmu. unfold IsUserOnline. hub_unfold.
  destruct w as [? ? ? [wr rd] ? ? ? ? ? ? ? ?]; hub_cbn; subst; reflexivity.
Qed.

Lemma GetOnlineUsers_run w :
  writer (mu w) = false → GetOnlineUsers w = Ok ((map_to_list (Clients w)).*1) w.
Proof.
  intros Hmu. unfold GetOnlineUsers. hub_unfold.
  destruct w as [? ? ? [wr rd] ? ? ? ? ? ? ? ?]; hub_cbn; subst; reflexivity.
Qed.

Lemma GetOnlineCount_run w :
  writer (mu w) = false → GetOnlineCount w = Ok (size (Clients w)) w.
Proof.
  intros Hmu. unfold GetOnlineCount. hub_unfold.
  destruct w as [? ? ? [wr rd] ? ? ? ? ? ? ? ?]; hub_cbn; subst; reflexivity.
Qed.

(** *** What a call that returned, or parked, has done to the lock and
    the registry *)

Lemma registerClient_inv client w :
  match registerClient client w with
  | Ok _ w' => mu w' = mu_free ∧ Clients w' = <[ID client := client]> (Clients w)
  | Blocked w' => mu w = mu_free → mu w' = mkRWMutex true 0
  | Panic _ _ | Sending _ _ => True
  end.
Proof.
  destruct (decide (mu w = mu_free)) as [Hmu|Hmu].
  - destruct (Clients w !! ID client) as [e|] eqn:Hc.
    + destruct (chans w !! Send e) as [ch|] eqn:Hch.
      * destruct (closed ch) eqn:Hcl.
        -- unfold registerClient. hub_unfold. open_world w.
           rewrite Hc; hub_cbn. rewrite Hch, Hcl. exact I.
        -- revert Hc Hch Hcl. unfold registerClient. hub_unfold. open_world w.
           intros Hc Hch Hcl. rewrite Hc; hub_cbn. rewrite Hch, Hcl; hub_cbn.
           destruct db_up0; hub_cbn;
             (let w' := fresh "w'" in let Hs := fresh "Hs" in let Hr := fresh "Hr" in
              presence_locked broadcastPresence_locked w' Hs Hr;
              destruct Hr as [(Hr&_)|(Hr&_)]; rewrite Hr; hub_cbn;
              [split; [|assumption];
               match goal with Hm : mu _ = _ |- _ => rewrite Hm end; reflexivity
              |intros _; assumption]).
      * unfold registerClient. hub_unfold. open_world w.
        rewrite Hc; hub_cbn. rewrite Hch. exact I.
    + revert Hc. unfold registerClient. hub_unfold. open_world w.
      intros Hc. rewrite Hc; hub_cbn.
      destruct db_up0; hub_cbn;
        (let w' := fresh "w'" in let Hs := fresh "Hs" in let Hr := fresh "Hr" in
         presence_locked broadcastPresence_locked w' Hs Hr;
         destruct Hr as [(Hr&_)|(Hr&_)]; rewrite Hr; hub_cbn;
         [split; [|assumption];
          match goal with Hm : mu _ = _ |- _ => rewrite Hm end; reflexivity
         |intros _; assumption]).
  - unfold registerClient. hub_unfold.
    destruct (mu w) as [[] [|n]] eqn:E; hub_cbn; intros; contradiction.
Qed.

Lemma unregisterClient_inv c w :
  match unregisterClient c w with
  | Ok _ w' => mu w' = mu_free ∧ Clients w' = delete (ID c) (Clients w)
  | Blocked w' => mu w = mu_free → mu w' = mkRWMutex true 0
  | Panic _ _ | Sending _ _ => True
  end.
Proof.
  destruct (decide (mu w = mu_free)) as [Hmu|Hmu].
  - destruct (Clients w !! ID c) as [e|] eqn:Hc.
    + destruct (chans w !! Send c) as [ch|] eqn:Hch.
      * destruct (closed ch) eqn:Hcl.
        -- rewrite (unregisterClient_closed c e ch w) by assumption. exact I.
        -- revert Hc Hch Hcl. unfold unregisterClient. hub_unfold. open_world w.
           intros Hc Hch Hcl. rewrite Hc; hub_cbn. rewrite Hch, Hcl; hub_cbn.
           destruct db_up0; hub_cbn;
             (let w' := fresh "w'" in let Hs := fresh "Hs" in let Hr := fresh "Hr" in
              presence_locked broadcastPresence_locked w' Hs Hr;
              destruct Hr as [(Hr&_)|(Hr&_)]; rewrite Hr; hub_cbn;
              [split; [|assumption];
               match goal with Hm : mu _ = _ |- _ => rewrite Hm end; reflexivity
              |intros _; assumption]).
      * rewrite (unregisterClient_nil c e w) by assumption. exact I.
    + rewrite (unregisterClient_absent c w Hmu Hc). split; [exact Hmu|].
      symmetry. apply delete_id. exact Hc.
  - rewrite (unregisterClient_busy c w Hmu). intros; contradiction.
Qed.

(** X1.  [IsUserOnline] follows registration: once [registerClient c] has
    returned the user is reported online, once [unregisterClient c] has
    returned the user is reported offline, and the query itself changes
    nothing. *)
Theorem IsUserOnline_tracks_registration (c : Client) (w w' : World) :
  (registerClient c w = Ok tt w' → IsUserOnline (ID c) w' = Ok true w') ∧
  (unregisterClient c w = Ok tt w' → IsUserOnline (ID c) w' = Ok false w').
Proof.
  split; intros Hrun.
  - pose proof (registerClient_inv c w) as Hinv. rewrite Hrun in Hinv.
    destruct Hinv as [Hmu HC]. rewrite IsUserOnline_run by (rewrite Hmu; reflexivity).
    rewrite HC, lookup_insert_eq. reflexivity.
  - pose proof (unregisterClient_inv c w) as Hinv. rewrite Hrun in Hinv.
    destruct Hinv as [Hmu HC]. rewrite IsUserOnline_run by (rewrite Hmu; reflexivity).
    rewrite HC, lookup_delete_eq. reflexivity.
Qed.

(** X2.  The three snapshots agree: [GetOnlineUsers] lists each registered
    user id once and no other, [GetOnlineCount] is the length of that
    list, [IsUserOnline] says yes exactly for its members; none of the
    three changes the world. *)
Theorem online_snapshots_agree (w : World) :
  writer (mu w) = false →
  ∃ l, GetOnlineUsers w = Ok l w ∧ NoDup l ∧
       GetOnlineCount w = Ok (length l) w ∧
       ∀ u, u ∈ l ↔ IsUserOnline u w = Ok true w.
Proof.
  intros Hmu. exists ((map_to_list (Clients w)).*1).
  split; [apply GetOnlineUsers_run; exact Hmu|].
  split; [apply NoDup_fst_map_to_list|].
  split.
  - rewrite GetOnlineCount_run by exact Hmu.
    rewrite length_fmap, length_map_to_list. reflexivity.
  - intros u. rewrite IsUserOnline_run by exact Hmu. split.
    + intros Hin. apply list_elem_of_fmap in Hin as ([u' c] & -> & Hin).
      apply elem_of_map_to_list in Hin. cbn. rewrite bool_decide_eq_true_2; eauto.
    + intros Hrun. injection Hrun as Hb. apply bool_decide_eq_true_1 in Hb as [c Hc].
      apply list_elem_of_fmap. exists (u, c). split; [reflexivity|].
      apply elem_of_map_to_list. exact Hc.
Qed.

(** X3.  Once [registerClient] or [unregisterClient] has parked inside the
    presence broadcast, the write lock stays held: every later hub call
    that takes the lock parks as well, queries, broadcasts and the next
    registration or unregistration alike. *)
Theorem parked_hub_blocks_every_call (client : Client) (w w' : World) :
  mu w = mu_free →
  registerClient client w = Blocked w' ∨ unregisterClient client w = Blocked w' →
  (∀ u, IsUserOnline u w' = Blocked w') ∧
  GetOnlineUsers w' = Blocked w' ∧
  GetOnlineCount w' = Blocked w' ∧
  (∀ u m, BroadcastToUser u m w' = Blocked w') ∧
  (∀ l m data, json_Marshal m = inl data → BroadcastToUsers l m w' = Blocked w') ∧
  (∀ c, registerClient c w' = Blocked w' ∧ unregisterClient c w' = Blocked w').
Proof.
  intros Hmu Hrun.
  assert (Hlock : mu w' = mkRWMutex true 0).
  { destruct Hrun as [Hrun|Hrun].
    - pose proof (registerClient_inv client w) as Hinv. rewrite Hrun in Hinv. auto.
    - pose proof (unregisterClient_inv client w) as Hinv. rewrite Hrun in Hinv. auto. }
  repeat split; intros.
  - unfold IsUserOnline, bind, mu_RLock. rewrite Hlock. reflexivity.
  - unfold GetOnlineUsers, bind, mu_RLock. rewrite Hlock. reflexivity.
  - unfold GetOnlineCount, bind, mu_RLock. rewrite Hlock. reflexivity.
  - unfold BroadcastToUser, bind, mu_RLock. rewrite Hlock. reflexivity.
  - unfold BroadcastToUsers. rewrite H. unfold bind, mu_RLock. rewrite Hlock. reflexivity.
  - unfold registerClient, bind, mu_Lock. rewrite Hlock. reflexivity.
  - unfold unregisterClient, bind, mu_Lock. rewrite Hlock. reflexivity.
Qed.

(** *** The three broadcasts against each other *)

(** X4.  For an event that serializes, [BroadcastToUsers] with a single
    id and [BroadcastToUser] for that id are the same call: same outcome,
    same world. *)
Theorem BroadcastToUsers_singleton (u : string) (m : WSMessage) (data : bytes) (w : World) :
  json_Marshal m = inl data →
  BroadcastToUsers [u] m w = BroadcastToUser u m w.
Proof.
  intros Hm. unfold BroadcastToUsers, BroadcastToUser. rewrite Hm.
  cbn [users_loop]. hub_unfold. destruct (writer (mu w)); [reflexivity|]. hub_cbn.
  destruct (Clients w !! u) as [c|]; [|reflexivity]. hub_cbn.
  destruct (chans w !! Send c) as [c0|]; [|reflexivity].
  destruct (closed c0); [reflexivity|]. case_decide; reflexivity.
Qed.

(** X5.  With the member query answered, [BroadcastToGroup] is
    [BroadcastToUsers] over the group's member rows without the excluded
    id: same outcome, same world, whether or not the event serializes.
    With the query failing it writes one log line and nothing else, and
    does not wait for the lock. *)
Theorem BroadcastToGroup_is_BroadcastToUsers
    (groupID : string) (m : WSMessage) (exclude : string) (w : World) :
  (db_up w = true →
   BroadcastToGroup groupID m exclude w =
     BroadcastToUsers (filter (λ u, u ≠ exclude) (members_of groupID (group_members w))) m w) ∧
  (db_up w = false →
   BroadcastToGroup groupID m exclude w =
     Ok tt (set_logs (λ ls, ls ++ [LogGetGroupMembersFailed]) w)).
Proof.
  split; intros Hdb; unfold BroadcastToGroup; unfold bind at 1; unfold db_query_members;
    rewrite Hdb; cbn [extend]; [|reflexivity].
  unfold BroadcastToUsers. destruct (json_Marshal m) as [data|e]; [|reflexivity].
  unfold bind, mu_RLock. destruct (writer (mu w)); cbn [extend]; [reflexivity|].
  unfold defer. rewrite group_loop_filter. reflexivity.
Qed.

(** X6.  With the event serialized to [data], the read lock to be had and
    the registry well-formed, [BroadcastToUsers] over ids without repeats
    returns; each listed user who is registered took [data] at the end of
    the buffer if it had room and is skipped if it had none; users not
    registered are passed over; no other channel, the registry and the
    lock are as before. *)
Theorem BroadcastToUsers_delivers_where_room
    (userIDs : list string) (m : WSMessage) (data : bytes) (w : World) :
  json_Marshal m = inl data → writer (mu w) = false → registry_wf w → NoDup userIDs →
  ∃ w', BroadcastToUsers userIDs m w = Ok tt w' ∧ pushed_to userIDs data w w'.
Proof.
  intros Hm Hmu Hwf Hnd. unfold BroadcastToUsers. rewrite Hm.
  apply users_loop_under_RLock; auto.
Qed.

End Queries.

(** ** What the calls keep *)

Section Keeping.
Context `{RT : Runtime}.

Lemma ends_in_final {A} P (o : outcome A) : ends_in P o → P (final o).
Proof. destruct o; cbn; tauto. Qed.

Lemma ends_in_extend {A B} P (ok : A → World → outcome B) panic (o : outcome A) :
  ends_in P o → (∀ a w, P w → ends_in P (ok a w)) → (∀ p w, P w → ends_in P (panic p w)) →
  ends_in P (extend ok panic o).
Proof.
  intros Ho Hok Hpanic. induction o as [a w|p w|w|resume IH w]; cbn in *; auto.
  destruct Ho as [Hw Hr]. split; [exact Hw|]. intros w' Hw'. apply IH. apply Hr. exact Hw'.
Qed.

Lemma preserves_final {A} P (m : M A) w : preserves P m → P w → P (final (m w)).
Proof. intros Hm Hw. apply ends_in_final. apply Hm. exact Hw. Qed.

Lemma preserves_ret {A} P (a : A) : preserves P (ret a).
Proof. intros w HP. exact HP. Qed.

Lemma preserves_get {A} P (f : World → A) : preserves P (get f).
Proof. intros w HP. exact HP. Qed.

Lemma preserves_modify P f : stable P f → preserves P (modify f).
Proof. intros Hf w HP. apply Hf. exact HP. Qed.

Lemma preserves_bind {A B} P (m : M A) (k : A → M B) :
  preserves P m → (∀ a, preserves P (k a)) → preserves P (bind m k).
Proof.
  intros Hm Hk w HP. unfold bind. apply ends_in_extend; [apply Hm; exact HP|..].
  - intros a w1 H1. apply Hk. exact H1.
  - intros p w1 H1. exact H1.
Qed.

Lemma preserves_defer {A} P (cleanup : M unit) (body : M A) :
  preserves P cleanup → preserves P body → preserves P (defer cleanup body).
Proof.
  intros Hc Hb w HP. unfold defer. apply ends_in_extend; [apply Hb; exact HP|..].
  - intros a w1 H1. apply ends_in_extend; [apply Hc; exact H1|..]; intros ? w2 H2; exact H2.
  - intros p w1 H1. apply ends_in_extend; [apply Hc; exact H1|..]; intros ? w2 H2; exact H2.
Qed.

Lemma preserves_send_Unregister P c :
  (∀ f, stable P (set_Unregister f)) → preserves P (send_Unregister c).
Proof. intros HU w Hw. split; [apply HU; exact Hw|]. intros w' Hw'. exact Hw'. Qed.

Lemma preserves_ext {A} P (m m' : M A) :
  (∀ w, m w = m' w) → preserves P m' → preserves P m.
Proof. intros Heq Hm w HP. rewrite Heq. apply Hm. exact HP. Qed.

Section Pushing.
Variable P : World → Prop.
Hypothesis HP : push_stable P.

Lemma preserves_log l : preserves P (log_Printf l).
Proof. apply preserves_modify. apply HP. Qed.

Lemma preserves_time_Now : preserves P time_Now.
Proof. intros w Hw. cbn. apply HP. exact Hw. Qed.

Lemma preserves_mu_RLock : preserves P mu_RLock.
Proof.
  intros w Hw. unfold mu_RLock. destruct (writer (mu w)); cbn; [exact Hw|].
  apply HP. exact Hw.
Qed.

Lemma preserves_mu_RUnlock : preserves P mu_RUnlock.
Proof. apply preserves_modify. apply HP. Qed.

Lemma preserves_mu_Lock : preserves P mu_Lock.
Proof.
  intros w Hw. unfold mu_Lock. destruct (writer (mu w)); cbn; [exact Hw|].
  destruct (readers (mu w)); cbn; [|exact Hw]. apply HP. exact Hw.
Qed.

Lemma preserves_mu_Unlock : preserves P mu_Unlock.
Proof. apply preserves_modify. apply HP. Qed.

Lemma preserves_select_send ch data : preserves P (select_send ch data).
Proof.
  intros w Hw. unfold select_send. destruct (chans w !! ch) as [c|] eqn:Hc; [|exact Hw].
  destruct (closed c) eqn:Hcl; [exact Hw|]. case_decide; [|exact Hw].
  cbn. apply HP; assumption.
Qed.

Lemma preserves_db_query_contacts u : preserves P (db_query_contacts u).
Proof. intros w Hw. unfold db_query_contacts. destruct (db_up w); exact Hw. Qed.

Lemma preserves_db_query_members g : preserves P (db_query_members g).
Proof. intros w Hw. unfold db_query_members. destruct (db_up w); exact Hw. Qed.

Lemma preserves_push_one u data : preserves P (push_one u data).
Proof.
  unfold push_one. apply preserves_bind; [apply preserves_get|]. intros [c|].
  - apply preserves_bind; [apply preserves_select_send|].
    intros []; [apply preserves_ret|apply preserves_log].
  - apply preserves_ret.
Qed.

Lemma preserves_users_loop l data : preserves P (users_loop l data).
Proof.
  induction l as [|u l IH]; [apply preserves_ret|].
  apply (preserves_ext P _ (bind (push_one u data) (fun _ => users_loop l data)));
    [intros w; apply users_loop_cons|].
  apply preserves_bind; [apply preserves_push_one|]. intros _. exact IH.
Qed.

Lemma preserves_presence_loop l data : preserves P (presence_loop l data).
Proof.
  induction l as [|u l IH]; [apply preserves_ret|]. cbn [presence_loop].
  apply preserves_bind; [apply preserves_mu_RLock|]. intros _.
  apply preserves_bind; [apply preserves_get|]. intros c.
  apply preserves_bind.
  - destruct c as [c|]; [|apply preserves_ret].
    apply preserves_bind; [apply preserves_select_send|].
    intros []; [apply preserves_ret|apply preserves_log].
  - intros _. apply preserves_bind; [apply preserves_mu_RUnlock|]. intros _. exact IH.
Qed.

Lemma preserves_broadcastPresence u b : preserves P (broadcastPresence u b).
Proof.
  unfold broadcastPresence. apply preserves_bind; [apply preserves_db_query_contacts|].
  intros [rows|]; [|apply preserves_log].
  apply preserves_bind; [apply preserves_time_Now|]. intros t.
  apply preserves_bind; [apply preserves_time_Now|]. intros ts.
  cbv zeta. case_match; [apply preserves_presence_loop|apply preserves_log].
Qed.

Lemma preserves_BroadcastToUser u m : preserves P (BroadcastToUser u m).
Proof.
  unfold BroadcastToUser. apply preserves_bind; [apply preserves_mu_RLock|]. intros _.
  apply preserves_defer; [apply preserves_mu_RUnlock|].
  apply preserves_bind; [apply preserves_get|]. intros [c|]; [|apply preserves_ret].
  case_match; [|apply preserves_log].
  apply preserves_bind; [apply preserves_select_send|].
  intros []; [apply preserves_ret|apply preserves_log].
Qed.

Lemma preserves_BroadcastToUsers l m : preserves P (BroadcastToUsers l m).
Proof.
  unfold BroadcastToUsers. case_match; [|apply preserves_log].
  apply preserves_bind; [apply preserves_mu_RLock|]. intros _.
  apply preserves_defer; [apply preserves_mu_RUnlock|apply preserves_users_loop].
Qed.

Lemma preserves_BroadcastToGroup g m x : preserves P (BroadcastToGroup g m x).
Proof.
  unfold BroadcastToGroup. apply preserves_bind; [apply preserves_db_query_members|].
  intros [rows|]; [|apply preserves_log].
  case_match; [|apply preserves_log].
  apply preserves_bind; [apply preserves_mu_RLock|]. intros _.
  apply preserves_defer; [apply preserves_mu_RUnlock|].
  eapply preserves_ext; [intros w; apply group_loop_filter|apply preserves_users_loop].
Qed.

Lemma preserves_handleTypingStart c payload : preserves P (handleTypingStart c payload).
Proof.
  unfold handleTypingStart. cbv zeta.
  apply preserves_bind; [apply preserves_time_Now|]. intros t.
  case_decide; [apply preserves_BroadcastToGroup|].
  case_decide; [apply preserves_BroadcastToUsers|apply preserves_ret].
Qed.

Lemma preserves_handleTypingStop c payload : preserves P (handleTypingStop c payload).
Proof.
  unfold handleTypingStop. cbv zeta.
  apply preserves_bind; [apply preserves_time_Now|]. intros t.
  case_decide; [apply preserves_BroadcastToGroup|].
  case_decide; [apply preserves_BroadcastToUsers|apply preserves_ret].
Qed.

Lemma preserves_handleIncomingMessage c msg : preserves P (handleIncomingMessage c msg).
Proof.
  unfold handleIncomingMessage.
  case_decide; [apply preserves_handleTypingStart|].
  case_decide; [apply preserves_handleTypingStop|apply preserves_log].
Qed.

Lemma preserves_ReadPump_body c message : preserves P (ReadPump_body c message).
Proof.
  unfold ReadPump_body. destruct message as [message|unexpected].
  - case_match.
    + apply preserves_bind; [apply preserves_handleIncomingMessage|].
      intros _. apply preserves_ret.
    + apply preserves_bind; [apply preserves_log|]. intros _. apply preserves_ret.
  - apply preserves_bind; [|intros _; apply preserves_ret].
    destruct unexpected; [apply preserves_log|apply preserves_ret].
Qed.

End Pushing.

Section Reading.
Variable P : World → Prop.
Hypothesis HP : push_stable P.
Hypothesis Hconns :
  ∀ conn t, stable P (set_conns (alter (fun s => mkConnState t (connClosed s)) conn)).

Lemma preserves_ReadPump_loop c script : preserves P (ReadPump_loop c script).
Proof.
  induction script as [|ev script IH]; [intros w Hw; exact Hw|].
  destruct ev as [|unexpected|message]; cbn [ReadPump_loop].
  - apply preserves_bind; [apply preserves_time_Now; exact HP|]. intros t.
    apply preserves_bind; [apply preserves_modify; apply Hconns|]. intros _. exact IH.
  - apply preserves_bind; [apply preserves_ReadPump_body; exact HP|].
    intros _. apply preserves_ret.
  - apply preserves_bind; [apply preserves_ReadPump_body; exact HP|].
    intros []; [exact IH|apply preserves_ret].
Qed.

Lemma preserves_ReadPump_run c script :
  preserves P (bind time_Now (fun now =>
                 bind (conn_SetReadDeadline (Conn c) (now + 60)%Z)
                      (fun _ => ReadPump_loop c script))).
Proof.
  apply preserves_bind; [apply preserves_time_Now; exact HP|]. intros t.
  apply preserves_bind; [apply preserves_modify; apply Hconns|]. intros _.
  apply preserves_ReadPump_loop.
Qed.

Lemma preserves_ReadPump_light c script :
  (∀ f, stable P (set_Unregister f)) →
  (∀ conn, stable P (set_conns (alter (fun s => mkConnState (readDeadline s) true) conn))) →
  preserves P (ReadPump c script).
Proof.
  intros HU Hclose. unfold ReadPump. apply preserves_defer.
  - apply preserves_bind; [apply preserves_send_Unregister; apply HU|]. intros _.
    apply preserves_modify. apply Hclose.
  - apply preserves_ReadPump_run.
Qed.

End Reading.

Section Everything.
Variable P : World → Prop.
Hypothesis HP : hub_stable P.

Let HPpush : push_stable P := proj1 HP.

Lemma preserves_close ch : preserves P (close ch).
Proof.
  intros w Hw. unfold close. destruct (chans w !! ch) as [c|] eqn:Hc; [|exact Hw].
  destruct (closed c) eqn:Hcl; [exact Hw|]. cbn. apply HP; assumption.
Qed.

Lemma preserves_db_update_online b t u : preserves P (db_update_online b t u).
Proof.
  intros w Hw. unfold db_update_online. destruct (db_up w); cbn; [|exact Hw].
  apply HP. exact Hw.
Qed.

Lemma preserves_registerClient client : preserves P (registerClient client).
Proof.
  unfold registerClient. apply preserves_bind; [apply preserves_mu_Lock; exact HPpush|].
  intros _. apply preserves_defer; [apply preserves_mu_Unlock; exact HPpush|].
  apply preserves_bind; [apply preserves_get|]. intros existing.
  apply preserves_bind; [destruct existing; [apply preserves_close|apply preserves_ret]|].
  intros _. apply preserves_bind; [apply preserves_modify; apply HP|]. intros _.
  apply preserves_bind; [apply preserves_time_Now; exact HPpush|]. intros t.
  apply preserves_bind; [apply preserves_db_update_online|]. intros ok.
  apply preserves_bind;
    [destruct ok; [apply preserves_ret|apply preserves_log; exact HPpush]|].
  intros _. apply preserves_bind; [apply preserves_broadcastPresence; exact HPpush|].
  intros _. apply preserves_log; exact HPpush.
Qed.

Lemma preserves_unregisterClient client : preserves P (unregisterClient client).
Proof.
  unfold unregisterClient. apply preserves_bind; [apply preserves_mu_Lock; exact HPpush|].
  intros _. apply preserves_defer; [apply preserves_mu_Unlock; exact HPpush|].
  apply preserves_bind; [apply preserves_get|]. intros [e|]; [|apply preserves_ret].
  apply preserves_bind; [apply preserves_modify; apply HP|]. intros _.
  apply preserves_bind; [apply preserves_close|]. intros _.
  apply preserves_bind; [apply preserves_time_Now; exact HPpush|]. intros t.
  apply preserves_bind; [apply preserves_db_update_online|]. intros ok.
  apply preserves_bind;
    [destruct ok; [apply preserves_ret|apply preserves_log; exact HPpush]|].
  intros _. apply preserves_bind; [apply preserves_broadcastPresence; exact HPpush|].
  intros _. apply preserves_log; exact HPpush.
Qed.

Lemma preserves_Run_iter pick : preserves P (Run_iter pick).
Proof.
  intros w Hw. unfold Run_iter.
  assert (HR : ∀ q, P (set_Register (λ _, q) w)) by (intros q; apply HP; exact Hw).
  assert (HU : ∀ q, P (set_Unregister (λ _, q) w)) by (intros q; apply HP; exact Hw).
  destruct pick, (Register w) as [|c q], (Unregister w) as [|c' q'];
    first [exact Hw|apply preserves_registerClient; apply HR
          |apply preserves_unregisterClient; apply HU].
Qed.

Lemma preserves_SendMessage c msg : preserves P (SendMessage c msg).
Proof.
  unfold SendMessage. case_match; [|apply preserves_ret].
  apply preserves_bind; [apply preserves_select_send; exact HPpush|]. intros sent.
  apply preserves_bind; [|intros _; apply preserves_ret].
  destruct sent; [apply preserves_ret|].
  apply preserves_bind; [apply preserves_close|]. intros _.
  apply preserves_send_Unregister. apply HP.
Qed.

Lemma preserves_ReadPump c script : preserves P (ReadPump c script).
Proof.
  unfold ReadPump. apply preserves_defer.
  - apply preserves_bind; [apply preserves_send_Unregister; apply HP|]. intros _.
    apply preserves_modify. apply HP.
  - apply preserves_ReadPump_run; [exact HPpush|intros conn t; apply HP].
Qed.

End Everything.

(** *** Three things that are kept *)



Lemma buffers_bounded_hub_stable : hub_stable buffers_bounded.
Proof.
  unfold hub_stable, push_stable, stable.
  split; [split|]; [| |split]; try (repeat split; intros g w Hb; exact Hb).
  - intros w k c data Hb Hc Hcl Hroom k' ch. hub_cbn.
    destruct (decide (k = k')) as [<-|Hne].
    + rewrite lookup_insert_eq. intros [= <-]. cbn. rewrite length_app. cbn. lia.
    + rewrite lookup_insert_ne by exact Hne. apply Hb.
  - intros w k c Hb Hc Hcl k' ch. hub_cbn.
    destruct (decide (k = k')) as [<-|Hne].
    + rewrite lookup_insert_eq. intros [= <-]. cbn. exact (Hb k c Hc).
    + rewrite lookup_insert_ne by exact Hne. apply Hb.
Qed.

Lemma keyed_by_id_hub_stable : hub_stable keyed_by_id.
Proof.
  unfold hub_stable, push_stable, stable.
  split; [split|]; [| |split; [|split; [|split]]];
    try (repeat split; intros g w Hb; exact Hb).
  - intros w k c data Hb _ _ _. exact Hb.
  - intros w k c Hb _ _. exact Hb.
  - intros c w Hb u c'. hub_cbn. destruct (decide (ID c = u)) as [<-|Hne].
    + rewrite lookup_insert_eq. intros [= <-]. reflexivity.
    + rewrite lookup_insert_ne by exact Hne. apply Hb.
  - intros u w Hb u' c'. hub_cbn. destruct (decide (u = u')) as [<-|Hne].
    + rewrite lookup_delete_eq. discriminate.
    + rewrite lookup_delete_ne by exact Hne. apply Hb.
Qed.


(** X8.  No call of the package ever leaves a buffer above its channel's
    capacity: started in a world where every buffer is within capacity,
    each of them ends in one, whether it returns, panics, parks or waits
    in a send to the hub; and the two that can wait in such a send,
    [SendMessage] and [ReadPump], keep the bound through the rest of the
    call as well, if it holds in the world they go on in. *)
Theorem buffers_stay_bounded (w : World) :
  buffers_bounded w →
  (∀ u q conn, buffers_bounded (final (NewClient u q conn w))) ∧
  (∀ c, buffers_bounded (final (registerClient c w))) ∧
  (∀ c, buffers_bounded (final (unregisterClient c w))) ∧
  (∀ pick, buffers_bounded (final (Run_iter pick w))) ∧
  (∀ u m, buffers_bounded (final (BroadcastToUser u m w))) ∧
  (∀ l m, buffers_bounded (final (BroadcastToUsers l m w))) ∧
  (∀ g m x, buffers_bounded (final (BroadcastToGroup g m x w))) ∧
  (∀ c msg, buffers_bounded (final (SendMessage c msg w))) ∧
  (∀ c script, buffers_bounded (final (ReadPump c script w))) ∧
  (∀ c msg, ends_in buffers_bounded (SendMessage c msg w)) ∧
  (∀ c script, ends_in buffers_bounded (ReadPump c script w)).
Proof.
  intros Hb. pose proof buffers_bounded_hub_stable as HS.
  pose proof (proj1 HS) as HSp.
  split; [|split; [|split; [|split; [|split; [|split; [|split; [|split; [|split;
    [|split]]]]]]]]]; intros.
  - intros k ch. cbn. destruct (decide (fresh (dom (chans w)) = k)) as [<-|Hne].
    + rewrite lookup_insert_eq. intros [= <-]. cbn. lia.
    + rewrite lookup_insert_ne by exact Hne. apply Hb.
  - apply preserves_final; [apply (preserves_registerClient _ HS)|exact Hb].
  - apply preserves_final; [apply (preserves_unregisterClient _ HS)|exact Hb].
  - apply preserves_final; [apply (preserves_Run_iter _ HS)|exact Hb].
  - apply preserves_final; [apply (preserves_BroadcastToUser _ HSp)|exact Hb].
  - apply preserves_final; [apply (preserves_BroadcastToUsers _ HSp)|exact Hb].
  - apply preserves_final; [apply (preserves_BroadcastToGroup _ HSp)|exact Hb].
  - apply preserves_final; [apply (preserves_SendMessage _ HS)|exact Hb].
  - apply preserves_final; [apply (preserves_ReadPump _ HS)|exact Hb].
  - apply (preserves_SendMessage _ HS). exact Hb.
  - apply (preserves_ReadPump _ HS). exact Hb.
Qed.

(** X9.  The registry keeps every client under the client's own user id:
    [NewHub] starts that way and every call that touches the registry or
    could touch it keeps it so, however it ends; [SendMessage] and
    [ReadPump], which can wait in a send to the hub, keep it so through
    the rest of the call as well, if it holds in the world they go on
    in. *)
Theorem registry_stays_keyed_by_id (w : World) :
  keyed_by_id (final (NewHub w)) ∧
  (keyed_by_id w →
   (∀ c, keyed_by_id (final (registerClient c w))) ∧
   (∀ c, keyed_by_id (final (unregisterClient c w))) ∧
   (∀ pick, keyed_by_id (final (Run_iter pick w))) ∧
   (∀ c msg, keyed_by_id (final (SendMessage c msg w))) ∧
   (∀ c script, keyed_by_id (final (ReadPump c script w))) ∧
   (∀ c msg, ends_in keyed_by_id (SendMessage c msg w)) ∧
   (∀ c script, ends_in keyed_by_id (ReadPump c script w))).
Proof.
  split.
  - intros u c. cbn. rewrite lookup_empty. discriminate.
  - intros Hk. pose proof keyed_by_id_hub_stable as HS.
    split; [|split; [|split; [|split; [|split; [|split]]]]]; intros.
    + apply preserves_final; [apply (preserves_registerClient _ HS)|exact Hk].
    + apply preserves_final; [apply (preserves_unregisterClient _ HS)|exact Hk].
    + apply preserves_final; [apply (preserves_Run_iter _ HS)|exact Hk].
    + apply preserves_final; [apply (preserves_SendMessage _ HS)|exact Hk].
    + apply preserves_final; [apply (preserves_ReadPump _ HS)|exact Hk].
    + apply (preserves_SendMessage _ HS). exact Hk.
    + apply (preserves_ReadPump _ HS). exact Hk.
Qed.

(** *** How the read loop ends *)

Lemma ReadPump_loop_stops_at_error c pre unexpected post w :
  ReadPump_loop c (pre ++ ReadError unexpected :: post) w =
  ReadPump_loop c (pre ++ [ReadError unexpected]) w.
Proof.
  revert w. induction pre as [|ev pre IH]; intros w; [reflexivity|].
  destruct ev as [|u|message]; cbn [app ReadPump_loop]; try reflexivity.
  - unfold bind, time_Now, conn_SetReadDeadline, modify. cbn [extend]. apply IH.
  - unfold bind.
    destruct (ReadPump_body c (inl message) w) as [[] w1|k w1|w1|r w1] eqn:E; cbn [extend];
      try reflexivity; [apply IH|].
    destruct (sendless_ReadPump_body c (inl message) w r w1 E).
Qed.

(** X10.  [ReadPump] reads no further than the first read error: whatever
    the socket would have delivered after it is never looked at. *)
Theorem ReadPump_stops_at_first_error
    (c : Client) (pre : list ReadEvent) (unexpected : bool) (post : list ReadEvent)
    (w : World) :
  ReadPump c (pre ++ ReadError unexpected :: post) w =
  ReadPump c (pre ++ [ReadError unexpected]) w.
Proof.
  unfold ReadPump, defer, bind, time_Now, conn_SetReadDeadline, modify. cbn [extend].
  rewrite ReadPump_loop_stops_at_error. reflexivity.
Qed.

(** [conn] after [conn.Close()]. *)
Lemma closed_after_conn_Close conn w s :
  conns (set_conns (alter (λ s, mkConnState (readDeadline s) true) conn) w) !! conn = Some s →
  connClosed s = true.
Proof.
  hub_cbn. rewrite lookup_alter_eq. destruct (conns w !! conn); cbn; intros [= <-]. reflexivity.
Qed.

Lemma ReadPump_exit (c : Client) (script : list ReadEvent) (w : World) :
  match ReadPump c script w with
  | Sending resume w' =>
      Unregister w' = Unregister w ++ [c] ∧
      (∀ k, connClosed <$> conns w' !! k = connClosed <$> conns w !! k) ∧
      ((∀ w'', resume w'' = Ok tt (final (conn_Close (Conn c) w''))) ∨
       (∃ p, ∀ w'', resume w'' = Panic p (final (conn_Close (Conn c) w''))))
  | Blocked w' =>
      Unregister w' = Unregister w ∧
      ∀ k, connClosed <$> conns w' !! k = connClosed <$> conns w !! k
  | Ok _ _ => False
  | Panic _ _ => False
  end.
Proof.
  set (P := λ w', Unregister w' = Unregister w ∧
                  ∀ k, connClosed <$> conns w' !! k = connClosed <$> conns w !! k).
  assert (HPs : push_stable P).
  { unfold push_stable, stable.
    split; [|split; [|split]; intros g w0 H0; exact H0]. intros w0 k c0 d H0 _ _ _. exact H0. }
  assert (Hc : ∀ conn t,
             stable P (set_conns (alter (fun s => mkConnState t (connClosed s)) conn))).
  { intros conn t w0 [H0 H1]. split; [exact H0|]. intros k. hub_cbn. rewrite <- H1.
    destruct (decide (conn = k)) as [<-|Hne].
    - rewrite lookup_alter_eq. destruct (conns w0 !! conn); reflexivity.
    - rewrite lookup_alter_ne by exact Hne. reflexivity. }
  assert (HP0 : P w) by (split; reflexivity).
  pose proof (preserves_final P _ w (preserves_ReadPump_run P HPs Hc c script) HP0) as Hrun.
  unfold ReadPump, defer.
  destruct (bind time_Now _ w) as [[] w1|k w1|w1|r w1] eqn:E; hub_cbn;
    unfold P in Hrun; destruct Hrun as [HU Hcn].
  - unfold bind, send_Unregister, conn_Close, modify. hub_cbn.
    rewrite HU. split; [reflexivity|]. split; [exact Hcn|]. left. intros w''. reflexivity.
  - unfold bind, send_Unregister, conn_Close, modify. hub_cbn.
    rewrite HU. split; [reflexivity|]. split; [exact Hcn|].
    right. exists k. intros w''. reflexivity.
  - split; assumption.
  - exfalso. revert E. apply sendless_bind; [apply sendless_time_Now|]. intros t.
    apply sendless_bind; [apply sendless_conn_SetReadDeadline|]. intros _.
    apply sendless_ReadPump_loop.
Qed.

(** X11.  [ReadPump] does not end without the hub.  When its loop is
    over, by a read error or by a panic in a handler, its deferred
    function sends the client to the hub's [Unregister] intake, once, and
    waits there, the connection no more closed than it was; what is left
    of it then is to close the connection and to return (or to go on
    panicking).  While it is parked, in the read or on the lock inside a
    handler, it has sent nothing and closed nothing. *)
Theorem ReadPump_unregisters_once_on_exit (c : Client) (script : list ReadEvent) (w : World) :
  match ReadPump c script w with
  | Sending resume w' =>
      Unregister w' = Unregister w ++ [c] ∧
      (∀ k, connClosed <$> conns w' !! k = connClosed <$> conns w !! k) ∧
      ((∀ w'', resume w'' = Ok tt (final (conn_Close (Conn c) w''))) ∨
       (∃ p, ∀ w'', resume w'' = Panic p (final (conn_Close (Conn c) w'')))) ∧
      ∀ w'' s, conns (final (resume w'')) !! Conn c = Some s → connClosed s = true
  | Blocked w' =>
      Unregister w' = Unregister w ∧
      ∀ k, connClosed <$> conns w' !! k = connClosed <$> conns w !! k
  | Ok _ _ => False
  | Panic _ _ => False
  end.
Proof.
  pose proof (ReadPump_exit c script w) as H.
  destruct (ReadPump c script w) as [a w'|p w'|w'|resume w']; try exact H.
  destruct H as (HU & Hcn & Hr). split; [exact HU|]. split; [exact Hcn|]. split; [exact Hr|].
  intros w'' s. destruct Hr as [Hr|(p & Hr)]; rewrite Hr; apply closed_after_conn_Close.
Qed.

(** *** The store as a mirror of the registry *)

(** X12.  [unregisterClient] of a registered user whose client's channel
    is open takes the user out of the registry and, when the store is up,
    writes the user's row, offline with the clock's reading, and only that
    row; with the store down it leaves the rows alone and goes on: the
    failure is logged, the registry is updated all the same, and the call
    returns (with no contact rows to be had it cannot park). *)
Theorem unregisterClient_mirrors_store (client e : Client) (ch : Chan) (w : World) :
  mu w = mu_free → Clients w !! ID client = Some e →
  chans w !! Send client = Some ch → closed ch = false →
  let w' := final (unregisterClient client w) in
  Clients w' = delete (ID client) (Clients w) ∧
  users w' = (if db_up w
              then alter (λ _, mkUserRow false (clock w)) (ID client) (users w)
              else users w) ∧
  (db_up w = false →
   unregisterClient client w = Ok tt w' ∧
   logs w' = logs w ++ [LogOfflineStatusFailed; LogGetContactsFailed;
                        LogClientDisconnected (UniqueID client) (ID client)]).
Proof.
  intros Hmu Hc Hch Hcl. cbv zeta. revert Hc Hch Hcl.
  unfold unregisterClient. hub_unfold. open_world w. intros Hc Hch Hcl.
  rewrite Hc; hub_cbn. rewrite Hch, Hcl; hub_cbn.
  destruct db_up0; hub_cbn.
  - presence_locked broadcastPresence_locked w1 Hs Hr.
    destruct Hr as [(Hr&_)|(Hr&_)]; rewrite Hr; hub_cbn;
      (split; [assumption|split; [assumption|discriminate]]).
  - unfold broadcastPresence. hub_unfold. hub_cbn.
    split; [reflexivity|]. split; [reflexivity|]. intros _. split; [reflexivity|].
    rewrite <- !app_assoc. reflexivity.
Qed.

(** X13.  [registerClient] of a user not yet registered puts the client
    into the registry under the user's id and, when the store is up,
    writes the user's row, online with the clock's reading, and only that
    row; with the store down it leaves the rows alone and goes on: the
    failure is logged, the registry is updated all the same, and the call
    returns. *)
Theorem registerClient_mirrors_store (client : Client) (w : World) :
  mu w = mu_free → Clients w !! ID client = None →
  let w' := final (registerClient client w) in
  Clients w' = <[ID client := client]> (Clients w) ∧
  users w' = (if db_up w
              then alter (λ _, mkUserRow true (clock w)) (ID client) (users w)
              else users w) ∧
  (db_up w = false →
   registerClient client w = Ok tt w' ∧
   logs w' = logs w ++ [LogOnlineStatusFailed; LogGetContactsFailed;
                        LogClientConnected (UniqueID client) (ID client)]).
Proof.
  intros Hmu Hc. cbv zeta. revert Hc.
  unfold registerClient. hub_unfold. open_world w. intros Hc.
  rewrite Hc; hub_cbn.
  destruct db_up0; hub_cbn.
  - presence_locked broadcastPresence_locked w1 Hs Hr.
    destruct Hr as [(Hr&_)|(Hr&_)]; rewrite Hr; hub_cbn;
      (split; [assumption|split; [assumption|discriminate]]).
  - unfold broadcastPresence. hub_unfold. hub_cbn.
    split; [reflexivity|]. split; [reflexivity|]. intros _. split; [reflexivity|].
    rewrite <- !app_assoc. reflexivity.
Qed.

(** *** The presence broadcast with the lock to be had *)

Lemma presence_loop_cons_wf u rest data w :
  writer (mu w) = false → registry_wf w →
  ∃ w1, presence_loop (u :: rest) data w = presence_loop rest data w1 ∧
        pushed_to [u] data w w1 ∧ registry_wf w1.
Proof.
  intros Hmu Hwf. cbn [presence_loop]. hub_unfold. rewrite Hmu. hub_cbn.
  assert (Hmu' : ∀ w0 : World, mu w0 = mu w →
            mkRWMutex (writer (mkRWMutex false (S (readers (mu w0)))))
                      (Nat.pred (readers (mkRWMutex false (S (readers (mu w0)))))) = mu w).
  { intros w0 ->. destruct (mu w) as [wr rd]. cbn in *. subst wr. reflexivity. }
  destruct (Clients w !! u) as [c|] eqn:Hc; hub_cbn.
  - destruct (proj1 Hwf u c Hc) as (ch & Hch & Hcl). rewrite Hch, Hcl.
    case_decide as Hroom; hub_cbn.
    + eexists; split; [reflexivity|]. split.
      * repeat split; hub_cbn; [exact (Hmu' w eq_refl)|..].
        -- intros u' c' ch' Hu' Hc' Hch'. apply list_elem_of_singleton in Hu' as ->.
           assert (c' = c) as -> by congruence. assert (ch' = ch) as -> by congruence.
           rewrite decide_True by exact Hroom. apply lookup_insert_eq.
        -- intros k Hk. apply lookup_insert_ne. apply (Hk u c); [|exact Hc].
           apply list_elem_of_singleton. reflexivity.
      * apply (registry_wf_frame (set_chans (insert (Send c) (enqueue ch data)) w));
          [reflexivity|reflexivity|]. eapply registry_wf_enqueue; eassumption.
    + eexists; split; [reflexivity|]. split.
      * repeat split; hub_cbn; [exact (Hmu' w eq_refl)|].
        intros u' c' ch' Hu' Hc' Hch'. apply list_elem_of_singleton in Hu' as ->.
        assert (c' = c) as -> by congruence. assert (ch' = ch) as -> by congruence.
        rewrite decide_False by exact Hroom. exact Hch.
      * apply (registry_wf_frame w); [reflexivity|reflexivity|exact Hwf].
  - eexists; split; [reflexivity|]. split.
    + repeat split; hub_cbn; [exact (Hmu' w eq_refl)|].
      intros u' c' ch' Hu' Hc' Hch'. apply list_elem_of_singleton in Hu' as ->. congruence.
    + apply (registry_wf_frame w); [reflexivity|reflexivity|exact Hwf].
Qed.

Lemma presence_loop_wf data rows :
  NoDup rows → ∀ w, writer (mu w) = false → registry_wf w →
  ∃ w', presence_loop rows data w = Ok tt w' ∧ pushed_to rows data w w'.
Proof.
  induction 1 as [|u rest Hu Hnd IH]; intros w Hmu Hwf.
  - exists w. split; [reflexivity|]. repeat split.
    intros u c ch Hin. apply elem_of_nil in Hin as [].
  - destruct (presence_loop_cons_wf u rest data w Hmu Hwf) as (w1 & Hrun1 & Hp1 & Hwf1).
    assert (Hmu1 : writer (mu w1) = false).
    { destruct Hp1 as (_ & -> & _). exact Hmu. }
    destruct (IH w1 Hmu1 Hwf1) as (w' & Hrun & Hp).
    exists w'. rewrite Hrun1. split; [exact Hrun|]. eapply pushed_to_cons; eassumption.
Qed.

(** X14.  Called with the lock to be had, [broadcastPresence] does what
    it is there for: with the contact query answered and the envelope
    serialized to [data], it returns, and every contact of the user who
    is registered took [data] once at the end of the buffer if it had
    room; the envelope is [user_online] or [user_offline] with the user's
    id.  (From [registerClient] and [unregisterClient] it is never called
    that way.) *)
Theorem broadcastPresence_delivers_when_unlocked
    (userID : string) (isOnline : bool) (data : bytes) (w : World) :
  writer (mu w) = false → db_up w = true → registry_wf w →
  json_Marshal (presence_event userID isOnline (clock w) (tick (clock w))) = inl data →
  ∃ w', broadcastPresence userID isOnline w = Ok tt w' ∧
        pushed_to (contacts_of userID (contacts w)) data w w'.
Proof.
  intros Hmu Hdb Hwf Hm. unfold broadcastPresence. hub_unfold. rewrite Hdb. hub_cbn.
  assert (Hm' : json_Marshal
            (if isOnline
             then mkWSMessage EventUserOnline
                    (PPresence (mkPresencePayload userID isOnline (clock w))) (tick (clock w))
             else mkWSMessage EventUserOffline
                    (PPresence (mkPresencePayload userID isOnline (clock w))) (tick (clock w)))
            = inl data).
  { unfold presence_event in Hm. destruct isOnline; exact Hm. }
  cbn [Payload_ Timestamp]. rewrite Hm'.
  set (w0 := set_clock tick (set_clock tick w)).
  destruct (presence_loop_wf data (contacts_of userID (contacts w))
              (NoDup_remove_dups _) w0) as (w' & Hrun & HC & Hmu' & Hin & Hout).
  - exact Hmu.
  - apply (registry_wf_frame w); [reflexivity|reflexivity|exact Hwf].
  - exists w'. split; [exact Hrun|]. repeat split; assumption.
Qed.

(** *** The lock on return *)

Lemma registerClient_busy c w : mu w ≠ mu_free → registerClient c w = Blocked w.
Proof.
  intros Hmu. unfold registerClient. hub_unfold.
  destruct (mu w) as [[] [|n]] eqn:E; try reflexivity. exfalso. apply Hmu. reflexivity.
Qed.


Lemma lock_kept_extend {A B} m0 m1 (ok : A → World → outcome B) panic (o : outcome A) :
  lock_kept m0 o → (∀ a w, mu w = m0 → lock_kept m1 (ok a w)) →
  (∀ p w, lock_kept m1 (panic p w)) → lock_kept m1 (extend ok panic o).
Proof.
  intros Ho Hok Hpanic. induction o as [a w|p w|w|resume IH w]; cbn in *; auto.
Qed.

Lemma returns_lock_Ok {A} (m : M A) w a w' : returns_lock m → m w = Ok a w' → mu w' = mu w.
Proof. intros Hm Hrun. specialize (Hm w). rewrite Hrun in Hm. exact Hm. Qed.

Lemma returns_lock_of_sendless {A} (m : M A) :
  sendless m → (∀ w a w', m w = Ok a w' → mu w' = mu w) → returns_lock m.
Proof.
  intros Hs Hm w. destruct (m w) as [a w'|p w'|w'|r w'] eqn:E; cbn;
    [exact (Hm w a w' E)|exact I|exact I|destruct (Hs w r w' E)].
Qed.

Lemma returns_lock_ret {A} (a : A) : returns_lock (ret a).
Proof. intros w. reflexivity. Qed.

Lemma returns_lock_get {A} (f : World → A) : returns_lock (get f).
Proof. intros w. reflexivity. Qed.

Lemma returns_lock_modify f : (∀ w, mu (f w) = mu w) → returns_lock (modify f).
Proof. intros Hf w. apply Hf. Qed.

Lemma returns_lock_send_Unregister c : returns_lock (send_Unregister c).
Proof. intros w w' Hw'. exact Hw'. Qed.

Lemma returns_lock_bind {A B} (m : M A) (k : A → M B) :
  returns_lock m → (∀ a, returns_lock (k a)) → returns_lock (bind m k).
Proof.
  intros Hm Hk w. unfold bind. apply (lock_kept_extend (mu w)); [apply Hm|..].
  - intros a w1 H1. rewrite <- H1. apply Hk.
  - intros p w1. exact I.
Qed.

Lemma returns_lock_ext {A} (m m' : M A) :
  (∀ w, m w = m' w) → returns_lock m' → returns_lock m.
Proof. intros Heq Hm w. rewrite Heq. apply Hm. Qed.

Lemma returns_lock_log l : returns_lock (log_Printf l).
Proof. apply returns_lock_modify. reflexivity. Qed.

Lemma returns_lock_time_Now : returns_lock time_Now.
Proof. intros w. reflexivity. Qed.

Lemma returns_lock_select_send ch data : returns_lock (select_send ch data).
Proof.
  intros w. unfold select_send. destruct (chans w !! ch) as [c|]; [|reflexivity].
  destruct (closed c); [exact I|]. case_decide; reflexivity.
Qed.

Lemma returns_lock_close ch : returns_lock (close ch).
Proof.
  intros w. unfold close. destruct (chans w !! ch) as [c|]; [|exact I].
  destruct (closed c); [exact I|]. reflexivity.
Qed.

Lemma returns_lock_db_update_online b t u : returns_lock (db_update_online b t u).
Proof. intros w. unfold db_update_online. destruct (db_up w); reflexivity. Qed.

Lemma returns_lock_db_query_contacts u : returns_lock (db_query_contacts u).
Proof. intros w. unfold db_query_contacts. destruct (db_up w); reflexivity. Qed.

Lemma returns_lock_db_query_members g : returns_lock (db_query_members g).
Proof. intros w. unfold db_query_members. destruct (db_up w); reflexivity. Qed.

(** A body that keeps the lock, run between [RLock] and a deferred
    [RUnlock] or between [Lock] and a deferred [Unlock]. *)
Lemma returns_lock_RLocked {A} (body : M A) :
  returns_lock body → returns_lock (bind mu_RLock (fun _ => defer mu_RUnlock body)).
Proof.
  intros Hb w. unfold bind, mu_RLock. destruct (writer (mu w)) eqn:Hw; [exact I|].
  cbn [extend]. unfold defer.
  eapply lock_kept_extend; [apply Hb|..].
  - intros a w1 H1. unfold mu_RUnlock, modify. cbn [extend lock_kept]. hub_cbn.
    rewrite H1. hub_cbn. destruct (mu w) as [wr rd]. cbn in *. subst wr. reflexivity.
  - intros p w1. unfold mu_RUnlock, modify. exact I.
Qed.

Lemma returns_lock_Locked {A} (body : M A) :
  returns_lock body → returns_lock (bind mu_Lock (fun _ => defer mu_Unlock body)).
Proof.
  intros Hb w. unfold bind, mu_Lock. destruct (writer (mu w)) eqn:Hw; [exact I|].
  destruct (readers (mu w)) eqn:Hr; [|exact I].
  cbn [extend]. unfold defer.
  eapply lock_kept_extend; [apply Hb|..].
  - intros a w1 H1. unfold mu_Unlock, modify. cbn [extend lock_kept]. hub_cbn.
    rewrite H1. hub_cbn. destruct (mu w) as [wr rd]. cbn in *. subst wr rd. reflexivity.
  - intros p w1. unfold mu_Unlock, modify. exact I.
Qed.

Lemma returns_lock_push_one u data : returns_lock (push_one u data).
Proof.
  unfold push_one. apply returns_lock_bind; [apply returns_lock_get|]. intros [c|].
  - apply returns_lock_bind; [apply returns_lock_select_send|].
    intros []; [apply returns_lock_ret|apply returns_lock_log].
  - apply returns_lock_ret.
Qed.

Lemma returns_lock_users_loop l data : returns_lock (users_loop l data).
Proof.
  induction l as [|u l IH]; [apply returns_lock_ret|].
  apply (returns_lock_ext _ (bind (push_one u data) (fun _ => users_loop l data)));
    [intros w; apply users_loop_cons|].
  apply returns_lock_bind; [apply returns_lock_push_one|]. intros _. exact IH.
Qed.

Lemma returns_lock_presence_loop l data : returns_lock (presence_loop l data).
Proof.
  induction l as [|u l IH]; [apply returns_lock_ret|].
  intros w. cbn [presence_loop]. unfold bind at 1, mu_RLock.
  destruct (writer (mu w)) eqn:Hw; [exact I|]. cbn [extend].
  unfold bind at 1, get. cbn [extend]. unfold bind at 1.
  eapply lock_kept_extend.
  - match goal with |- lock_kept _ (?m ?w0) =>
      assert (Hm : returns_lock m); [|exact (Hm w0)] end.
    case_match; [|apply returns_lock_ret].
    apply returns_lock_bind; [apply returns_lock_select_send|].
    intros []; [apply returns_lock_ret|apply returns_lock_log].
  - intros a w1 H1. unfold bind, mu_RUnlock, modify. cbn [extend].
    match goal with |- lock_kept _ (presence_loop l data ?w2) =>
      assert (H2 : mu w2 = mu w); [|rewrite <- H2; apply IH] end.
    hub_cbn. rewrite H1. hub_cbn. destruct (mu w) as [wr rd]. cbn in *. subst wr. reflexivity.
  - intros p w1. exact I.
Qed.

Lemma returns_lock_broadcastPresence u b : returns_lock (broadcastPresence u b).
Proof.
  unfold broadcastPresence. apply returns_lock_bind; [apply returns_lock_db_query_contacts|].
  intros [rows|]; [|apply returns_lock_log].
  apply returns_lock_bind; [apply returns_lock_time_Now|]. intros t.
  apply returns_lock_bind; [apply returns_lock_time_Now|]. intros ts.
  cbv zeta. case_match; [apply returns_lock_presence_loop|apply returns_lock_log].
Qed.

Lemma returns_lock_BroadcastToUser u m : returns_lock (BroadcastToUser u m).
Proof.
  unfold BroadcastToUser. apply returns_lock_RLocked.
  apply returns_lock_bind; [apply returns_lock_get|]. intros [c|]; [|apply returns_lock_ret].
  case_match; [|apply returns_lock_log].
  apply returns_lock_bind; [apply returns_lock_select_send|].
  intros []; [apply returns_lock_ret|apply returns_lock_log].
Qed.

Lemma returns_lock_BroadcastToUsers l m : returns_lock (BroadcastToUsers l m).
Proof.
  unfold BroadcastToUsers. case_match; [|apply returns_lock_log].
  apply returns_lock_RLocked. apply returns_lock_users_loop.
Qed.

Lemma returns_lock_BroadcastToGroup g m x : returns_lock (BroadcastToGroup g m x).
Proof.
  unfold BroadcastToGroup. apply returns_lock_bind; [apply returns_lock_db_query_members|].
  intros [rows|]; [|apply returns_lock_log].
  case_match; [|apply returns_lock_log].
  apply returns_lock_RLocked.
  eapply returns_lock_ext; [intros w; apply group_loop_filter|apply returns_lock_users_loop].
Qed.

Lemma returns_lock_handleIncomingMessage c msg : returns_lock (handleIncomingMessage c msg).
Proof.
  unfold handleIncomingMessage, handleTypingStart, handleTypingStop. cbv zeta.
  case_decide; [|case_decide; [|apply returns_lock_log]];
    (apply returns_lock_bind; [apply returns_lock_time_Now|]; intros t;
     case_decide; [apply returns_lock_BroadcastToGroup|];
     case_decide; [apply returns_lock_BroadcastToUsers|apply returns_lock_ret]).
Qed.

Lemma returns_lock_ReadPump_loop c script : returns_lock (ReadPump_loop c script).
Proof.
  induction script as [|ev script IH]; [intros w; exact I|].
  assert (Hbody : ∀ message, returns_lock (ReadPump_body c message)).
  { intros [message|unexpected]; unfold ReadPump_body.
    - case_match.
      + apply returns_lock_bind; [apply returns_lock_handleIncomingMessage|].
        intros _. apply returns_lock_ret.
      + apply returns_lock_bind; [apply returns_lock_log|]. intros _. apply returns_lock_ret.
    - apply returns_lock_bind; [|intros _; apply returns_lock_ret].
      destruct unexpected; [apply returns_lock_log|apply returns_lock_ret]. }
  destruct ev as [|unexpected|message]; cbn [ReadPump_loop].
  - apply returns_lock_bind; [apply returns_lock_time_Now|]. intros t.
    apply returns_lock_bind; [apply returns_lock_modify; reflexivity|]. intros _. exact IH.
  - apply returns_lock_bind; [apply Hbody|]. intros _. apply returns_lock_ret.
  - apply returns_lock_bind; [apply Hbody|].
    intros []; [exact IH|apply returns_lock_ret].
Qed.

Lemma returns_lock_ReadPump c script : returns_lock (ReadPump c script).
Proof.
  intros w. unfold ReadPump, defer.
  eapply lock_kept_extend.
  - match goal with |- lock_kept _ (?m ?w0) =>
      assert (Hm : returns_lock m); [|exact (Hm w0)] end.
    apply returns_lock_bind; [apply returns_lock_time_Now|].
    intros t. apply returns_lock_bind; [apply returns_lock_modify; reflexivity|].
    intros _. apply returns_lock_ReadPump_loop.
  - intros a w1 H1. unfold bind, send_Unregister, conn_Close, modify.
    cbn [extend lock_kept]. hub_cbn. intros w' Hw'. congruence.
  - intros p w1. unfold bind, send_Unregister, conn_Close, modify.
    cbn [extend lock_kept]. intros w' Hw'. exact I.
Qed.

Lemma returns_lock_SendMessage c msg : returns_lock (SendMessage c msg).
Proof.
  unfold SendMessage. case_match; [|apply returns_lock_ret].
  apply returns_lock_bind; [apply returns_lock_select_send|]. intros sent.
  apply returns_lock_bind; [|intros _; apply returns_lock_ret].
  destruct sent; [apply returns_lock_ret|].
  apply returns_lock_bind; [apply returns_lock_close|]. intros _.
  apply returns_lock_send_Unregister.
Qed.

(** X15.  Every call of the package that returns hands the hub's lock back
    exactly as it found it; a lock is left held only by a call that
    parked or panicked.  [SendMessage] and [ReadPump] can wait in a send
    to the hub on their way: what is left of them then returns with the
    lock as the call found it, when the lock is, as they go on, what it
    was as they began to wait. *)
Theorem calls_return_the_lock :
  (∀ c, returns_lock (registerClient c)) ∧
  (∀ c, returns_lock (unregisterClient c)) ∧
  (∀ u b, returns_lock (broadcastPresence u b)) ∧
  (∀ u m, returns_lock (BroadcastToUser u m)) ∧
  (∀ l m, returns_lock (BroadcastToUsers l m)) ∧
  (∀ g m x, returns_lock (BroadcastToGroup g m x)) ∧
  (∀ u, returns_lock (IsUserOnline u)) ∧
  returns_lock GetOnlineUsers ∧ returns_lock GetOnlineCount ∧
  (∀ c msg, returns_lock (SendMessage c msg)) ∧
  (∀ c script, returns_lock (ReadPump c script)).
Proof.
  split; [|split; [|split; [|split; [|split; [|split; [|split; [|split; [|split;
    [|split]]]]]]]]]; intros.
  - apply returns_lock_of_sendless; [apply sendless_registerClient|].
    intros w a w' Hrun. pose proof (registerClient_inv c w) as Hinv. rewrite Hrun in Hinv.
    destruct Hinv as [-> _]. destruct (decide (mu w = mu_free)) as [->|Hne]; [reflexivity|].
    rewrite (registerClient_busy c w Hne) in Hrun. discriminate.
  - apply returns_lock_of_sendless; [apply sendless_unregisterClient|].
    intros w a w' Hrun. pose proof (unregisterClient_inv c w) as Hinv. rewrite Hrun in Hinv.
    destruct Hinv as [-> _]. destruct (decide (mu w = mu_free)) as [->|Hne]; [reflexivity|].
    rewrite (unregisterClient_busy c w Hne) in Hrun. discriminate.
  - apply returns_lock_broadcastPresence.
  - apply returns_lock_BroadcastToUser.
  - apply returns_lock_BroadcastToUsers.
  - apply returns_lock_BroadcastToGroup.
  - apply returns_lock_RLocked. apply returns_lock_get.
  - apply returns_lock_RLocked. apply returns_lock_get.
  - apply returns_lock_RLocked. apply returns_lock_get.
  - apply returns_lock_SendMessage.
  - apply returns_lock_ReadPump.
Qed.

(** *** Connecting and disconnecting *)

(** All that [registerClient] does for a user not yet registered and
    [unregisterClient] for a client in its own slot. *)
Lemma registerClient_fresh_frame client w :
  mu w = mu_free → Clients w !! ID client = None →
  ∃ w', Clients w' = <[ID client := client]> (Clients w) ∧ chans w' = chans w ∧
        Register w' = Register w ∧ Unregister w' = Unregister w ∧ conns w' = conns w ∧
        (registerClient client w = Ok tt w' ∧ mu w' = mu_free ∧
           presence_skipped (ID client) true w ∨
         registerClient client w = Blocked w' ∧ db_up w = true ∧
           contacts_of (ID client) (contacts w) ≠ []).
Proof.
  intros Hmu Hc. unfold registerClient. hub_unfold.
  open_world w. rewrite Hc; hub_cbn.
  destruct db_up0; hub_cbn; presence_tail broadcastPresence_locked.
Qed.

Lemma unregisterClient_present_frame c e ch w :
  mu w = mu_free → Clients w !! ID c = Some e →
  chans w !! Send c = Some ch → closed ch = false →
  ∃ w', Clients w' = delete (ID c) (Clients w) ∧
        chans w' = <[Send c := mkChan (buf ch) (cap ch) true]> (chans w) ∧
        Register w' = Register w ∧ Unregister w' = Unregister w ∧ conns w' = conns w ∧
        (unregisterClient c w = Ok tt w' ∧ mu w' = mu_free ∧
           presence_skipped (ID c) false w ∨
         unregisterClient c w = Blocked w' ∧ db_up w = true ∧
           contacts_of (ID c) (contacts w) ≠ []).
Proof.
  intros Hmu Hc Hch Hopen. unfold unregisterClient. hub_unfold.
  open_world w. rewrite Hc; hub_cbn. rewrite Hch, Hopen; hub_cbn.
  destruct db_up0; hub_cbn; presence_tail broadcastPresence_locked.
Qed.

Lemma NewClient_run u q conn w :
  ∃ k, chans w !! k = None ∧
       NewClient u q conn w =
         Ok (mkClient u q conn k) (set_chans (insert k (make_chan 256)) w).
Proof.
  exists (fresh (dom (chans w))). split; [|reflexivity].
  apply not_elem_of_dom. apply is_fresh.
Qed.

(** The registry stays well-formed when a client owning an unused channel
    takes its user's slot and the slot's previous owner, if any, has its
    channel closed. *)
Lemma registry_wf_register c w w2 :
  registry_wf w →
  (∀ u' c', Clients w !! u' = Some c' → Send c' ≠ Send c) →
  Clients w2 = <[ID c := c]> (Clients w) →
  (∃ ch, chans w2 !! Send c = Some ch ∧ closed ch = false) →
  (∀ u' c', u' ≠ ID c → Clients w !! u' = Some c' →
            chans w2 !! Send c' = chans w !! Send c') →
  registry_wf w2.
Proof.
  intros [Hopen Hinj] Hfresh HC Hnew Hold. split.
  - intros u' c'. rewrite HC. destruct (decide (ID c = u')) as [<-|Hne].
    + rewrite lookup_insert_eq. intros [= <-]. exact Hnew.
    + rewrite lookup_insert_ne by exact Hne. intros Hc'.
      rewrite (Hold u' c') by auto. eauto.
  - intros u1 u2 c1 c2. rewrite HC.
    destruct (decide (ID c = u1)) as [<-|Hne1], (decide (ID c = u2)) as [<-|Hne2];
      rewrite ?lookup_insert_eq, ?lookup_insert_ne by assumption.
    + reflexivity.
    + intros [= <-] Hc2 Heq. destruct (Hfresh u2 c2 Hc2). congruence.
    + intros Hc1 [= <-] Heq. destruct (Hfresh u1 c1 Hc1). congruence.
    + apply Hinj.
Qed.

(** X16.  Connecting and disconnecting keep the registry well-formed
    (every registered client owns an open channel that no other user's
    client shares): a client made by [NewClient] and registered leaves it
    so, with the client in its user's slot and its buffer empty, open and
    of capacity 256; and so does unregistering a client that sits in its
    own slot. *)
Theorem connect_disconnect_keep_registry_wf (w : World) :
  registry_wf w →
  (∀ u q conn c w1 w2,
     NewClient u q conn w = Ok c w1 → registerClient c w1 = Ok tt w2 →
     registry_wf w2 ∧ Clients w2 !! u = Some c ∧
     chans w2 !! Send c = Some (make_chan 256)) ∧
  (∀ c w', Clients w !! ID c = Some c → unregisterClient c w = Ok tt w' →
           registry_wf w').
Proof.
  intros Hwf. split.
  - intros u q conn c w1 w2 Hnew Hreg.
    destruct (NewClient_run u q conn w) as (k & Hk & Hnew'). rewrite Hnew' in Hnew.
    inversion Hnew; subst c w1; clear Hnew Hnew'.
    set (c := mkClient u q conn k) in *.
    set (w1 := set_chans (insert k (make_chan 256)) w) in *.
    assert (Hfresh : ∀ u' c', Clients w !! u' = Some c' → Send c' ≠ Send c).
    { intros u' c' Hc' Heq. destruct (proj1 Hwf u' c' Hc') as (ch & Hch & _).
      rewrite Heq in Hch. cbn in Hch. congruence. }
    destruct (decide (mu w1 = mu_free)) as [Hmu|Hmu];
      [|rewrite (registerClient_busy c w1 Hmu) in Hreg; discriminate].
    destruct (Clients w1 !! ID c) as [e|] eqn:He.
    + destruct (proj1 Hwf u e He) as (che & Hche & Hcle).
      assert (Hne : Send e ≠ k) by (apply (Hfresh u e He)).
      assert (Hche1 : chans w1 !! Send e = Some che).
      { subst w1. hub_cbn. rewrite lookup_insert_ne by auto. exact Hche. }
      destruct (registerClient_replace c e che w1 Hmu He Hche1 Hcle)
        as (w' & HC & Hchs & [(Hr & _)|(Hr & _)]); rewrite Hr in Hreg; [|discriminate].
      injection Hreg as ->.
      assert (Hk2 : chans w2 !! Send c = Some (make_chan 256)).
      { rewrite Hchs. rewrite lookup_insert_ne by exact Hne. subst w1. hub_cbn.
        apply lookup_insert_eq. }
      split; [|split; [rewrite HC; apply lookup_insert_eq|exact Hk2]].
      apply (registry_wf_register c w w2 Hwf Hfresh HC); [eauto|].
      intros u' c' Hu' Hc'. rewrite Hchs.
      rewrite lookup_insert_ne.
      * subst w1. hub_cbn. apply lookup_insert_ne. intros Heq.
        apply (Hfresh u' c' Hc'). symmetry. exact Heq.
      * intros Heq. apply Hu'. symmetry. exact (proj2 Hwf u u' e c' He Hc' Heq).
    + destruct (registerClient_fresh c w1 Hmu He)
        as (w' & HC & Hchs & [(Hr & _)|(Hr & _)]); rewrite Hr in Hreg; [|discriminate].
      injection Hreg as ->.
      assert (Hk2 : chans w2 !! Send c = Some (make_chan 256)).
      { rewrite Hchs. subst w1. hub_cbn. apply lookup_insert_eq. }
      split; [|split; [rewrite HC; apply lookup_insert_eq|exact Hk2]].
      apply (registry_wf_register c w w2 Hwf Hfresh HC); [eauto|].
      intros u' c' Hu' Hc'. rewrite Hchs. subst w1. hub_cbn.
      apply lookup_insert_ne. intros Heq. apply (Hfresh u' c' Hc'). symmetry. exact Heq.
  - intros c w' Hc Hrun.
    destruct (proj1 Hwf (ID c) c Hc) as (ch & Hch & Hcl).
    destruct (decide (mu w = mu_free)) as [Hmu|Hmu];
      [|rewrite (unregisterClient_busy c w Hmu) in Hrun; discriminate].
    destruct (unregisterClient_present c c ch w Hmu Hc Hch Hcl)
      as (w'' & HC & Hchs & _ & _ & [(Hr & _)|(Hr & _)]); rewrite Hr in Hrun; [|discriminate].
    injection Hrun as ->. split.
    + intros u' c'. rewrite HC. intros Hc'. apply lookup_delete_Some in Hc' as [Hne Hc'].
      rewrite Hchs. rewrite lookup_insert_ne; [exact (proj1 Hwf u' c' Hc')|].
      intros Heq. apply Hne. exact (proj2 Hwf (ID c) u' c c' Hc Hc' Heq).
    + intros u1 u2 c1 c2. rewrite HC. intros H1 H2.
      apply lookup_delete_Some in H1 as [_ H1]. apply lookup_delete_Some in H2 as [_ H2].
      exact (proj2 Hwf u1 u2 c1 c2 H1 H2).
Qed.

Lemma Run_iter_after_send_Register (pick : RunCase) (c : Client) (w : World) :
  Register w = [] → Unregister w = [] →
  Run_iter pick (final (send_Register c w)) = registerClient c w.
Proof.
  intros Hr Hu. destruct w. cbn in Hr, Hu. subst.
  destruct pick; reflexivity.
Qed.

(** X17.  A whole connection as [WebSocketHandler] drives it, end to end.
    With nobody waiting at the hub's intakes, a client is made for a user
    who is not registered and sent to the [Register] intake, the hub's
    loop takes it and registers it, the read loop runs over whatever the
    socket delivers until its deferred function waits in the send to the
    [Unregister] intake, the hub's loop takes that request, and the read
    loop's goroutine goes on and returns: the registry is then exactly
    what it was before the connection, no request is left at the intakes,
    the client's channel is closed and so is its connection. *)
Theorem connection_lifecycle
    (u q : string) (conn : positive) (script : list ReadEvent)
    (c : Client) (resume : World → outcome unit) (w w1 w2 w3 w4 : World) :
  mu w = mu_free → Register w = [] → Unregister w = [] → Clients w !! u = None →
  NewClient u q conn w = Ok c w1 →
  Run_iter RecvRegister (final (send_Register c w1)) = Ok tt w2 →
  ReadPump c script w2 = Sending resume w3 →
  resume (final (Run_iter RecvUnregister w3)) = Ok tt w4 →
  Clients w4 = Clients w ∧ Register w4 = [] ∧ Unregister w4 = [] ∧
  (∃ ch, chans w4 !! Send c = Some ch ∧ closed ch = true) ∧
  (∀ s, conns w4 !! Conn c = Some s → connClosed s = true).
Proof.
  intros Hmu Hrq Hq Hu Hnew Hreg Hread Hres.
  destruct (NewClient_run u q conn w) as (k & Hk & Hnew'). rewrite Hnew' in Hnew.
  inversion Hnew; subst c w1; clear Hnew Hnew'.
  set (c := mkClient u q conn k) in *.
  rewrite Run_iter_after_send_Register in Hreg by assumption.
  (* registration *)
  destruct (registerClient_fresh_frame c (set_chans (insert k (make_chan 256)) w) Hmu Hu)
    as (w' & HC2 & Hch2 & HR2 & HU2 & _ & [(Hr & Hmu2 & _)|(Hr & _)]);
    rewrite Hr in Hreg; [|discriminate].
  injection Hreg as ->. hub_cbn.
  (* the read loop, up to its send *)
  set (P := λ w', Clients w' = Clients w2 ∧
                  (λ ch, (cap ch, closed ch)) <$> chans w' !! k = Some (256, false)).
  assert (HPs : push_stable P).
  { unfold push_stable, stable, P.
    split; [|split; [|split]; intros g w0 [H1 H2]; split; assumption].
    intros w0 k0 c0 d [H1 H2] Hc0 Hcl0 _. split; [exact H1|]. hub_cbn.
    destruct (decide (k0 = k)) as [->|Hne].
    - rewrite lookup_insert_eq. rewrite Hc0 in H2. exact H2.
    - rewrite lookup_insert_ne by exact Hne. exact H2. }
  assert (HP2 : P w2).
  { split; [reflexivity|]. rewrite Hch2, lookup_insert_eq. reflexivity. }
  assert (HP3 : P w3).
  { pose proof (preserves_ReadPump_light P HPs (λ _ _ w0 H0, H0) c script
                  (λ f w0 H0, H0) (λ _ w0 H0, H0) w2 HP2) as Hp.
    rewrite Hread in Hp. exact (proj1 Hp). }
  destruct HP3 as [HC3 Hsh3].
  assert (HR3 : Register w3 = []).
  { assert (Hs : push_stable (λ w', Register w' = [])).
    { unfold push_stable, stable. split; [|split; [|split]]; intros; assumption. }
    pose proof (preserves_ReadPump_light _ Hs (λ _ _ w0 H0, H0) c script
                  (λ f w0 H0, H0) (λ _ w0 H0, H0) w2) as Hp.
    rewrite Hread in Hp. apply Hp. rewrite HR2. exact Hrq. }
  pose proof (ReadPump_exit c script w2) as Hexit. rewrite Hread in Hexit.
  destruct Hexit as (HU3 & _ & Hrest). rewrite HU2, Hq in HU3. cbn [app] in HU3.
  destruct Hrest as [Hrest|(p & Hrest)]; [|rewrite Hrest in Hres; discriminate].
  assert (Hmu3 : mu w3 = mu_free).
  { pose proof (returns_lock_ReadPump c script w2) as Hl. rewrite Hread in Hl.
    specialize (Hl w3 eq_refl). rewrite Hrest in Hl. rewrite <- Hmu2. exact Hl. }
  (* the hub's turn *)
  rewrite Hrest in Hres. rewrite (Run_iter_unregister c [] w3 HU3) in Hres.
  destruct (chans w3 !! k) as [ch3|] eqn:Hch3; [|discriminate].
  injection Hsh3 as Hcap3 Hcl3.
  assert (Hc3 : Clients w3 !! ID c = Some c).
  { rewrite HC3, HC2. apply lookup_insert_eq. }
  destruct (unregisterClient_present_frame c c ch3 (set_Unregister (λ _, []) w3)
              Hmu3 Hc3 Hch3 Hcl3)
    as (wR & HC4 & Hch4 & HR4 & HU4 & Hcn4 & Hrun).
  assert (Hfin : final (unregisterClient c (set_Unregister (λ _, []) w3)) = wR).
  { destruct Hrun as [(Hr4 & _)|(Hr4 & _)]; rewrite Hr4; reflexivity. }
  rewrite Hfin in Hres. injection Hres as <-. hub_cbn.
  split; [|split; [rewrite HR4; exact HR3|split; [exact HU4|split]]].
  - rewrite HC4, HC3, HC2. apply delete_insert_id. exact Hu.
  - exists (mkChan (buf ch3) (cap ch3) true). split; [|reflexivity].
    rewrite Hch4. apply lookup_insert_eq.
  - intros s. apply (closed_after_conn_Close (Conn c) wR).
Qed.

End Keeping.

(** ** The write loop *)

Section Writing.
Context `{RT : Runtime}.

Lemma text_frames_app a b : text_frames (a ++ b) = text_frames a ++ text_frames b.
Proof. unfold text_frames. apply omap_app. Qed.

(** What a run of the loop does, whatever the script: it adds to [out],
    takes from the front of its own buffer exactly the messages it wrote
    as text frames, in order, and leaves registry, queues, connections
    and every other channel alone. *)
Lemma WritePump_loop_run c script :
  ∀ out w ch, chans w !! Send c = Some ch →
  ∃ extra ch',
    fst (WritePump_loop c script out w) = out ++ extra ∧
    chans (final (snd (WritePump_loop c script out w))) !! Send c = Some ch' ∧
    buf ch = text_frames extra ++ buf ch' ∧ cap ch' = cap ch ∧ closed ch' = closed ch ∧
    Clients (final (snd (WritePump_loop c script out w))) = Clients w ∧
    Register (final (snd (WritePump_loop c script out w))) = Register w ∧
    Unregister (final (snd (WritePump_loop c script out w))) = Unregister w ∧
    conns (final (snd (WritePump_loop c script out w))) = conns w ∧
    ∀ k, k ≠ Send c →
         chans (final (snd (WritePump_loop c script out w))) !! k = chans w !! k.
Proof.
  induction script as [|ev script IH]; intros out w ch Hch.
  - exists [], ch. cbn. rewrite app_nil_r. split_and!; auto.
  - destruct ev as [writeOk|writeOk]; cbn [WritePump_loop].
    + unfold select_recv. rewrite Hch. destruct (buf ch) as [|m l] eqn:Hbuf.
      * destruct (closed ch) eqn:Hcl.
        -- cbn. eexists [_; _], ch. rewrite <- app_assoc. cbn.
           split_and!; auto.
        -- exists [], ch. cbn. rewrite app_nil_r. split_and!; auto.
      * cbn [time_Now]. set (w2 := set_clock tick _).
        assert (Hch2 : chans w2 !! Send c = Some (mkChan l (cap ch) (closed ch))).
        { subst w2. hub_cbn. apply lookup_insert_eq. }
        assert (Hother : ∀ k, k ≠ Send c → chans w2 !! k = chans w !! k).
        { intros k Hk. subst w2. hub_cbn. apply lookup_insert_ne. auto. }
        destruct writeOk; cbv beta iota zeta; cbn [clock set_chans].
        -- destruct (IH ((out ++ [SetWriteDeadline (clock w + 10)%Z]) ++
                          [WriteMessage TextMessage m]) w2 _ Hch2)
             as (extra & ch' & Hout & Hc' & Hb & Hcap & Hcl & HC & HR & HU & Hcn & Hk).
           exists ([SetWriteDeadline (clock w + 10)%Z; WriteMessage TextMessage m] ++ extra), ch'.
           split; [rewrite Hout; rewrite <- !app_assoc; reflexivity|].
           split_and!; try assumption.
           ++ rewrite text_frames_app. cbn. f_equal. exact Hb.
           ++ intros k Hne. rewrite (Hk k Hne). apply Hother. exact Hne.
        -- exists [SetWriteDeadline (clock w + 10)%Z; WriteMessage TextMessage m; LogWriteError],
                  (mkChan l (cap ch) (closed ch)).
           cbn. rewrite <- !app_assoc. cbn. split_and!; auto.
    + cbn [time_Now]. set (w2 := set_clock tick w).
      destruct writeOk; cbv beta iota zeta.
      * destruct (IH (out ++ [SetWriteDeadline (clock w + 10)%Z; WriteMessage PingMessage []])
                    w2 ch Hch)
          as (extra & ch' & Hout & Hc' & Hb & Hcap & Hcl & HC & HR & HU & Hcn & Hk).
        exists ([SetWriteDeadline (clock w + 10)%Z; WriteMessage PingMessage []] ++ extra), ch'.
        split; [rewrite Hout; rewrite <- !app_assoc; reflexivity|].
        split_and!; assumption.
      * exists [SetWriteDeadline (clock w + 10)%Z; WriteMessage PingMessage []], ch.
        cbn. split_and!; auto.
Qed.

Lemma WritePump_unfold c script w :
  WritePump c script w =
    (fst (WritePump_loop c script [] w),
     match snd (WritePump_loop c script [] w) with
     | Ok _ w' => conn_Close (Conn c) w'
     | _ => snd (WritePump_loop c script [] w)
     end).
Proof. unfold WritePump. destruct (WritePump_loop c script [] w). reflexivity. Qed.

Lemma final_after_conn_Close c (o : outcome unit) :
  final (match o with Ok _ w' => conn_Close (Conn c) w' | _ => o end) =
  match o with
  | Ok _ w' => set_conns (alter (λ s, mkConnState (readDeadline s) true) (Conn c)) w'
  | _ => final o
  end.
Proof. destruct o; reflexivity. Qed.

(** X18.  [WritePump] writes the buffered messages as text frames in the
    order they were enqueued, each once, and takes out of the buffer
    exactly the ones it handed to the socket (a write the socket refused
    included): however it ends, what it has written followed by what is
    still buffered is what was buffered at the start.  It does not change
    the channel's capacity or close it. *)
Theorem WritePump_writes_in_order (c : Client) (script : list WriteEvent) (ch : Chan) (w : World) :
  chans w !! Send c = Some ch →
  ∃ ch', chans (final (snd (WritePump c script w))) !! Send c = Some ch' ∧
         buf ch = text_frames (fst (WritePump c script w)) ++ buf ch' ∧
         cap ch' = cap ch ∧ closed ch' = closed ch.
Proof.
  intros Hch. rewrite WritePump_unfold. cbn [fst snd]. rewrite final_after_conn_Close.
  destruct (WritePump_loop_run c script [] w ch Hch)
    as (extra & ch' & Hout & Hc' & Hb & Hcap & Hcl & _).
  exists ch'. rewrite Hout. cbn [app]. split; [|auto].
  destruct (snd (WritePump_loop c script [] w)); exact Hc'.
Qed.

(** X19.  [WritePump] keeps to its own channel and connection: the
    registry, both intake queues and every other channel are as before
    however it ends (so it never asks the hub to unregister anybody), and
    when it returns its connection is closed. *)
Theorem WritePump_keeps_to_itself (c : Client) (script : list WriteEvent) (ch : Chan) (w : World) :
  chans w !! Send c = Some ch →
  let w' := final (snd (WritePump c script w)) in
  Clients w' = Clients w ∧ Register w' = Register w ∧ Unregister w' = Unregister w ∧
  (∀ k, k ≠ Send c → chans w' !! k = chans w !! k) ∧
  (∀ w'', snd (WritePump c script w) = Ok tt w'' →
          ∀ s, conns w'' !! Conn c = Some s → connClosed s = true).
Proof.
  intros Hch. cbv zeta. rewrite WritePump_unfold. cbn [fst snd].
  rewrite final_after_conn_Close.
  destruct (WritePump_loop_run c script [] w ch Hch)
    as (extra & ch' & _ & _ & _ & _ & _ & HC & HR & HU & _ & Hk).
  destruct (snd (WritePump_loop c script [] w)) as [[] w1|p w1|w1|r w1]; hub_cbn;
    (split; [exact HC|split; [exact HR|split; [exact HU|split; [exact Hk|]]]]);
    try (intros; discriminate).
  intros w'' Heq s. unfold conn_Close, modify in Heq. injection Heq as <-. hub_cbn.
  rewrite lookup_alter_eq. destruct (conns w1 !! Conn c); cbn; intros [= <-]. reflexivity.
Qed.

Lemma WritePump_loop_goodbye c writeOk rest :
  ∀ msgs out w cp, chans w !! Send c = Some (mkChan msgs cp true) →
  ∃ extra w',
    WritePump_loop c (replicate (length msgs) (SendReady true) ++ SendReady writeOk :: rest)
      out w = (out ++ extra ++ [WriteMessage CloseMessage []], Ok tt w') ∧
    text_frames extra = msgs ∧
    chans w' !! Send c = Some (mkChan [] cp true).
Proof.
  induction msgs as [|m msgs IH]; intros out w cp Hch.
  - cbn [length replicate app WritePump_loop]. unfold select_recv. rewrite Hch. cbn.
    eexists [_], _. rewrite <- app_assoc. split; [reflexivity|]. split; [reflexivity|exact Hch].
  - cbn [length replicate app WritePump_loop]. unfold select_recv. rewrite Hch.
    cbn [buf cap closed time_Now].
    set (w2 := set_clock tick _).
    assert (Hch2 : chans w2 !! Send c = Some (mkChan msgs cp true)).
    { subst w2. hub_cbn. apply lookup_insert_eq. }
    destruct (IH ((out ++ [SetWriteDeadline (clock w + 10)%Z]) ++ [WriteMessage TextMessage m])
                w2 cp Hch2) as (extra & w' & Hrun & Htext & Hc').
    exists ([SetWriteDeadline (clock w + 10)%Z; WriteMessage TextMessage m] ++ extra), w'.
    hub_cbn. rewrite Hrun. rewrite <- !app_assoc. cbn.
    split; [reflexivity|]. split; [|exact Hc']. f_equal. exact Htext.
Qed.

(** X20.  Once its channel is closed (by a newer registration, by an
    unregistration or by an overflowing [SendMessage]), [WritePump] still
    writes out everything that is buffered, in order, as long as the
    socket takes it; then it writes one close frame, returns, and its
    connection is closed. *)
Theorem WritePump_drains_then_says_goodbye
    (c : Client) (ch : Chan) (writeOk : bool) (rest : list WriteEvent) (w : World) :
  chans w !! Send c = Some ch → closed ch = true →
  ∃ out w',
    WritePump c (replicate (length (buf ch)) (SendReady true) ++ SendReady writeOk :: rest) w =
      (out ++ [WriteMessage CloseMessage []], Ok tt w') ∧
    text_frames out = buf ch ∧
    chans w' !! Send c = Some (mkChan [] (cap ch) true) ∧
    ∀ s, conns w' !! Conn c = Some s → connClosed s = true.
Proof.
  intros Hch Hcl. destruct ch as [msgs cp cl]. cbn in *. subst cl.
  destruct (WritePump_loop_goodbye c writeOk rest msgs [] w cp Hch)
    as (extra & w' & Hrun & Htext & Hc').
  unfold WritePump. rewrite Hrun. cbn [app].
  eexists extra, _. split; [reflexivity|]. split; [exact Htext|]. split; [exact Hc'|].
  intros s. hub_cbn. rewrite lookup_alter_eq.
  destruct (conns w' !! Conn c); cbn; intros [= <-]. reflexivity.
Qed.

(** *** A group message, as its sender and the other members see it *)

Lemma BroadcastToGroup_pushed groupID message exclude data w :
  db_up w = true → writer (mu w) = false → json_Marshal message = inl data →
  registry_wf w → NoDup (members_of groupID (group_members w)) →
  ∃ w', BroadcastToGroup groupID message exclude w = Ok tt w' ∧
        pushed_to (filter (λ u, u ≠ exclude) (members_of groupID (group_members w)))
                  data w w'.
Proof.
  intros Hdb Hmu Hm Hwf Hnd.
  unfold BroadcastToGroup. unfold bind at 1. unfold db_query_members. rewrite Hdb, Hm.
  cbn [extend]. apply users_loop_under_RLock; auto.
  - intros w0. apply group_loop_filter.
  - apply NoDup_filter. exact Hnd.
Qed.

(** X21.  The hub part of [SendGroupMessage]: with the store up, the lock
    to be had, the registry well-formed and both envelopes serializable,
    it returns; the sender's buffer got the [group_message_sent] envelope
    if it had room and nothing else, in particular never the
    [group_message_received] one; every other registered user's buffer
    got the [group_message_received] envelope if the user is a member of
    the group and had room, and is as it was otherwise. *)
Theorem SendGroupMessage_sender_gets_confirmation_only
    (groupID userID : string) (payload : GroupMessagePayload)
    (cS : Client) (chS : Chan) (dataR : bytes) (w : World) :
  writer (mu w) = false → db_up w = true → registry_wf w →
  NoDup (members_of groupID (group_members w)) →
  json_Marshal (mkWSMessage EventGroupMessageReceived (PGroupMessage payload) (clock w))
    = inl dataR →
  (∀ ts, ∃ d, json_Marshal (mkWSMessage EventGroupMessageSent (PGroupMessage payload) ts)
              = inl d) →
  Clients w !! userID = Some cS → chans w !! Send cS = Some chS →
  ∃ w' ts dataS,
    SendGroupMessage_broadcast groupID userID payload w = Ok tt w' ∧
    json_Marshal (mkWSMessage EventGroupMessageSent (PGroupMessage payload) ts) = inl dataS ∧
    chans w' !! Send cS =
      Some (if decide (length (buf chS) < cap chS) then enqueue chS dataS else chS) ∧
    ∀ u c ch, u ≠ userID → Clients w !! u = Some c → chans w !! Send c = Some ch →
      chans w' !! Send c =
        Some (if decide (u ∈ members_of groupID (group_members w) ∧
                         length (buf ch) < cap ch)
              then enqueue ch dataR else ch).
Proof.
  intros Hmu Hdb Hwf Hnd HmR HmS HcS HchS.
  unfold SendGroupMessage_broadcast. unfold bind at 1. cbn [time_Now extend]. cbv zeta.
  set (w0 := set_clock tick w).
  assert (Hwf0 : registry_wf w0) by (apply (registry_wf_frame w); [reflexivity..|exact Hwf]).
  destruct (BroadcastToGroup_pushed groupID _ userID dataR w0 Hdb Hmu HmR Hwf0 Hnd)
    as (w1 & Hrun1 & HC1 & Hmu1 & Hin1 & Hout1).
  unfold bind at 1. rewrite Hrun1. cbn [extend]. unfold bind at 1. cbn [time_Now extend].
  set (w1' := set_clock tick w1).
  destruct (HmS (clock w1)) as (dataS & HdS).
  destruct (proj1 Hwf userID cS HcS) as (chS' & HchS' & HclS).
  assert (chS' = chS) as -> by congruence.
  assert (HchS1 : chans w1' !! Send cS = Some chS).
  { subst w1'. hub_cbn. rewrite Hout1; [exact HchS|].
    intros u c Hu Hc Heq. apply list_elem_of_filter in Hu as [Hne _].
    apply Hne. exact (proj2 Hwf u userID c cS Hc HcS Heq). }
  assert (HcS1 : Clients w1' !! userID = Some cS).
  { subst w1'. hub_cbn. rewrite HC1. exact HcS. }
  assert (Hmu1' : writer (mu w1') = false).
  { subst w1'. hub_cbn. rewrite Hmu1. exact Hmu. }
  rewrite (BroadcastToUser_present userID _ cS chS w1' Hmu1' HcS1 HchS1 HclS), HdS.
  eexists _, (clock w1), dataS. split; [reflexivity|]. split; [exact HdS|]. split.
  - destruct (decide (length (buf chS) < cap chS)); hub_cbn;
      [apply lookup_insert_eq|exact HchS1].
  - intros u c ch Hu Hc Hch.
    assert (HneS : Send cS ≠ Send c).
    { intros Heq. apply Hu. exact (proj2 Hwf u userID c cS Hc HcS (eq_sym Heq)). }
    assert (H1 : chans w1 !! Send c =
                 Some (if decide (u ∈ members_of groupID (group_members w) ∧
                                  length (buf ch) < cap ch)
                       then enqueue ch dataR else ch)).
    { destruct (decide (u ∈ members_of groupID (group_members w))) as [Hmem|Hmem].
      - rewrite (Hin1 u c ch); [|apply list_elem_of_filter; auto|exact Hc|exact Hch].
        f_equal. repeat case_decide; tauto.
      - rewrite Hout1.
        + rewrite decide_False by tauto. exact Hch.
        + intros u2 c2 Hu2 Hc2 Heq. apply list_elem_of_filter in Hu2 as [_ Hin2].
          apply Hmem. rewrite <- (proj2 Hwf u2 u c2 c Hc2 Hc Heq). exact Hin2. }
    assert (H1' : chans w1' !! Send c = chans w1 !! Send c) by reflexivity.
    rewrite <- H1, <- H1'.
    destruct (decide (length (buf chS) < cap chS)); hub_cbn;
      [apply lookup_insert_ne; exact HneS|reflexivity].
Qed.

End Writing.

(** ** The claims at work in the concrete world *)

Module Examples.
Import Demo.

Example second_registration_returns :
  @registerClient runtime alice2 w_alice = Ok tt w_alice_twice.
Proof. vm_compute. reflexivity. Qed.

Example second_registration_state :
  Clients w_alice_twice !! "alice" = Some alice2 ∧
  chans w_alice_twice !! Send alice1 = Some (mkChan [] 256 true).
Proof. split; vm_compute; reflexivity. Qed.

Lemma w_both_wf : registry_wf w_both.
Proof.
  split.
  - intros u c Hc. unfold w_both, world in Hc. cbn [Clients list_to_map foldr uncurry] in Hc.
    apply lookup_insert_Some in Hc as [[<- <-]|[_ Hc]]; [eexists; split; reflexivity|].
    apply lookup_insert_Some in Hc as [[<- <-]|[_ Hc]]; [eexists; split; reflexivity|].
    rewrite lookup_empty in Hc. discriminate.
  - intros u1 u2 c1 c2 H1 H2. unfold w_both, world in H1, H2.
    cbn [Clients list_to_map foldr uncurry] in H1, H2.
    apply lookup_insert_Some in H1 as [[<- <-]|[_ H1]];
      [|apply lookup_insert_Some in H1 as [[<- <-]|[_ H1]];
        [|rewrite lookup_empty in H1; discriminate]];
      (apply lookup_insert_Some in H2 as [[<- <-]|[_ H2]];
        [|apply lookup_insert_Some in H2 as [[<- <-]|[_ H2]];
          [|rewrite lookup_empty in H2; discriminate]]);
      cbn; intros Heq; first [reflexivity|discriminate].
Qed.

(** C1: the older of Alice's two clients is unregistered after the newer
    one was registered. *)
Lemma unregister_stale_removes_newer_witness :
  ∃ w', @unregisterClient runtime alice1 w_alice_twice = Panic CloseOfClosedChannel w' ∧
        Clients w' !! ID alice1 = None.
Proof.
  apply (@unregister_stale_removes_newer runtime alice1 alice2 (mkChan [] 256 true)
           w_alice_twice);
    [reflexivity|reflexivity|discriminate|reflexivity|reflexivity].
Defined.

(** C2: Bob's buffer holds 256 frames when one more is sent to him. *)
Lemma overflow_then_unregister_closes_twice_witness :
  ∃ w1 w2, @SendMessage runtime bob hello w_bob_full = Sending (λ w', Ok None w') w1 ∧
           Unregister w1 = [bob] ∧
           chans w1 !! Send bob = Some (mkChan (buf full_chan) (cap full_chan) true) ∧
           @Run_iter runtime RecvUnregister w1 = Panic CloseOfClosedChannel w2.
Proof.
  apply (@overflow_then_unregister_closes_twice runtime bob full_chan hello
           (String.list_byte_of_string "message_received:alice") w_bob_full);
    [reflexivity|reflexivity|reflexivity|reflexivity|reflexivity| |reflexivity].
  unfold full. vm_compute. lia.
Defined.

(** C3: Alice connects a second time. *)
Lemma register_second_replaces_first_witness :
  ∃ w', (@registerClient runtime alice2 w_alice = Ok tt w' ∨
         @registerClient runtime alice2 w_alice = Blocked w') ∧
        Clients w' !! ID alice2 = Some alice2 ∧
        (∀ u, u ≠ ID alice2 → Clients w' !! u = Clients w_alice !! u) ∧
        size (Clients w') = size (Clients w_alice) ∧
        chans w' !! Send alice1 =
          Some (mkChan (buf (make_chan 256)) (cap (make_chan 256)) true).
Proof.
  apply (@register_second_replaces_first runtime alice1 alice2 (make_chan 256) w_alice);
    reflexivity.
Defined.

(** C5: Alice's client is unregistered twice. *)
Lemma unregister_twice_noop_witness :
  @unregisterClient runtime alice1 w_alice_gone = Ok tt w_alice_gone.
Proof.
  apply (@unregister_twice_noop runtime alice1 w_alice w_alice_gone).
  vm_compute. reflexivity.
Defined.

(** C8: Alice, a contact of Bob's, connects while Bob is connected. *)
Lemma presence_parks_on_own_lock_witness :
  ∃ w', @registerClient runtime alice1 w_bob = Blocked w' ∧ buffers_untouched w_bob w'.
Proof.
  apply (@presence_parks_on_own_lock runtime alice1 w_bob).
  - reflexivity.
  - reflexivity.
  - vm_compute. discriminate.
  - intros b t ts. eexists. reflexivity.
  - intros e He. vm_compute in He. discriminate.
Defined.

(** C4, as stated, at Bob with his buffer full: Bob is registered and
    yet the event is not delivered. *)
Lemma BroadcastToUser_full_buffer_drops :
  ¬ (@user_receives runtime "bob" hello w_bob_full ↔
     is_Some (Clients w_bob_full !! "bob")).
Proof.
  intros [_ Hback].
  destruct Hback as (client & ch & data & w' & Hc & Hch & Hm & Hrun & Hbuf);
    [eexists; reflexivity|].
  vm_compute in Hc. injection Hc as <-.
  vm_compute in Hch. injection Hch as <-.
  vm_compute in Hm. injection Hm as <-.
  vm_compute in Hrun. injection Hrun as <-.
  apply (f_equal (fmap (M:=option) length)) in Hbuf. vm_compute in Hbuf. discriminate.
Qed.

(** C4 (amended) at Bob with an empty buffer, and at Bob with his buffer
    full: the event is dropped for one line in the log. *)
Lemma BroadcastToUser_delivers_iff_room_witness :
  @user_receives runtime "bob" hello w_bob ∧
  @BroadcastToUser runtime "bob" hello w_bob_full =
    Ok tt (set_logs (λ ls, ls ++ [LogSendFailed "bob"]) w_bob_full).
Proof.
  split.
  - destruct (@BroadcastToUser_delivers_iff_room runtime "bob" hello w_bob)
      as (_ & _ & Hiff & _).
    + reflexivity.
    + intros client Hc. vm_compute in Hc. injection Hc as <-.
      eexists. split; reflexivity.
    + apply Hiff. exists bob, (make_chan 256). eexists.
      split; [reflexivity|]. split; [reflexivity|]. split; [reflexivity|]. cbn. lia.
  - destruct (@BroadcastToUser_delivers_iff_room runtime "bob" hello w_bob_full)
      as (Hworld & _).
    + reflexivity.
    + intros client Hc. vm_compute in Hc. injection Hc as <-.
      eexists. split; reflexivity.
    + rewrite (Hworld bob full_chan eq_refl eq_refl). vm_compute. reflexivity.
Defined.

(** C6, as stated, at group "g" with Bob's buffer full: Bob is a
    registered member, is not the excluded id, and gets nothing. *)
Lemma BroadcastToGroup_full_buffer_drops :
  ¬ @group_receives runtime "g" hello "alice" w_bob_full.
Proof.
  intros (data & w' & Hm & Hrun & Hall).
  specialize (Hall "bob" bob full_chan eq_refl eq_refl).
  vm_compute in Hm. injection Hm as <-.
  vm_compute in Hrun. injection Hrun as <-.
  apply (f_equal (fmap (M:=option) length)) in Hall. vm_compute in Hall. discriminate.
Qed.

Lemma w_bob_full_wf : registry_wf w_bob_full.
Proof.
  split.
  - intros u c Hc. unfold w_bob_full, world in Hc.
    cbn [Clients list_to_map foldr uncurry] in Hc.
    apply lookup_insert_Some in Hc as [[<- <-]|[_ Hc]]; [eexists; split; reflexivity|].
    rewrite lookup_empty in Hc. discriminate.
  - intros u1 u2 c1 c2 H1 H2. unfold w_bob_full, world in H1, H2.
    cbn [Clients list_to_map foldr uncurry] in H1, H2.
    apply lookup_insert_Some in H1 as [[<- <-]|[_ H1]];
      [|rewrite lookup_empty in H1; discriminate].
    apply lookup_insert_Some in H2 as [[<- <-]|[_ H2]];
      [|rewrite lookup_empty in H2; discriminate].
    reflexivity.
Qed.

(** C6 (amended) at group "g" = {Alice, Bob}, Alice excluded: with both
    connected and room in Bob's buffer, Bob gets the event and nothing is
    logged; with Bob's buffer full, Bob's channel is as it was and the log
    has one line for him. *)
Lemma BroadcastToGroup_delivers_where_room_witness :
  (∃ w', @BroadcastToGroup runtime "g" hello "alice" w_both = Ok tt w' ∧
         chans w' !! Send bob =
           Some (enqueue (make_chan 256)
                   (String.list_byte_of_string "message_received:alice")) ∧
         chans w' !! Send alice1 = Some (make_chan 256) ∧
         logs w' = logs w_both) ∧
  (∃ w', @BroadcastToGroup runtime "g" hello "alice" w_bob_full = Ok tt w' ∧
         chans w' !! Send bob = Some full_chan ∧
         logs w' = logs w_bob_full ++ [LogSendFailed "bob"]).
Proof.
  split.
  - destruct (@BroadcastToGroup_delivers_where_room runtime "g" hello "alice"
                (String.list_byte_of_string "message_received:alice") w_both)
      as (w' & Hrun & _ & Hin & _ & Hl & _).
    + reflexivity.
    + reflexivity.
    + reflexivity.
    + exact w_both_wf.
    + apply (bool_decide_unpack (NoDup (members_of "g" (group_members w_both)))).
      vm_compute. exact I.
    + exists w'. split; [exact Hrun|]. split; [|split].
      * rewrite (Hin "bob" bob (make_chan 256) eq_refl eq_refl). reflexivity.
      * rewrite (Hin "alice" alice1 (make_chan 256) eq_refl eq_refl). reflexivity.
      * rewrite Hl. vm_compute. reflexivity.
  - destruct (@BroadcastToGroup_delivers_where_room runtime "g" hello "alice"
                (String.list_byte_of_string "message_received:alice") w_bob_full)
      as (w' & Hrun & _ & Hin & _ & Hl & _).
    + reflexivity.
    + reflexivity.
    + reflexivity.
    + exact w_bob_full_wf.
    + apply (bool_decide_unpack (NoDup (members_of "g" (group_members w_bob_full)))).
      vm_compute. exact I.
    + exists w'. split; [exact Hrun|]. split.
      * rewrite (Hin "bob" bob full_chan eq_refl eq_refl). vm_compute. reflexivity.
      * rewrite Hl. vm_compute. reflexivity.
Defined.

(** C7: a frame of the unknown type "x". *)
Lemma unknown_or_malformed_frame_ignored_witness :
  ∃ l, @ReadPump_body runtime alice1 (inl frame_x) w_alice =
         Ok true (set_logs (λ ls, ls ++ [l]) w_alice) ∧
       ∀ rest, @ReadPump_loop runtime alice1 (ReadFrame frame_x :: rest) w_alice =
               @ReadPump_loop runtime alice1 rest (set_logs (λ ls, ls ++ [l]) w_alice).
Proof.
  apply (@unknown_or_malformed_frame_ignored runtime alice1 frame_x w_alice).
  right. eexists. split; [reflexivity|]. split; discriminate.
Defined.

(** C9: Alice, connected, tells Bob she is typing. *)
Lemma typing_user_id_is_own_witness :
  ∃ w', @handleTypingStart runtime alice1 {["chatId" := JString "bob"]} w_both = Ok tt w' ∧
        Clients w' = Clients w_both ∧
        chans w' = <[Send bob := enqueue (make_chan 256)
                       (String.list_byte_of_string "typing_start:alice")]> (chans w_both).
Proof.
  apply (proj2 (proj2 (@typing_user_id_is_own runtime alice1))); try reflexivity.
  - discriminate.
  - cbn. lia.
Defined.



End Examples.

(** ** More worked cases *)

Module Cases.
Import Demo Scenes.

Ltac lookup_cases H :=
  repeat (apply lookup_insert_Some in H as [[<- <-]|[_ H]]);
  try (rewrite lookup_empty in H; discriminate).

Lemma w_bob_wf : registry_wf w_bob.
Proof.
  split.
  - intros u c Hc. unfold w_bob, world in Hc. cbn [Clients list_to_map foldr uncurry] in Hc.
    lookup_cases Hc. eexists; split; reflexivity.
  - intros u1 u2 c1 c2 H1 H2. unfold w_bob, world in H1, H2.
    cbn [Clients list_to_map foldr uncurry] in H1, H2.
    lookup_cases H1. lookup_cases H2. reflexivity.
Qed.

Lemma w_duo_wf : registry_wf w_both.
Proof.
  split.
  - intros u c Hc. unfold w_both, world in Hc. cbn [Clients list_to_map foldr uncurry] in Hc.
    lookup_cases Hc; eexists; split; reflexivity.
  - intros u1 u2 c1 c2 H1 H2. unfold w_both, world in H1, H2.
    cbn [Clients list_to_map foldr uncurry] in H1, H2.
    lookup_cases H1; lookup_cases H2; cbn; intros Heq; first [reflexivity|discriminate].
Qed.

Lemma w_lobby_wf : registry_wf w_lobby.
Proof.
  split.
  - intros u c Hc. unfold w_lobby in Hc. cbn [Clients list_to_map foldr uncurry] in Hc.
    lookup_cases Hc. eexists; split; reflexivity.
  - intros u1 u2 c1 c2 H1 H2. unfold w_lobby in H1, H2.
    cbn [Clients list_to_map foldr uncurry] in H1, H2.
    lookup_cases H1. lookup_cases H2. reflexivity.
Qed.

Lemma w_offline_store_bounded : buffers_bounded w_offline_store.
Proof.
  intros k ch Hch. unfold w_offline_store in Hch. cbn [chans list_to_map foldr uncurry] in Hch.
  lookup_cases Hch. apply Nat.leb_le. vm_compute. reflexivity.
Qed.

Lemma w_both_keyed : keyed_by_id w_both.
Proof.
  intros u c Hc. unfold w_both, world in Hc. cbn [Clients list_to_map foldr uncurry] in Hc.
  lookup_cases Hc; reflexivity.
Qed.

(** X1: Alice's second client registered, her first one unregistered. *)
Lemma IsUserOnline_tracks_registration_witness :
  @IsUserOnline "alice" w_alice_twice = Ok true w_alice_twice ∧
  @IsUserOnline "alice" w_alice_gone = Ok false w_alice_gone.
Proof.
  split.
  - apply (proj1 (@IsUserOnline_tracks_registration runtime alice2 w_alice w_alice_twice)).
    vm_compute. reflexivity.
  - apply (proj2 (@IsUserOnline_tracks_registration runtime alice1 w_alice w_alice_gone)).
    vm_compute. reflexivity.
Defined.

(** X2: Alice and Bob connected. *)
Lemma online_snapshots_agree_witness :
  ∃ l, GetOnlineUsers w_both = Ok l w_both ∧ NoDup l ∧
       GetOnlineCount w_both = Ok (length l) w_both ∧
       ∀ u, u ∈ l ↔ IsUserOnline u w_both = Ok true w_both.
Proof. apply (online_snapshots_agree w_both). reflexivity. Defined.

(** X3: Alice's registration parked while Bob, her contact, is connected. *)
Lemma parked_hub_blocks_every_call_witness :
  (∀ u, IsUserOnline u w_parked = Blocked w_parked) ∧
  GetOnlineUsers w_parked = Blocked w_parked ∧
  GetOnlineCount w_parked = Blocked w_parked ∧
  (∀ u m, @BroadcastToUser runtime u m w_parked = Blocked w_parked) ∧
  (∀ l m data, @json_Marshal runtime m = inl data →
               @BroadcastToUsers runtime l m w_parked = Blocked w_parked) ∧
  (∀ c, @registerClient runtime c w_parked = Blocked w_parked ∧
        @unregisterClient runtime c w_parked = Blocked w_parked).
Proof.
  apply (@parked_hub_blocks_every_call runtime alice1 w_bob w_parked).
  - reflexivity.
  - left. vm_compute. reflexivity.
Defined.

(** X4: one message for Bob, either way. *)
Lemma BroadcastToUsers_singleton_witness :
  @BroadcastToUsers runtime ["bob"] hello w_both = @BroadcastToUser runtime "bob" hello w_both.
Proof.
  apply (@BroadcastToUsers_singleton runtime "bob" hello
           (String.list_byte_of_string "message_received:alice") w_both).
  reflexivity.
Defined.

(** X5: group "g" without Alice is Bob alone; with the store down nothing
    is sent. *)
Lemma BroadcastToGroup_is_BroadcastToUsers_witness :
  @BroadcastToGroup runtime "g" hello "alice" w_both =
    @BroadcastToUsers runtime
      (filter (λ u, u ≠ "alice") (members_of "g" (group_members w_both))) hello w_both ∧
  @BroadcastToGroup runtime "g" hello "alice" w_offline_store =
    Ok tt (set_logs (λ ls, ls ++ [LogGetGroupMembersFailed]) w_offline_store).
Proof.
  split.
  - apply (proj1 (@BroadcastToGroup_is_BroadcastToUsers runtime "g" hello "alice" w_both)).
    reflexivity.
  - apply (proj2 (@BroadcastToGroup_is_BroadcastToUsers runtime "g" hello "alice"
                    w_offline_store)).
    reflexivity.
Defined.

(** X6: a message for Bob, Alice and Carol, who is not connected. *)
Lemma BroadcastToUsers_delivers_where_room_witness :
  ∃ w', @BroadcastToUsers runtime ["bob"; "alice"; "carol"] hello w_both = Ok tt w' ∧
        pushed_to ["bob"; "alice"; "carol"]
                  (String.list_byte_of_string "message_received:alice") w_both w'.
Proof.
  apply (@BroadcastToUsers_delivers_where_room runtime ["bob"; "alice"; "carol"] hello
           (String.list_byte_of_string "message_received:alice") w_both).
  - reflexivity.
  - reflexivity.
  - exact w_duo_wf.
  - apply (bool_decide_unpack (NoDup ["bob"; "alice"; "carol"])). vm_compute. exact I.
Defined.

(** X8: Bob's buffer is full and stays within its 256. *)
Lemma buffers_stay_bounded_witness :
  (∀ u q conn, buffers_bounded (final (NewClient u q conn w_offline_store))) ∧
  (∀ c, buffers_bounded (final (@registerClient runtime c w_offline_store))) ∧
  (∀ c, buffers_bounded (final (@unregisterClient runtime c w_offline_store))) ∧
  (∀ pick, buffers_bounded (final (@Run_iter runtime pick w_offline_store))) ∧
  (∀ u m, buffers_bounded (final (@BroadcastToUser runtime u m w_offline_store))) ∧
  (∀ l m, buffers_bounded (final (@BroadcastToUsers runtime l m w_offline_store))) ∧
  (∀ g m x, buffers_bounded (final (@BroadcastToGroup runtime g m x w_offline_store))) ∧
  (∀ c msg, buffers_bounded (final (@SendMessage runtime c msg w_offline_store))) ∧
  (∀ c script, buffers_bounded (final (@ReadPump runtime c script w_offline_store))) ∧
  (∀ c msg, ends_in buffers_bounded (@SendMessage runtime c msg w_offline_store)) ∧
  (∀ c script, ends_in buffers_bounded (@ReadPump runtime c script w_offline_store)).
Proof. apply (@buffers_stay_bounded runtime w_offline_store). exact w_offline_store_bounded. Defined.

(** X9: Alice and Bob each under their own id. *)
Lemma registry_stays_keyed_by_id_witness :
  (∀ c, keyed_by_id (final (@registerClient runtime c w_both))) ∧
  (∀ c, keyed_by_id (final (@unregisterClient runtime c w_both))) ∧
  (∀ pick, keyed_by_id (final (@Run_iter runtime pick w_both))) ∧
  (∀ c msg, keyed_by_id (final (@SendMessage runtime c msg w_both))) ∧
  (∀ c script, keyed_by_id (final (@ReadPump runtime c script w_both))) ∧
  (∀ c msg, ends_in keyed_by_id (@SendMessage runtime c msg w_both)) ∧
  (∀ c script, ends_in keyed_by_id (@ReadPump runtime c script w_both)).
Proof. apply (proj2 (@registry_stays_keyed_by_id runtime w_both)). exact w_both_keyed. Defined.

(** X12: Alice leaves. *)
Lemma unregisterClient_mirrors_store_witness :
  let w' := final (@unregisterClient runtime alice1 w_alice) in
  Clients w' = delete (ID alice1) (Clients w_alice) ∧
  users w' = (if db_up w_alice
              then alter (λ _, mkUserRow false (clock w_alice)) (ID alice1) (users w_alice)
              else users w_alice) ∧
  (db_up w_alice = false →
   @unregisterClient runtime alice1 w_alice = Ok tt w' ∧
   logs w' = logs w_alice ++ [LogOfflineStatusFailed; LogGetContactsFailed;
                              LogClientDisconnected (UniqueID alice1) (ID alice1)]).
Proof.
  apply (@unregisterClient_mirrors_store runtime alice1 alice1 (make_chan 256) w_alice);
    reflexivity.
Defined.

(** X13: Alice arrives while the store is down. *)
Lemma registerClient_mirrors_store_witness :
  let w' := final (@registerClient runtime alice1 w_offline_store) in
  Clients w' = <[ID alice1 := alice1]> (Clients w_offline_store) ∧
  users w' = (if db_up w_offline_store
              then alter (λ _, mkUserRow true (clock w_offline_store)) (ID alice1)
                         (users w_offline_store)
              else users w_offline_store) ∧
  (db_up w_offline_store = false →
   @registerClient runtime alice1 w_offline_store = Ok tt w' ∧
   logs w' = logs w_offline_store ++ [LogOnlineStatusFailed; LogGetContactsFailed;
                                      LogClientConnected (UniqueID alice1) (ID alice1)]).
Proof.
  apply (@registerClient_mirrors_store runtime alice1 w_offline_store); reflexivity.
Defined.

(** X15: Alice's second registration returns and the lock is free again. *)
Lemma calls_return_the_lock_witness : mu w_alice_twice = mu w_alice.
Proof.
  pose proof (proj1 (@calls_return_the_lock runtime) alice2 w_alice) as H.
  vm_compute in H. vm_compute. exact H.
Defined.

(** X11: Alice's read loop meets a read error. *)
Lemma ReadPump_unregisters_once_on_exit_witness :
  ∃ resume w',
    @ReadPump runtime newcomer visit w_joined = Sending resume w' ∧
    Unregister w' = Unregister w_joined ++ [newcomer] ∧
    connClosed <$> conns w' !! Conn newcomer = Some false ∧
    ∀ w'' s, conns (final (resume w'')) !! Conn newcomer = Some s → connClosed s = true.
Proof.
  pose proof (@ReadPump_unregisters_once_on_exit runtime newcomer visit w_joined) as H.
  destruct (@ReadPump runtime newcomer visit w_joined) as [a w'|p w'|w'|resume w'] eqn:E;
    [destruct H|destruct H|vm_compute in E; discriminate|].
  destruct H as (HU & _ & _ & Hclosed).
  exists resume, w'. split; [reflexivity|]. split; [exact HU|]. split; [|exact Hclosed].
  vm_compute in E. injection E as _ <-. vm_compute. reflexivity.
Defined.

(** X14: Alice's presence, broadcast with the lock free, reaches Bob. *)
Lemma broadcastPresence_delivers_when_unlocked_witness :
  ∃ w', @broadcastPresence runtime "alice" true w_bob = Ok tt w' ∧
        pushed_to (contacts_of "alice" (contacts w_bob))
                  (String.list_byte_of_string "user_online:alice") w_bob w'.
Proof.
  apply (@broadcastPresence_delivers_when_unlocked runtime "alice" true
           (String.list_byte_of_string "user_online:alice") w_bob).
  - reflexivity.
  - reflexivity.
  - exact w_bob_wf.
  - reflexivity.
Defined.

(** X16: connecting to and disconnecting from the lobby. *)
Lemma connect_disconnect_keep_registry_wf_witness :
  (∀ u q conn c w1 w2,
     NewClient u q conn w_lobby = Ok c w1 → @registerClient runtime c w1 = Ok tt w2 →
     registry_wf w2 ∧ Clients w2 !! u = Some c ∧
     chans w2 !! Send c = Some (make_chan 256)) ∧
  (∀ c w', Clients w_lobby !! ID c = Some c → @unregisterClient runtime c w_lobby = Ok tt w' →
           registry_wf w').
Proof. apply (@connect_disconnect_keep_registry_wf runtime w_lobby). exact w_lobby_wf. Defined.

(** X17: Alice visits the lobby and leaves. *)
Lemma connection_lifecycle_witness :
  Clients w_after = Clients w_lobby ∧ Register w_after = [] ∧ Unregister w_after = [] ∧
  (∃ ch, chans w_after !! Send newcomer = Some ch ∧ closed ch = true) ∧
  (∀ s, conns w_after !! Conn newcomer = Some s → connClosed s = true).
Proof.
  apply (@connection_lifecycle runtime "alice" "#ALICE-1" 1%positive visit newcomer
           (λ w', Ok tt (final (conn_Close (Conn newcomer) w')))
           w_lobby w_made w_joined w_left w_after).
  - reflexivity.
  - reflexivity.
  - reflexivity.
  - reflexivity.
  - vm_compute. reflexivity.
  - vm_compute. reflexivity.
  - vm_compute. reflexivity.
  - reflexivity.
Defined.

(** X18: one frame written, a ping, then a write that fails. *)
Lemma WritePump_writes_in_order_witness :
  ∃ ch', chans (final (snd (@WritePump runtime alice1
                              [SendReady true; TickerFires true; SendReady false]
                              (w_outbox false)))) !! Send alice1 = Some ch' ∧
         buf (mkChan [frame_x; frame_y] 256 false) =
           text_frames (fst (@WritePump runtime alice1
                               [SendReady true; TickerFires true; SendReady false]
                               (w_outbox false))) ++ buf ch' ∧
         cap ch' = cap (mkChan [frame_x; frame_y] 256 false) ∧
         closed ch' = closed (mkChan [frame_x; frame_y] 256 false).
Proof.
  apply (@WritePump_writes_in_order runtime alice1
           [SendReady true; TickerFires true; SendReady false]
           (mkChan [frame_x; frame_y] 256 false) (w_outbox false)).
  reflexivity.
Defined.

(** X19: the same run leaves the hub and Bob's channel alone. *)
Lemma WritePump_keeps_to_itself_witness :
  let w' := final (snd (@WritePump runtime alice1 [SendReady true; TickerFires false]
                          (w_outbox false))) in
  Clients w' = Clients (w_outbox false) ∧ Register w' = Register (w_outbox false) ∧
  Unregister w' = Unregister (w_outbox false) ∧
  (∀ k, k ≠ Send alice1 → chans w' !! k = chans (w_outbox false) !! k) ∧
  (∀ w'', snd (@WritePump runtime alice1 [SendReady true; TickerFires false]
                 (w_outbox false)) = Ok tt w'' →
          ∀ s, conns w'' !! Conn alice1 = Some s → connClosed s = true).
Proof.
  apply (@WritePump_keeps_to_itself runtime alice1 [SendReady true; TickerFires false]
           (mkChan [frame_x; frame_y] 256 false) (w_outbox false)).
  reflexivity.
Defined.

(** X20: Alice's channel was closed with two frames still in it. *)
Lemma WritePump_drains_then_says_goodbye_witness :
  ∃ out w',
    @WritePump runtime alice1
      (replicate (length (buf (mkChan [frame_x; frame_y] 256 true))) (SendReady true) ++
       SendReady true :: [TickerFires true]) (w_outbox true) =
      (out ++ [WriteMessage CloseMessage []], Ok tt w') ∧
    text_frames out = buf (mkChan [frame_x; frame_y] 256 true) ∧
    chans w' !! Send alice1 =
      Some (mkChan [] (cap (mkChan [frame_x; frame_y] 256 true)) true) ∧
    ∀ s, conns w' !! Conn alice1 = Some s → connClosed s = true.
Proof.
  apply (@WritePump_drains_then_says_goodbye runtime alice1
           (mkChan [frame_x; frame_y] 256 true) true [TickerFires true] (w_outbox true));
    reflexivity.
Defined.

(** X21: Alice writes to group "g"; Bob is the other member. *)
Lemma SendGroupMessage_sender_gets_confirmation_only_witness :
  ∃ w' ts dataS,
    @SendGroupMessage_broadcast runtime "g" "alice" group_hello w_both = Ok tt w' ∧
    @json_Marshal runtime
      (mkWSMessage EventGroupMessageSent (PGroupMessage group_hello) ts) = inl dataS ∧
    chans w' !! Send alice1 =
      Some (if decide (length (buf (make_chan 256)) < cap (make_chan 256))
            then enqueue (make_chan 256) dataS else make_chan 256) ∧
    ∀ u c ch, u ≠ "alice" → Clients w_both !! u = Some c → chans w_both !! Send c = Some ch →
      chans w' !! Send c =
        Some (if decide (u ∈ members_of "g" (group_members w_both) ∧
                         length (buf ch) < cap ch)
              then enqueue ch (String.list_byte_of_string "group_message_received:alice")
              else ch).
Proof.
  apply (@SendGroupMessage_sender_gets_confirmation_only runtime "g" "alice" group_hello
           alice1 (make_chan 256)
           (String.list_byte_of_string "group_message_received:alice") w_both).
  - reflexivity.
  - reflexivity.
  - exact w_duo_wf.
  - apply (bool_decide_unpack (NoDup (members_of "g" (group_members w_both)))).
    vm_compute. exact I.
  - reflexivity.
  - intros ts. eexists. reflexivity.
  - reflexivity.
  - reflexivity.
Defined.

End Cases.
